(** * arsdkprotoparser: the protobuf schema parser and model extractor

    Shallow embedding of [scripts/arsdkprotoparser.py] (ArsdkEngine):
    the [Message] and [Command] classes, the pyparsing grammar of
    [ProtoParser] and the extraction functions that walk the parse
    results; and of [scripts/arsdkgenswift.py], which writes the Swift
    extensions for the model that [parseFile] returns. *)

From Stdlib Require Import String Ascii List Arith ZArith Bool Lia.
From Stdlib Require Import Permutation Sorted.
Import ListNotations.
Open Scope string_scope.

(** ** Python built-ins used by the script *)

Module Py.

(** [key in s] for two [str]: substring test. *)
Fixpoint contains (key s : string) : bool :=
  String.prefix key s ||
  match s with
  | EmptyString => false
  | String _ s' => contains key s'
  end.

(** [s.endswith(suffix)]. *)
Fixpoint endswith (s suffix : string) : bool :=
  String.eqb s suffix ||
  match s with
  | EmptyString => false
  | String _ s' => endswith s' suffix
  end.

Definition is_lower (c : ascii) : bool :=
  (97 <=? nat_of_ascii c)%nat && (nat_of_ascii c <=? 122)%nat.

Definition is_upper (c : ascii) : bool :=
  (65 <=? nat_of_ascii c)%nat && (nat_of_ascii c <=? 90)%nat.

Definition is_digit (c : ascii) : bool :=
  (48 <=? nat_of_ascii c)%nat && (nat_of_ascii c <=? 57)%nat.

Definition upper_char (c : ascii) : ascii :=
  if is_lower c then ascii_of_nat (nat_of_ascii c - 32) else c.

Definition lower_char (c : ascii) : ascii :=
  if is_upper c then ascii_of_nat (nat_of_ascii c + 32) else c.

Fixpoint lower (s : string) : string :=
  match s with
  | EmptyString => EmptyString
  | String c s' => String (lower_char c) (lower s')
  end.

(** [s.capitalize()]: first character upper-cased, the rest lower-cased
    (ASCII letters; the grammar's identifiers are ASCII). *)
Definition capitalize (s : string) : string :=
  match s with
  | EmptyString => EmptyString
  | String c s' => String (upper_char c) (lower s')
  end.

(** [s.split(sep)] for a one-character separator: never empty. *)
Fixpoint split (sep : ascii) (s : string) : list string :=
  match s with
  | EmptyString => [EmptyString]
  | String c s' =>
      if Ascii.eqb c sep then EmptyString :: split sep s'
      else match split sep s' with
           | [] => [String c EmptyString]
           | w :: ws => String c w :: ws
           end
  end.

(** [sep.join(words)]. *)
Fixpoint join (sep : string) (words : list string) : string :=
  match words with
  | [] => EmptyString
  | [w] => w
  | w :: ws => w ++ sep ++ join sep ws
  end.

(** [string.capwords(s, sep)]. *)
Definition capwords (s : string) (sep : ascii) : string :=
  join (String sep EmptyString) (map capitalize (split sep s)).

(** [s.replace(old, new)] for one-character [old] and [new]. *)
Fixpoint replace (old new : ascii) (s : string) : string :=
  match s with
  | EmptyString => EmptyString
  | String c s' =>
      String (if Ascii.eqb c old then new else c) (replace old new s')
  end.

(** A [dict] with [str] keys and values, in insertion order: assigning
    to a key that is present replaces its value in place. *)
Definition dict := list (string * string).

Fixpoint setitem (d : dict) (k v : string) : dict :=
  match d with
  | [] => [(k, v)]
  | (k', v') :: d' =>
      if String.eqb k' k then (k', v) :: d' else (k', v') :: setitem d' k v
  end.

Fixpoint get (d : dict) (k : string) : option string :=
  match d with
  | [] => None
  | (k', v') :: d' => if String.eqb k' k then Some v' else get d' k
  end.

Definition keys (d : dict) : list string := map fst d.

(** [k in d] for a [dict]. *)
Definition mem (k : string) (d : dict) : bool :=
  match get d k with Some _ => true | None => false end.

(** [s.replace(old, new)] for a one-character [old] and any [new]. *)
Fixpoint replace_by (old : ascii) (new : string) (s : string) : string :=
  match s with
  | EmptyString => EmptyString
  | String c s' =>
      (if Ascii.eqb c old then new else String c EmptyString)
      ++ replace_by old new s'
  end.

(** [s[0]]: an [IndexError] on the empty string. *)
Definition getitem0 (s : string) : option string :=
  match s with
  | EmptyString => None
  | String c _ => Some (String c EmptyString)
  end.

(** [s[1:]]: empty on the empty string. *)
Definition slice1 (s : string) : string :=
  match s with
  | EmptyString => EmptyString
  | String _ s' => s'
  end.

(** [fmt % args] for a tuple [args] of [str]: every [%s] takes the next
    argument and [%%] is a percent sign; too few arguments, arguments
    left over and a [%] at the end of [fmt] raise.  The scripts use no
    other conversion: the model gives [None] for them as well. *)
Fixpoint format (fmt : string) (args : list string) : option string :=
  match fmt with
  | EmptyString =>
      match args with
      | [] => Some EmptyString
      | _ :: _ => None
      end
  | String c fmt' =>
      if Ascii.eqb c "%" then
        match fmt' with
        | String d fmt'' =>
            if Ascii.eqb d "s" then
              match args with
              | a :: args' => option_map (append a) (format fmt'' args')
              | [] => None
              end
            else if Ascii.eqb d "%" then
              option_map (String "%") (format fmt'' args)
            else None
        | EmptyString => None
        end
      else option_map (String c) (format fmt' args)
  end.

(** The value of a string of decimal digits, read after [acc]. *)
Fixpoint digits_value (acc : Z) (s : string) : option Z :=
  match s with
  | EmptyString => Some acc
  | String c s' =>
      if is_digit c
      then digits_value (10 * acc + Z.of_nat (nat_of_ascii c - 48)) s'
      else None
  end.

(** [int(s)] for a [str] of the form of the grammar's [integer],
    [[+-]?\d+], of at most 4300 digits (the default limit of the
    conversion in current interpreters).  [int] takes a few more forms
    (white space around the number, underscores between digits); they
    do not come out of the grammar and the model gives [None] for them,
    as for the strings on which [int] raises a [ValueError]. *)
Definition int (s : string) : option Z :=
  let '(negative, digits) :=
    match s with
    | String c s' =>
        if Ascii.eqb c "-" then (true, s')
        else if Ascii.eqb c "+" then (false, s')
        else (false, s)
    | EmptyString => (false, s)
    end in
  match digits with
  | EmptyString => None
  | String _ _ =>
      if (4300 <? Z.of_nat (String.length digits))%Z then None
      else option_map (fun n => if negative then (- n)%Z else n)
                      (digits_value 0 digits)
  end.

(** The keys of [sorted(l, key=key)], computed in order before anything
    is sorted: a key that raises makes the call raise. *)
Fixpoint keyed {A : Type} (key : A -> option Z) (l : list A)
  : option (list (Z * A)) :=
  match l with
  | [] => Some []
  | x :: l' =>
      match key x, keyed key l' with
      | Some k, Some kl => Some ((k, x) :: kl)
      | _, _ => None
      end
  end.

(** An element put before the first one whose key is not smaller. *)
Fixpoint insert_by {A : Type} (k : Z) (x : A) (l : list (Z * A))
  : list (Z * A) :=
  match l with
  | [] => [(k, x)]
  | (k', y) :: l' =>
      if (k <=? k')%Z then (k, x) :: l else (k', y) :: insert_by k x l'
  end.

(** [sorted(l, key=key)]: the elements by increasing key, those of
    equal key in the order they had (the sort is stable, which fixes
    the result whatever the algorithm). *)
Definition sorted {A : Type} (key : A -> option Z) (l : list A)
  : option (list A) :=
  match keyed key l with
  | Some kl =>
      Some (map snd
              (fold_right (fun kx acc => insert_by (fst kx) (snd kx) acc)
                          [] kl))
  | None => None
  end.

End Py.

(** ** The model classes *)

Module Message.
Record t : Type := mk { id : string; fields : Py.dict }.

(** [Message(id)] *)
Definition new (id : string) : t := mk id [].

(** [addField]: [self.fields[id] = number] *)
Definition addField (self : t) (id number : string) : t :=
  mk self.(Message.id) (Py.setitem self.(fields) id number).
End Message.

Module OneOf.
(** The dict [{'id': ..., 'type': ..., 'number': ...}] of [addOneOf]. *)
Record t : Type := mk { id : string; type : string; number : string }.
End OneOf.

Module Command.
Record t : Type :=
  mk { commandId : string; serviceId : string; oneOf : list OneOf.t }.

(** [Command(id, serviceId)] *)
Definition new (id serviceId : string) : t := mk id serviceId [].

(** [addOneOf]: [self.oneOf.append({...})] *)
Definition addOneOf (self : t) (id msgType number : string) : t :=
  mk self.(commandId) self.(serviceId)
     (self.(oneOf) ++ [OneOf.mk id msgType number])%list.
End Command.

(** ** Parse results

    What pyparsing hands to the script: a token is a [str] or a nested
    [ParseResults], which carries its token list and its named results.
    [tokdict] is kept in the order the names were set; reading a name
    gives the value set last. *)

#[local] Set Warnings "-register-all".

Inductive value : Type :=
| Str (s : string)
| ParseResults (toklist : list value) (tokdict : list (string * value)).

Module Res.

(** [tokdict] read through [f]: [f] applied to the value set last under
    [key]. *)
Definition getitem_with {A : Type} (f : value -> A) (key : string)
  : list (string * value) -> option A :=
  fix look (d : list (string * value)) : option A :=
    match d with
    | [] => None
    | (k, v) :: d' =>
        match look d' with
        | Some a => Some a
        | None => if String.eqb k key then Some (f v) else None
        end
    end.

Definition getitem (key : string) (d : list (string * value))
  : option value :=
  getitem_with (fun v => v) key d.

Definition haskey (key : string) (d : list (string * value)) : bool :=
  match getitem key d with Some _ => true | None => false end.

(** [key in item]: a named result for [ParseResults], a substring for
    [str]. *)
Definition contains (key : string) (item : value) : bool :=
  match item with
  | Str s => Py.contains key s
  | ParseResults _ d => haskey key d
  end.

(** The one-character strings a [for] loop over a [str] yields. *)
Fixpoint chars (s : string) : list string :=
  match s with
  | EmptyString => []
  | String c s' => String c EmptyString :: chars s'
  end.

(** A loop body run over a list, threading the state and stopping at
    the first failure. *)
(** The items a [for] loop over a value yields. *)
Definition iter (v : value) : list value :=
  match v with
  | Str s => map Str (chars s)
  | ParseResults toklist _ => toklist
  end.

Definition for_each {A S : Type} (body : A -> S -> option S)
  : list A -> S -> option S :=
  fix go (l : list A) (st : S) : option S :=
    match l with
    | [] => Some st
    | x :: l' =>
        match body x st with
        | Some st' => go l' st'
        | None => None
        end
    end.

End Res.

(** ** The pyparsing elements the grammar is built from

    The input is the text of the file, one [ascii] per character.  A
    parse position is kept as the text still to read, its offset [loc]
    and the character just before it (which [Keyword] inspects).

    An element either matches, giving the new position, its tokens and
    its named results, or raises: a [ParseException], which the
    enclosing alternative, option or repetition catches, or a
    [ParseSyntaxException], which goes up to the caller.  Repetition
    and the recursion of the grammar run on fuel. *)

Module Pyparsing.

Record cursor : Type :=
  mkCursor { prev : option ascii; rest : string; loc : nat }.

Definition start (instring : string) : cursor :=
  mkCursor None instring 0.

Fixpoint last_char (m : string) (default : option ascii) : option ascii :=
  match m with
  | EmptyString => default
  | String c m' => last_char m' (Some c)
  end.

(** The position after the matched text [m], with [rest'] left. *)
Definition consume (cur : cursor) (m rest' : string) : cursor :=
  mkCursor (last_char m cur.(prev)) rest' (cur.(loc) + String.length m).

Inductive outcome : Type :=
| Matched (cur : cursor) (toklist : list value)
          (tokdict : list (string * value))
| ParseException (loc : nat)
| ParseSyntaxException (loc : nat)
| OutOfFuel.

Definition parser : Type := cursor -> outcome.

(** *** Character classes *)

Definition in_chars (chars : string) (c : ascii) : bool :=
  existsb (Ascii.eqb c) (list_ascii_of_string chars).

Definition alphas : ascii -> bool :=
  fun c => Py.is_upper c || Py.is_lower c.
Definition nums : ascii -> bool := Py.is_digit.
Definition alphanums : ascii -> bool := fun c => alphas c || nums c.
Definition hexnums : ascii -> bool :=
  fun c => nums c || in_chars "ABCDEFabcdef" c.

(** [Keyword.DEFAULT_KEYWORD_CHARS]: [alphanums + "_$"] *)
Definition identChars : ascii -> bool :=
  fun c => alphanums c || in_chars "_$" c.

Definition whiteChars : ascii -> bool :=
  fun c => (nat_of_ascii c =? 32)%nat || (nat_of_ascii c =? 9)%nat
           || (nat_of_ascii c =? 10)%nat || (nat_of_ascii c =? 13)%nat.

(** The longest prefix whose characters satisfy [f], and what
    follows. *)
Fixpoint span (f : ascii -> bool) (s : string) : string * string :=
  match s with
  | EmptyString => (EmptyString, EmptyString)
  | String c s' =>
      if f c then let '(m, r) := span f s' in (String c m, r)
      else (EmptyString, s)
  end.

(** [s] without the prefix [p], when it starts with it. *)
Fixpoint strip_prefix (p s : string) : option string :=
  match p, s with
  | EmptyString, _ => Some s
  | String a p', String b s' =>
      if Ascii.eqb a b then strip_prefix p' s' else None
  | String _ _, EmptyString => None
  end.

(** *** Comments and white space: [preParse] *)

Definition newline : ascii := ascii_of_nat 10.
Definition backslash : ascii := ascii_of_nat 92.
Definition dquote : ascii := ascii_of_nat 34.
Definition squote : ascii := ascii_of_nat 39.

(** The text up to and including the first [*/], and what follows. *)
Fixpoint block_comment_end (s : string) : option (string * string) :=
  match s with
  | EmptyString => None
  | String c s' =>
      match strip_prefix "*/" s with
      | Some r => Some ("*/", r)
      | None =>
          match block_comment_end s' with
          | Some (m, r) => Some (String c m, r)
          | None => None
          end
      end
  end.

(** The body of a [//] comment, [(?:\\\n|[^\n])*]: up to the end of
    the line, a line break right after a backslash being part of the
    comment. *)
Fixpoint line_comment_body (escaped : bool) (s : string)
  : string * string :=
  match s with
  | EmptyString => (EmptyString, EmptyString)
  | String c s' =>
      if Ascii.eqb c newline && negb escaped then (EmptyString, s)
      else
        let '(m, r) := line_comment_body (Ascii.eqb c backslash) s' in
        (String c m, r)
  end.

(** [javaStyleComment]: a closed [/* ... */] or a [//] comment. *)
Definition javaStyleComment (s : string) : option (string * string) :=
  match strip_prefix "/*" s with
  | Some s' =>
      match block_comment_end s' with
      | Some (m, r) => Some ("/*" ++ m, r)
      | None => None
      end
  | None =>
      match strip_prefix "//" s with
      | Some s' =>
          let '(m, r) := line_comment_body false s' in Some ("//" ++ m, r)
      | None => None
      end
  end.

Definition skipWhitespace (cur : cursor) : cursor :=
  let '(m, r) := span whiteChars cur.(rest) in consume cur m r.

(** White space and comments are skipped, in any number and order,
    before every element: [parseFile] registers the comment with
    [ignore], which hands it down to every sub-expression. *)
Fixpoint skipIgnorables (fuel : nat) (cur : cursor) : cursor :=
  let cur := skipWhitespace cur in
  match fuel with
  | O => cur
  | S fuel' =>
      match javaStyleComment cur.(rest) with
      | Some (m, r) => skipIgnorables fuel' (consume cur m r)
      | None => cur
      end
  end.

Definition preParse (cur : cursor) : cursor :=
  skipIgnorables (String.length cur.(rest)) cur.

(** *** Tokens *)

(** An element that reads one token: the scanner gets the text at the
    position [preParse] leaves. *)
Definition token (scan : cursor -> option (string * string)) : parser :=
  fun cur =>
    let cur := preParse cur in
    match scan cur with
    | Some (m, r) => Matched (consume cur m r) [Str m] []
    | None => ParseException cur.(loc)
    end.

(** [Word(initChars, bodyChars)] *)
Definition Word (initChars bodyChars : ascii -> bool) : parser :=
  token (fun cur =>
    match cur.(rest) with
    | String c s' =>
        if initChars c then
          let '(m, r) := span bodyChars s' in Some (String c m, r)
        else None
    | EmptyString => None
    end).

(** [Regex(r"[+-]?\d+")] *)
Definition Regex_integer : parser :=
  token (fun cur =>
    let '(sign, s) :=
      match cur.(rest) with
      | String c s' =>
          if in_chars "+-" c then (String c EmptyString, s')
          else (EmptyString, cur.(rest))
      | EmptyString => (EmptyString, EmptyString)
      end in
    match span nums s with
    | (EmptyString, _) => None
    | (digits, r) => Some (sign ++ digits, r)
    end).

(** [Literal(s)] *)
Definition Literal (lit : string) : parser :=
  token (fun cur =>
    match strip_prefix lit cur.(rest) with
    | Some r => Some (lit, r)
    | None => None
    end).

(** [Keyword(kw)]: the literal, with no identifier character right
    before or right after it. *)
Definition Keyword (kw : string) : parser :=
  token (fun cur =>
    match strip_prefix kw cur.(rest) with
    | Some r =>
        let after_ok :=
          match r with
          | String c _ => negb (identChars c)
          | EmptyString => true
          end in
        let before_ok :=
          match cur.(prev) with
          | Some c => negb (identChars c)
          | None => true
          end in
        if after_ok && before_ok then Some (kw, r) else None
    | None => None
    end).

(** [oneOf("a b c")]: the first of the literals that the text starts
    with (none of the lists used is reordered: no literal is a prefix
    of a later one). *)
Definition oneOf (literals : list string) : parser :=
  token (fun cur =>
    (fix first (ls : list string) : option (string * string) :=
       match ls with
       | [] => None
       | lit :: ls' =>
           match strip_prefix lit cur.(rest) with
           | Some r => Some (lit, r)
           | None => first ls'
           end
       end) literals).

(** The characters between the quotes of [quotedString]: anything but
    the quote, a line break or a backslash; a doubled quote; a
    backslash with any character but [x], or with [x] and hexadecimal
    digits. *)
Fixpoint quoted_body (fuel : nat) (q : ascii) (s : string)
  : string * string :=
  match fuel, s with
  | S fuel', String c s' =>
      if Ascii.eqb c q then
        match s' with
        | String c2 s'' =>
            if Ascii.eqb c2 q then
              let '(m, r) := quoted_body fuel' q s'' in
              (String c (String c2 m), r)
            else (EmptyString, s)
        | EmptyString => (EmptyString, s)
        end
      else if Ascii.eqb c backslash then
        match s' with
        | String d s'' =>
            if Ascii.eqb d "x" then
              match span hexnums s'' with
              | (EmptyString, _) => (EmptyString, s)
              | (h, r0) =>
                  let '(m, r) := quoted_body fuel' q r0 in
                  (String c (String d (h ++ m)), r)
              end
            else
              let '(m, r) := quoted_body fuel' q s'' in
              (String c (String d m), r)
        | EmptyString => (EmptyString, s)
        end
      else if in_chars (String newline (String (ascii_of_nat 13) "")) c
      then (EmptyString, s)
      else
        let '(m, r) := quoted_body fuel' q s' in (String c m, r)
  | _, _ => (EmptyString, s)
  end.

Definition quoted (q : ascii) (s : string) : option (string * string) :=
  match s with
  | String c s' =>
      if Ascii.eqb c q then
        let '(m, r) := quoted_body (String.length s') q s' in
        match r with
        | String c' r' =>
            if Ascii.eqb c' q
            then Some (String c (m ++ String c' EmptyString), r')
            else None
        | EmptyString => None
        end
      else None
  | EmptyString => None
  end.

(** [quotedString]: double quotes, or single quotes. *)
Definition quotedString : parser :=
  token (fun cur =>
    match quoted dquote cur.(rest) with
    | Some mr => Some mr
    | None => quoted squote cur.(rest)
    end).

(** *** Combinators *)

(** [Suppress(e)]: matches [e] and drops its tokens. *)
Definition Suppress (e : parser) : parser :=
  fun cur =>
    match e cur with
    | Matched cur' _ _ => Matched cur' [] []
    | o => o
    end.

(** [e(name)], [setResultsName]: the first token under [name] (every
    expression the grammar names yields at least one token). *)
Definition named (e : parser) (name : string) : parser :=
  fun cur =>
    match e cur with
    | Matched cur' toklist tokdict =>
        Matched cur' toklist
          match toklist with
          | first :: _ => tokdict ++ [(name, first)]
          | [] => tokdict
          end%list
    | o => o
    end.

(** An operand of [And]: an expression, or the error stop that [-]
    inserts. *)
Inductive and_item : Type :=
| Elt (e : parser)
| ErrorStop.

Coercion Elt : parser >-> and_item.

(** [And]: the expressions in sequence, tokens and names accumulated.
    Past the error stop a [ParseException] becomes a
    [ParseSyntaxException], which no enclosing [MatchFirst],
    [Optional] or [ZeroOrMore] catches. *)
Fixpoint And_from (errorStop : bool) (exprs : list and_item)
    (cur : cursor) (toklist : list value)
    (tokdict : list (string * value)) : outcome :=
  match exprs with
  | [] => Matched cur toklist tokdict
  | ErrorStop :: exprs' => And_from true exprs' cur toklist tokdict
  | Elt e :: exprs' =>
      match e cur with
      | Matched cur' toks names =>
          And_from errorStop exprs' cur' (toklist ++ toks)%list
                   (tokdict ++ names)%list
      | ParseException l =>
          if errorStop then ParseSyntaxException l else ParseException l
      | o => o
      end
  end.

Definition And (exprs : list and_item) : parser :=
  fun cur => And_from false exprs cur [] [].

(** [MatchFirst]: the first alternative that matches; when none does,
    the failure that got furthest (the first of those). *)
Fixpoint MatchFirst_from (exprs : list parser) (cur : cursor)
    (maxExcLoc : option nat) : outcome :=
  match exprs with
  | [] =>
      match maxExcLoc with
      | Some l => ParseException l
      | None => ParseException cur.(loc)
      end
  | e :: exprs' =>
      match e cur with
      | ParseException l =>
          MatchFirst_from exprs' cur
            match maxExcLoc with
            | Some l0 => if (l0 <? l)%nat then Some l else Some l0
            | None => Some l
            end
      | o => o
      end
  end.

Definition MatchFirst (exprs : list parser) : parser :=
  fun cur => MatchFirst_from exprs cur None.

(** [Optional(e)] *)
Definition Optional (e : parser) : parser :=
  fun cur =>
    match e cur with
    | ParseException _ => Matched cur [] []
    | o => o
    end.

(** [ZeroOrMore(e)]: [e] as long as it matches.  Each round takes one
    unit of [fuel]. *)
Fixpoint ZeroOrMore_from (fuel : nat) (e : parser) (cur : cursor)
    (toklist : list value) (tokdict : list (string * value)) : outcome :=
  match e cur with
  | Matched cur' toks names =>
      match fuel with
      | O => OutOfFuel
      | S fuel' =>
          ZeroOrMore_from fuel' e cur' (toklist ++ toks)%list
                          (tokdict ++ names)%list
      end
  | ParseException _ => Matched cur toklist tokdict
  | o => o
  end.

Definition ZeroOrMore (fuel : nat) (e : parser) : parser :=
  fun cur => ZeroOrMore_from fuel e cur [] [].

(** [Group(e)]: the tokens and names of [e] as one nested token. *)
Definition Group (e : parser) : parser :=
  fun cur =>
    match e cur with
    | Matched cur' toklist tokdict =>
        Matched cur' [ParseResults toklist tokdict] []
    | o => o
    end.

(** The name and value [Dict] derives from one grouped token: its
    first token is the name; the value is the empty string, the second
    token, or the group without its first token.  (What [Dict] holds in
    this grammar are groups that start with a string.) *)
Definition dict_entry (tok : value) : list (string * value) :=
  match tok with
  | ParseResults (Str ikey :: others) names =>
      match others with
      | [] => [(ikey, Str EmptyString)]
      | [Str v] => [(ikey, Str v)]
      | [ParseResults _ _ as v] =>
          match names with
          | [] => [(ikey, v)]
          | _ => [(ikey, ParseResults others names)]
          end
      | _ => [(ikey, ParseResults others names)]
      end
  | _ => []
  end.

(** [Dict(e)]: every grouped token of [e] also becomes a named
    result. *)
Definition Dict (e : parser) : parser :=
  fun cur =>
    match e cur with
    | Matched cur' toklist tokdict =>
        Matched cur' toklist (tokdict ++ flat_map dict_entry toklist)%list
    | o => o
    end.

End Pyparsing.

(** Sequencing of steps that may raise: [None] stands for a Python
    exception, or for a value outside the [str]-typed fragment modelled
    here (a [ParseResults] used where the model classes hold a [str]). *)
Notation "x <- e ;; k" :=
  (match e with Some x => k | None => None end)
  (at level 61, e at next level, right associativity).
Notation "' p <- e ;; k" :=
  (match e with Some p => k | None => None end)
  (at level 61, p pattern, e at next level, right associativity).

(** ** ProtoParser: the grammar and the extraction *)

Module ProtoParser.

Definition PACKAGE_NAME_RES := "packageName".
Definition MSG_ID_RES := "messageId".
Definition MSG_BODY_RES := "messageBody".
Definition ONEOF_BODY_RES := "oneOfBody".
Definition FIELD_ID_RES := "fieldId".
Definition FIELD_TYPE_RES := "fieldType".
Definition FIELD_NB_RES := "fieldNumber".
Definition ENUM_ID_RES := "enumId".

(** *** The grammar *)

Import Pyparsing.

Definition ident : parser :=
  Word (fun c => alphas c || in_chars "_." c)
       (fun c => alphanums c || in_chars "_." c).
Definition integer : parser := Regex_integer.

Definition LBRACE : parser := Suppress (Literal "{").
Definition RBRACE : parser := Suppress (Literal "}").
Definition LBRACK : parser := Suppress (Literal "[").
Definition RBRACK : parser := Suppress (Literal "]").
Definition LPAR : parser := Suppress (Literal "(").
Definition RPAR : parser := Suppress (Literal ")").
Definition EQ : parser := Suppress (Literal "=").
Definition SEMI : parser := Suppress (Literal ";").
Definition COMMA : parser := Suppress (Literal ",").
Definition LESSER : parser := Suppress (Literal "<").
Definition GREATER : parser := Suppress (Literal ">").


Definition MESSAGE_ : parser := Keyword "message".
Definition REQUIRED_ : parser := Keyword "required".
Definition OPTIONAL_ : parser := Keyword "optional".
Definition REPEATED_ : parser := Keyword "repeated".
Definition ENUM_ : parser := Keyword "enum".
Definition EXTENSIONS_ : parser := Keyword "extensions".
Definition EXTENDS_ : parser := Keyword "extends".
Definition EXTEND_ : parser := Keyword "extend".
Definition TO_ : parser := Keyword "to".
Definition PACKAGE_ : parser := Keyword "package".
Definition SERVICE_ : parser := Keyword "service".
Definition RPC_ : parser := Keyword "rpc".
Definition RETURNS_ : parser := Keyword "returns".
Definition TRUE_ : parser := Keyword "true".
Definition FALSE_ : parser := Keyword "false".
Definition OPTION_ : parser := Keyword "option".
Definition IMPORT_ : parser := Keyword "import".
Definition SYNTAX_ : parser := Keyword "syntax".
Definition RESERVED_ : parser := Keyword "reserved".
Definition ONEOF_ : parser := Keyword "oneof".
Definition MAP_ : parser := Keyword "map".

Section Grammar.

(** The bound on the rounds of each [ZeroOrMore] and on the nesting
    of message bodies; [parseFile] takes it longer than the text. *)
Variable fuel : nat.

Definition mapDefn : parser :=
  And [Elt MAP_; ErrorStop; Elt LESSER;
       Elt (oneOf ["int32"; "int64"; "uint32"; "uint64"; "sint32";
                   "sint64"; "fixed32"; "fixed64"; "sfixed32";
                   "sfixed64"; "bool"; "string"]);
       Elt COMMA; Elt ident; Elt GREATER].

Definition typespec : parser :=
  MatchFirst
    [oneOf ["double"; "float"; "int32"; "int64"; "uint32"; "uint64";
            "sint32"; "sint64"; "fixed32"; "fixed64"; "sfixed32";
            "sfixed64"; "bool"; "string"; "bytes"];
     mapDefn;
     ident].

Definition rvalue : parser := MatchFirst [integer; TRUE_; FALSE_; ident].

Definition fieldDirective : parser :=
  And [Elt LBRACK;
       Elt (Group (And [Elt (Optional LPAR); Elt ident;
                        Elt (Optional RPAR); Elt EQ;
                        Elt (Group (MatchFirst [rvalue; quotedString]))]));
       Elt RBRACK].

Definition fieldDefnPrefix : parser :=
  MatchFirst [REQUIRED_; OPTIONAL_; REPEATED_].

Definition fieldDefn : parser :=
  And [Elt (Optional fieldDefnPrefix);
       Elt (named typespec FIELD_TYPE_RES);
       Elt (named ident FIELD_ID_RES);
       Elt EQ;
       Elt (named integer FIELD_NB_RES);
       Elt (ZeroOrMore fuel fieldDirective);
       Elt SEMI].

Definition optionDirective : parser :=
  And [Elt OPTION_; ErrorStop; Elt (Optional LPAR); Elt ident;
       Elt (Optional RPAR); Elt EQ; Elt (ZeroOrMore fuel quotedString);
       Elt SEMI].

Definition reservedDefn : parser :=
  And [Elt RESERVED_; ErrorStop; Elt integer;
       Elt (ZeroOrMore fuel
              (And [Elt (Group (MatchFirst [TO_; COMMA])); Elt integer]));
       Elt SEMI].

Definition enumDefn : parser :=
  And [Elt ENUM_; ErrorStop; Elt (named ident ENUM_ID_RES); Elt LBRACE;
       Elt (Dict
              (ZeroOrMore fuel
                 (Group
                    (MatchFirst
                       [And [Elt ident; Elt EQ; Elt integer;
                             Elt (ZeroOrMore fuel fieldDirective);
                             Elt SEMI];
                        optionDirective;
                        reservedDefn]))));
       Elt RBRACE].

Definition extensionsDefn : parser :=
  And [Elt EXTENSIONS_; ErrorStop; Elt integer; Elt TO_; Elt integer;
       Elt SEMI].

Definition oneOfBody : parser :=
  Group (ZeroOrMore fuel (Group fieldDefn)).

Definition oneOfDefn : parser :=
  And [Elt ONEOF_; ErrorStop; Elt ident; Elt LBRACE;
       Elt (named oneOfBody ONEOF_BODY_RES); Elt RBRACE].

(** [messageDefn] and [messageExtension] over the [Forward]
    [messageBody]. *)
Definition messageDefn_over (messageBody : parser) : parser :=
  And [Elt MESSAGE_; ErrorStop; Elt (named ident MSG_ID_RES); Elt LBRACE;
       Elt (named messageBody MSG_BODY_RES); Elt RBRACE].

Definition messageExtension_over (messageBody : parser) : parser :=
  And [Elt EXTEND_; ErrorStop; Elt ident; Elt LBRACE; Elt messageBody;
       Elt RBRACE].

Fixpoint messageBody (depth : nat) (cur : cursor) {struct depth}
  : outcome :=
  match depth with
  | O => OutOfFuel
  | S depth' =>
      Group
        (ZeroOrMore fuel
           (Group
              (MatchFirst
                 [fieldDefn; enumDefn;
                  messageDefn_over (messageBody depth');
                  extensionsDefn; reservedDefn;
                  messageExtension_over (messageBody depth');
                  oneOfDefn; optionDirective]))) cur
  end.

Definition messageDefn : parser := messageDefn_over (messageBody fuel).

Definition messageExtension : parser :=
  messageExtension_over (messageBody fuel).

Definition methodDefn : parser :=
  And [Elt RPC_; ErrorStop; Elt ident; Elt LPAR; Elt (Optional ident);
       Elt RPAR; Elt RETURNS_; Elt LPAR; Elt (Optional ident); Elt RPAR].

Definition serviceDefn : parser :=
  And [Elt SERVICE_; ErrorStop; Elt ident; Elt LBRACE;
       Elt (ZeroOrMore fuel (Group methodDefn)); Elt RBRACE].

Definition syntaxDefn : parser :=
  And [Elt SYNTAX_; Elt EQ; ErrorStop; Elt quotedString; Elt SEMI].

Definition packageDirective : parser :=
  And [Elt PACKAGE_; ErrorStop; Elt (named ident PACKAGE_NAME_RES);
       Elt SEMI].

Definition importDirective : parser :=
  And [Elt IMPORT_; ErrorStop; Elt quotedString; Elt SEMI].

Definition topLevelStatement : parser :=
  Group
    (MatchFirst
       [messageDefn; messageExtension; enumDefn; serviceDefn;
        importDirective; optionDirective; syntaxDefn;
        packageDirective]).

End Grammar.

(** A value used as a [str] operand of [+]: a [ParseResults] there
    raises. *)
Definition as_str (v : option value) : option string :=
  match v with
  | Some (Str s) => Some s
  | _ => None
  end.

(** The id given to a definition named [messageId]:
    [baseName + "_" + messageId] at top level,
    [parentMessage.id + "." + messageId] inside a message. *)
Definition qualifiedId (baseName : string)
    (parentMessage : option Message.t) (messageId : string) : string :=
  match parentMessage with
  | None => baseName ++ "_" ++ messageId
  | Some parent => parent.(Message.id) ++ "." ++ messageId
  end.

(** The list being filled and the enclosing message being filled. *)
Definition acc : Type := (list Message.t * option Message.t)%type.

(** The four [if] blocks of the loop of [_extractMessages], for an item
    that is a [ParseResults] with named results [d]; [self] is the
    recursive call. *)

(** A message definition: its body is walked with the new message as
    the enclosing one, then the message is appended. *)
Definition ifMessage
    (self : value -> list Message.t -> string -> option Message.t
            -> option acc)
    (baseName : string) (d : list (string * value)) (st : acc)
  : option acc :=
  let '(messages, parentMessage) := st in
  if Res.haskey MSG_ID_RES d && Res.haskey MSG_BODY_RES d then
    messageId <- as_str (Res.getitem MSG_ID_RES d) ;;
    let messageId := qualifiedId baseName parentMessage messageId in
    let message := Message.new messageId in
    r <- Res.getitem_with
           (fun body => self body messages messageId (Some message))
           MSG_BODY_RES d ;;
    '(messages, message) <- r ;;
    (* the call hands back the message it was given, with its fields *)
    message <- message ;;
    Some ((messages ++ [message])%list, parentMessage)
  else Some st.

(** An enum definition: a message without fields. *)
Definition ifEnum (baseName : string) (d : list (string * value))
    (st : acc) : option acc :=
  let '(messages, parentMessage) := st in
  if Res.haskey ENUM_ID_RES d then
    messageId <- as_str (Res.getitem ENUM_ID_RES d) ;;
    let messageId := qualifiedId baseName parentMessage messageId in
    Some ((messages ++ [Message.new messageId])%list, parentMessage)
  else Some st.

(** A [oneof]: its body is walked for the same enclosing message. *)
Definition ifOneOf
    (self : value -> list Message.t -> string -> option Message.t
            -> option acc)
    (baseName : string) (d : list (string * value)) (st : acc)
  : option acc :=
  let '(messages, parentMessage) := st in
  if Res.haskey ONEOF_BODY_RES d then
    r <- Res.getitem_with
           (fun body => self body messages baseName parentMessage)
           ONEOF_BODY_RES d ;;
    r
  else Some st.

(** A field definition: recorded in the enclosing message, if any. *)
Definition ifField (d : list (string * value)) (st : acc) : option acc :=
  let '(messages, parentMessage) := st in
  if Res.haskey FIELD_ID_RES d && Res.haskey FIELD_NB_RES d then
    match parentMessage with
    | Some parent =>
        id <- as_str (Res.getitem FIELD_ID_RES d) ;;
        number <- as_str (Res.getitem FIELD_NB_RES d) ;;
        Some (messages, Some (Message.addField parent id number))
    | None => Some st
    end
  else Some st.

Definition extractItem
    (self : value -> list Message.t -> string -> option Message.t
            -> option acc)
    (baseName : string) (d : list (string * value)) (st : acc)
  : option acc :=
  st <- ifMessage self baseName d st ;;
  st <- ifEnum baseName d st ;;
  st <- ifOneOf self baseName d st ;;
  ifField d st.

(** The same loop body for an item that is a [str]: every [in] is a
    substring test, and indexing the [str] by a key raises. *)
Definition extractStrItem (s : string) (st : acc) : option acc :=
  let '(messages, parentMessage) := st in
  if Py.contains MSG_ID_RES s && Py.contains MSG_BODY_RES s then None
  else if Py.contains ENUM_ID_RES s then None
  else if Py.contains ONEOF_BODY_RES s then None
  else if Py.contains FIELD_ID_RES s && Py.contains FIELD_NB_RES s then
    match parentMessage with
    | Some _ => None
    | None => Some st
    end
  else Some st.

Fixpoint _extractMessages (resultItem : value) (messages : list Message.t)
    (baseName : string) (parentMessage : option Message.t)
    {struct resultItem} : option acc :=
  match resultItem with
  | Str s =>
      Res.for_each extractStrItem (Res.chars s) (messages, parentMessage)
  | ParseResults toklist _ =>
      (fix loop (items : list value) (st : acc) {struct items}
         : option acc :=
         match items with
         | [] => Some st
         | item :: items' =>
             st' <-
               match item with
               | Str s => extractStrItem s st
               | ParseResults _ d => extractItem _extractMessages baseName d st
               end ;;
             loop items' st'
         end) toklist (messages, parentMessage)
  end.

(** [extractMessages]: the list starts empty and there is no enclosing
    message. *)
Definition extractMessages (parseResults : value) (baseName : string)
  : option (list Message.t) :=
  '(messages, _) <- _extractMessages parseResults [] baseName None ;;
  Some messages.

(** [getPackageName]: the name of the first item that has one, as a
    [str]. *)
Fixpoint getPackageName_loop (items : list value) : option string :=
  match items with
  | [] => Some ""
  | Str s :: items' =>
      if Py.contains PACKAGE_NAME_RES s then None
      else getPackageName_loop items'
  | ParseResults _ d :: items' =>
      if Res.haskey PACKAGE_NAME_RES d
      then as_str (Res.getitem PACKAGE_NAME_RES d)
      else getPackageName_loop items'
  end.

Definition getPackageName (parseResults : value) : option string :=
  getPackageName_loop (Res.iter parseResults).

(** [getBaseName]: the same name, each dotted part capitalised and the
    dots replaced by underscores. *)
Fixpoint getBaseName_loop (items : list value) : option string :=
  match items with
  | [] => Some ""
  | Str s :: items' =>
      if Py.contains PACKAGE_NAME_RES s then None
      else getBaseName_loop items'
  | ParseResults _ d :: items' =>
      if Res.haskey PACKAGE_NAME_RES d then
        name <- as_str (Res.getitem PACKAGE_NAME_RES d) ;;
        Some (Py.replace "." "_" (Py.capwords name "."))
      else getBaseName_loop items'
  end.

Definition getBaseName (parseResults : value) : option string :=
  getBaseName_loop (Res.iter parseResults).

(** [normalizeType]: a message nested under [parentType] first, then
    the first message whose id ends with [_messageType], else the
    token itself. *)
Definition normalizeType (messageType parentType : string)
    (messages : list Message.t) : string :=
  match find (fun message =>
                String.eqb message.(Message.id)
                           (parentType ++ "." ++ messageType))
             messages with
  | Some message => message.(Message.id)
  | None =>
      match find (fun message =>
                    Py.endswith message.(Message.id) ("_" ++ messageType))
                 messages with
      | Some message => message.(Message.id)
      | None => messageType
      end
  end.

(** The body of the inner loop of [extractCmdContent]. *)
Definition addOneOfItem (messages : list Message.t) (oneOfItem : value)
    (cmd : Command.t) : option Command.t :=
  match oneOfItem with
  | Str s =>
      if Py.contains FIELD_ID_RES s && Py.contains FIELD_NB_RES s
         && Py.contains FIELD_TYPE_RES s
      then None else Some cmd
  | ParseResults _ d =>
      if Res.haskey FIELD_ID_RES d && Res.haskey FIELD_NB_RES d
         && Res.haskey FIELD_TYPE_RES d
      then
        fieldType <-
          match Res.getitem FIELD_TYPE_RES d with
          | Some (ParseResults (Str first :: _) _) => Some first
          | Some (Str s) => Some s
          | _ => None
          end ;;
        let msgType :=
          normalizeType fieldType cmd.(Command.commandId) messages in
        id <- as_str (Res.getitem FIELD_ID_RES d) ;;
        number <- as_str (Res.getitem FIELD_NB_RES d) ;;
        Some (Command.addOneOf cmd id msgType number)
      else Some cmd
  end.

(** [extractCmdContent]: the fields of every [oneof] of the body, in
    order. *)
Definition extractCmdContentItem (messages : list Message.t) (item : value)
    (cmd : Command.t) : option Command.t :=
  match item with
  | Str s => if Py.contains ONEOF_BODY_RES s then None else Some cmd
  | ParseResults _ d =>
      if Res.haskey ONEOF_BODY_RES d then
        body <- Res.getitem ONEOF_BODY_RES d ;;
        Res.for_each (addOneOfItem messages) (Res.iter body) cmd
      else Some cmd
  end.

Definition extractCmdContent (resultItem : value) (cmd : Command.t)
    (messages : list Message.t) : option Command.t :=
  Res.for_each (extractCmdContentItem messages) (Res.iter resultItem) cmd.

(** The body of the loop of [extractCmd]: a matching item overwrites
    [cmd]. *)
Definition extractCmdItem (name packageName baseName : string)
    (messages : list Message.t) (item : value) (cmd : option Command.t)
  : option (option Command.t) :=
  match item with
  | Str s =>
      if Py.contains MSG_ID_RES s && Py.contains MSG_BODY_RES s
      then None else Some cmd
  | ParseResults _ d =>
      if Res.haskey MSG_ID_RES d && Res.haskey MSG_BODY_RES d then
        match Res.getitem MSG_ID_RES d with
        | Some (Str messageId) =>
            if String.eqb messageId name then
              let cmdId := baseName ++ "_" ++ messageId in
              let serviceId := packageName ++ "." ++ messageId in
              body <- Res.getitem MSG_BODY_RES d ;;
              cmd <- extractCmdContent body
                       (Command.new cmdId serviceId) messages ;;
              Some (Some cmd)
            else Some cmd
        | _ => Some cmd
        end
      else Some cmd
  end.

Definition extractCmd (name : string) (parseResults : value)
    (packageName baseName : string) (messages : list Message.t)
  : option (option Command.t) :=
  Res.for_each (extractCmdItem name packageName baseName messages)
               (Res.iter parseResults) None.

(** What [parseFile] does with the parse results. *)
Definition extractModel (parseResults : value)
  : option (list Message.t * option Command.t * option Command.t) :=
  packageName <- getPackageName parseResults ;;
  baseName <- getBaseName parseResults ;;
  messages <- extractMessages parseResults baseName ;;
  command <- extractCmd "Command" parseResults packageName baseName
                        messages ;;
  event <- extractCmd "Event" parseResults packageName baseName messages ;;
  Some (messages, command, event).

(** What a call of [parseFile] comes to: the triple it returns, the
    parse error with its position, or an exception raised by the
    extraction.  [Unfinished] is the model's own: the fuel ran out
    ([parseFile_finishes] shows that it never does). *)
Inductive result : Type :=
| Returned (messages : list Message.t) (command event : option Command.t)
| ParseError (loc : nat)
| Raised
| Unfinished.

(** The parser of [parseFile] run on the text of the file: zero or more
    top-level statements, the rest of the text left unread
    ([parseAll=False]). *)
Definition parse (text : string) : Pyparsing.outcome :=
  let fuel := S (String.length text) in
  Pyparsing.ZeroOrMore fuel (topLevelStatement fuel) (Pyparsing.start text).

(** [parseFile]: the parse, then the extraction. *)
Definition parseFile (text : string) : result :=
  match parse text with
  | Pyparsing.Matched _ toklist tokdict =>
      match extractModel (ParseResults toklist tokdict) with
      | Some (messages, command, event) => Returned messages command event
      | None => Raised
      end
  | Pyparsing.ParseException l => ParseError l
  | Pyparsing.ParseSyntaxException l => ParseError l
  | Pyparsing.OutOfFuel => Unfinished
  end.

End ProtoParser.

(** * arsdkgenswift: the Swift extension generator

    Shallow embedding of [scripts/arsdkgenswift.py]: the [Writer]
    class, [convertType] and the functions that write the Swift text
    for the messages, the command and the event that [parseFile]
    returns. *)

Module Writer.

(** The generator writes through [Writer] objects that all wrap the
    same file object.  What a run of its statements comes to is the
    text of that file when they returned, or when one of them raised
    (the file is closed with what was written by then). *)
Inductive result : Type :=
| Written (fileobj : string)
| Raised (fileobj : string).

(** A statement that may write: from the text of the file before it to
    the outcome. *)
Definition stmt : Type := string -> result.

(** [write]: [self.fileobj.write(fmt % args)].  The text is formatted
    first, so a write that raises leaves the file as it was. *)
Definition write (fmt : string) (args : list string) : stmt :=
  fun fileobj =>
    match Py.format fmt args with
    | Some text => Written (fileobj ++ text)
    | None => Raised fileobj
    end.

(** A [return] with nothing written, and an exception. *)
Definition pass : stmt := Written.
Definition raise : stmt := Raised.

(** Two statements in sequence, and a block of them. *)
Definition seq (a b : stmt) : stmt :=
  fun fileobj =>
    match a fileobj with
    | Written fileobj' => b fileobj'
    | Raised fileobj' => Raised fileobj'
    end.

Fixpoint block (statements : list stmt) : stmt :=
  match statements with
  | [] => pass
  | s :: statements' => seq s (block statements')
  end.

(** A [for] loop over a list. *)
Definition for_ {A : Type} (l : list A) (body : A -> stmt) : stmt :=
  block (map body l).

(** An expression that may raise, then the statements that use its
    value. *)
Definition try_ {A : Type} (e : option A) (k : A -> stmt) : stmt :=
  match e with
  | Some x => k x
  | None => raise
  end.

End Writer.

Module GenSwift.
Import Writer.

(** The line break and the double quote of the format strings. *)
Definition nl : string := String Pyparsing.newline EmptyString.
Definition dq : string := String Pyparsing.dquote EmptyString.

(** [convertType]: the Swift type of a protobuf type, the type itself
    when [mapper] does not have it. *)
Definition mapper : Py.dict :=
  [("google.protobuf.Empty", "SwiftProtobuf.Google_Protobuf_Empty");
   ("string", "String"); ("double", "Double"); ("float", "Float");
   ("int32", "Int32"); ("uint32", "UInt32"); ("uint64", "UInt64");
   ("sint32", "Int32"); ("sint64", "Int64"); ("fixed32", "UInt32");
   ("fixed64", "UInt64"); ("sfixed32", "Int32"); ("sfixed64", "Int64");
   ("bool", "Bool"); ("bytes", "Data")].

Definition convertType (type : string) : string :=
  if Py.mem type mapper then
    match Py.get mapper type with
    | Some swiftType => swiftType
    | None => type
    end
  else type.

(** [genDecoderListenerProtocolFunc]: [paramName[0]] raises when the
    name is empty once its underscores are gone. *)
Definition genDecoderListenerProtocolFunc (name type : string) : stmt :=
  let funcName := "on" ++ Py.replace_by "_" "" (Py.capwords name "_") in
  let paramName := Py.replace_by "_" "" (Py.capwords name "_") in
  try_ (Py.getitem0 paramName) (fun first =>
  let paramName := Py.lower first ++ Py.slice1 paramName in
  let swiftType := convertType type in
  block
    [write nl [];
     write ("    /// Processes a `%s` event." ++ nl) [swiftType];
     write ("    ///" ++ nl) [];
     write ("    /// - Parameter %s: event to process" ++ nl) [paramName];
     write ("    func %s(_ %s: %s)" ++ nl) [funcName; paramName; swiftType]]).

(** [genDecoderListenerProtocol] *)
Definition genDecoderListenerProtocol (event : Command.t) : stmt :=
  let baseName := Py.replace_by "_" "" event.(Command.commandId) in
  block
    [write ("/// Listener for `%sDecoder`." ++ nl) [baseName];
     write ("protocol %sDecoderListener: AnyObject {" ++ nl) [baseName];
     for_ event.(Command.oneOf) (fun msg =>
       genDecoderListenerProtocolFunc msg.(OneOf.id) msg.(OneOf.type));
     write ("}" ++ nl) []].

(** [genDecoderCase] *)
Definition genDecoderCase (name : string) : stmt :=
  let caseName := Py.replace_by "_" "" (Py.capwords name "_") in
  try_ (Py.getitem0 caseName) (fun first =>
  let caseName := Py.lower first ++ Py.slice1 caseName in
  let funcName := "on" ++ Py.replace_by "_" "" (Py.capwords name "_") in
  block
    [write ("            case .%s(let event):" ++ nl) [caseName];
     write ("                listener?.%s(event)" ++ nl) [funcName]]).

(** [genDecoder] *)
Definition genDecoder (event : Command.t) : stmt :=
  let baseName := Py.replace_by "_" "" event.(Command.commandId) in
  block
    [write nl [];
     write ("/// Decoder for %s events." ++ nl) [event.(Command.serviceId)];
     write ("class %sDecoder: NSObject, ArsdkFeatureGenericCallback {" ++ nl ++ nl) [baseName];
     write ("    /// Service identifier." ++ nl) [];
     write ("    static let serviceId = " ++ dq ++ "%s" ++ dq ++ ".serviceId" ++ nl ++ nl) [event.(Command.serviceId)];
     write ("    /// Listener notified when events are decoded." ++ nl) [];
     write ("    private weak var listener: %sDecoderListener?" ++ nl ++ nl) [baseName];
     write ("    /// Constructor." ++ nl) [];
     write ("    ///" ++ nl) [];
     write ("    /// - Parameter listener: listener notified when events are decoded" ++ nl) [];
     write ("    init(listener: %sDecoderListener) {" ++ nl) [baseName];
     write ("       self.listener = listener" ++ nl) [];
     write ("    }" ++ nl ++ nl) [];
     write ("    /// Decodes an event." ++ nl) [];
     write ("    ///" ++ nl) [];
     write ("    /// - Parameter event: event to decode" ++ nl) [];
     write ("    func decode(_ event: OpaquePointer) {" ++ nl) [];
     write ("       if ArsdkCommand.getFeatureId(event) == kArsdkFeatureGenericUid {" ++ nl) [];
     write ("            ArsdkFeatureGeneric.decode(event, callback: self)" ++ nl) [];
     write ("        }" ++ nl) [];
     write ("    }" ++ nl ++ nl) [];
     write ("    func onCustomEvtNonAck(serviceId: UInt, msgNum: UInt, payload: Data) {" ++ nl) [];
     write ("        processEvent(serviceId: serviceId, payload: payload, isNonAck: true)" ++ nl) [];
     write ("    }" ++ nl ++ nl) [];
     write ("    func onCustomEvt(serviceId: UInt, msgNum: UInt, payload: Data!) {" ++ nl) [];
     write ("        processEvent(serviceId: serviceId, payload: payload, isNonAck: false)" ++ nl) [];
     write ("    }" ++ nl ++ nl) [];
     write ("    /// Processes a custom event." ++ nl) [];
     write ("    ///" ++ nl) [];
     write ("    /// - Parameters:" ++ nl) [];
     write ("    ///    - serviceId: service identifier" ++ nl) [];
     write ("    ///    - payload: event payload" ++ nl) [];
     write ("    private func processEvent(serviceId: UInt, payload: Data, isNonAck: Bool) {" ++ nl) [];
     write ("        guard serviceId == %sDecoder.serviceId else {" ++ nl) [baseName];
     write ("            return" ++ nl) [];
     write ("        }" ++ nl) [];
     write ("        if let event = try? %s(serializedData: payload) {" ++ nl) [event.(Command.commandId)];
     write ("            if !isNonAck {" ++ nl) [];
     write ("                ULog.d(.tag, " ++ dq ++ "%sDecoder event \(event)" ++ dq ++ ")" ++ nl) [baseName];
     write ("            }" ++ nl) [];
     write ("            switch event.id {" ++ nl) [];
     for_ event.(Command.oneOf) (fun msg => genDecoderCase msg.(OneOf.id));
     write ("            case .none:" ++ nl) [];
     write ("                ULog.w(.tag, " ++ dq ++ "Unknown %s, skipping this event" ++ dq ++ ")" ++ nl) [event.(Command.commandId)];
     write ("            }" ++ nl) [];
     write ("        }" ++ nl) [];
     write ("    }" ++ nl) [];
     write ("}" ++ nl) []].

(** [genEncoder] *)
Definition genEncoder (command : Command.t) : stmt :=
  let baseName := Py.replace_by "_" "" command.(Command.commandId) in
  block
    [write nl [];
     write ("/// Decoder for %s commands." ++ nl) [command.(Command.serviceId)];
     write ("class %sEncoder {" ++ nl ++ nl) [baseName];
     write ("    /// Service identifier." ++ nl) [];
     write ("    static let serviceId = " ++ dq ++ "%s" ++ dq ++ ".serviceId" ++ nl ++ nl) [command.(Command.serviceId)];
     write ("    /// Gets encoder for a command." ++ nl) [];
     write ("    ///" ++ nl) [];
     write ("    /// - Parameter command: command to encode" ++ nl) [];
     write ("    /// - Returns: command encoder, or `nil`" ++ nl) [];
     write ("    static func encoder(_ command: %s.OneOf_ID) -> ArsdkCommandEncoder? {" ++ nl) [command.(Command.commandId)];
     write ("        ULog.d(.tag, " ++ dq ++ "%sEncoder command \(command)" ++ dq ++ ")" ++ nl) [baseName];
     write ("        var message = %s()" ++ nl) [command.(Command.commandId)];
     write ("        message.id = command" ++ nl) [];
     write ("        if let payload = try? message.serializedData() {" ++ nl) [];
     write ("            return ArsdkFeatureGeneric.customCmdEncoder(serviceId: serviceId," ++ nl) [];
     write ("                                                        msgNum: UInt(command.number)," ++ nl) [];
     write ("                                                        payload: payload)" ++ nl) [];
     write ("        }" ++ nl) [];
     write ("        return nil" ++ nl) [];
     write ("    }" ++ nl) [];
     write ("}" ++ nl) []].

(** [genCommandNumber] *)
Definition genCommandNumber (name number : string) : stmt :=
  let caseName := Py.replace_by "_" "" (Py.capwords name "_") in
  try_ (Py.getitem0 caseName) (fun first =>
  let caseName := Py.lower first ++ Py.slice1 caseName in
  write ("        case .%s: return %s" ++ nl) [caseName; number]).

(** [genCommandNumberExtension] *)
Definition genCommandNumberExtension (command : Command.t) : stmt :=
  block
    [write nl [];
     write ("/// Extension to get command field number." ++ nl) [];
     write ("extension %s.OneOf_ID {" ++ nl) [command.(Command.commandId)];
     write ("    var number: Int32 {" ++ nl) [];
     write ("        switch self {" ++ nl) [];
     for_ command.(Command.oneOf) (fun msg =>
       genCommandNumber msg.(OneOf.id) msg.(OneOf.number));
     write ("        }" ++ nl) [];
     write ("    }" ++ nl) [];
     write ("}" ++ nl) []].

(** [genFieldNumber] *)
Definition genFieldNumber (fieldName number : string) : stmt :=
  let fieldName := Py.replace_by "_" "" (Py.capwords fieldName "_") in
  try_ (Py.getitem0 fieldName) (fun first =>
  let fieldName := Py.lower first ++ Py.slice1 fieldName in
  write ("    static var %sFieldNumber: Int32 { %s }" ++ nl) [fieldName; number]).

(** [genFieldVar] *)
Definition genFieldVar (fieldName number : string) : stmt :=
  let fieldName := Py.replace_by "_" "" (Py.capwords fieldName "_") in
  try_ (Py.getitem0 fieldName) (fun first =>
  let fieldName := Py.lower first ++ Py.slice1 fieldName in
  block
    [write ("    var %sSelected: Bool {" ++ nl) [fieldName];
     write ("        get {" ++ nl) [];
     write ("            return selectedFields[%s] != nil" ++ nl) [number];
     write ("        }" ++ nl) [];
     write ("        set {" ++ nl) [];
     write ("            if newValue && selectedFields[%s] == nil {" ++ nl) [number];
     write ("                selectedFields[%s] = SwiftProtobuf.Google_Protobuf_Empty()" ++ nl) [number];
     write ("            } else if !newValue && selectedFields[%s] != nil {" ++ nl) [number];
     write ("                selectedFields.removeValue(forKey: %s)" ++ nl) [number];
     write ("            }" ++ nl) [];
     write ("        }" ++ nl) [];
     write ("    }" ++ nl) []]).

(** [genMessageExtension]: the fields by increasing number; a message
    without fields gets no extension. *)
Definition genMessageExtension (message : Message.t) : stmt :=
  try_ (Py.sorted (fun field => Py.int (snd field)) message.(Message.fields))
  (fun fields =>
  match fields with
  | [] => pass
  | _ :: _ =>
      let hasSelecteFields :=
        Py.mem "selected_fields" message.(Message.fields) in
      block
        [write ("extension %s {" ++ nl) [message.(Message.id)];
         for_ fields (fun '(fieldName, number) =>
           genFieldNumber fieldName number);
         for_ fields (fun '(fieldName, number) =>
           if hasSelecteFields then genFieldVar fieldName number else pass);
         write ("}" ++ nl) []]
  end).

(** [genMessagesExtensions] *)
Definition genMessagesExtensions (messages : list Message.t) : stmt :=
  for_ messages genMessageExtension.

(** [genHeader] *)
Definition genHeader : stmt :=
  block
    [write ("// Generated, do not edit !" ++ nl) [];
     write nl [];
     write ("import Foundation" ++ nl) [];
     write ("import GroundSdk" ++ nl) [];
     write ("import SwiftProtobuf" ++ nl) [];
     write nl []].

(** [extractMessagesFromProto], on the text of the file. *)
Definition extractMessagesFromProto (protoFile : string)
  : ProtoParser.result :=
  ProtoParser.parseFile protoFile.

(** The statements of the [with] block of [genMessagesExtensionsFile]. *)
Definition genMessagesExtensionsFile_body (messages : list Message.t)
    (command event : option Command.t) : stmt :=
  block
    [genHeader;
     match event with
     | Some event =>
         block [genDecoderListenerProtocol event;
                genDecoder event;
                genCommandNumberExtension event]
     | None => pass
     end;
     match command with
     | Some command =>
         block [genEncoder command;
                genCommandNumberExtension command]
     | None => pass
     end;
     genMessagesExtensions messages].

(** What a call of [genMessagesExtensionsFile] does to the output file:
    nothing when [parseFile] raises, which is before the file is
    opened; otherwise the file is opened for writing, which empties it,
    and holds what the block wrote when it is closed. *)
Inductive outcome : Type :=
| NotOpened (raised : ProtoParser.result)
| Closed (written : Writer.result).

(** [genMessagesExtensionsFile], on the text of [infile].  The output
    directory and the name of the output file are the file system's
    business and stay outside: the model is the content of the output
    file. *)
Definition genMessagesExtensionsFile (infile : string) : outcome :=
  match extractMessagesFromProto infile with
  | ProtoParser.Returned messages command event =>
      Closed (genMessagesExtensionsFile_body messages command event
                                             EmptyString)
  | raised => NotOpened raised
  end.

End GenSwift.

(** ** A flat description of what a parse tree declares

    The definitions below describe the result of the extraction without
    the accumulators: the entities a tree declares, in the order they
    are appended, and the field definitions that belong to a body. *)

Module Flat.
Import ProtoParser.

(** The loop body of [_extractMessages], for any item. *)
Definition step (baseName : string) (item : value) (st : acc)
  : option acc :=
  match item with
  | Str s => extractStrItem s st
  | ParseResults _ d => extractItem _extractMessages baseName d st
  end.

(** The list, or none when the name is absent. *)
Definition orEmpty {A : Type} (l : option (list A)) : list A :=
  match l with Some l => l | None => [] end.

(** The field definition an item is, if it is one. *)
Definition fieldOf (d : list (string * value)) : list (string * string) :=
  if Res.haskey FIELD_ID_RES d && Res.haskey FIELD_NB_RES d then
    match as_str (Res.getitem FIELD_ID_RES d),
          as_str (Res.getitem FIELD_NB_RES d) with
    | Some id, Some number => [(id, number)]
    | _, _ => []
    end
  else [].

(** The field definitions of one item: those of its [oneof] body, then
    the item itself; the body of a nested message is not looked at. *)
Definition directFieldsOf (self : value -> list (string * string))
    (d : list (string * value)) : list (string * string) :=
  ((if Res.haskey ONEOF_BODY_RES d
    then orEmpty (Res.getitem_with self ONEOF_BODY_RES d) else [])
   ++ fieldOf d)%list.

(** The field definitions directly in a body, in source order. *)
Fixpoint directFields (body : value) : list (string * string) :=
  match body with
  | Str _ => []
  | ParseResults toklist _ =>
      flat_map (fun item =>
                  match item with
                  | Str _ => []
                  | ParseResults _ d => directFieldsOf directFields d
                  end) toklist
  end.

(** A declared message or enum: the names of the messages around it
    (outermost first), its own name, and its field definitions. *)
Record entity : Type :=
  mkEntity { scope : list string;
             name : string;
             fieldDefs : list (string * string) }.

(** The entity seen from outside the message [outer] that holds it. *)
Definition inside (outer : string) (e : entity) : entity :=
  mkEntity (outer :: e.(scope)) e.(name) e.(fieldDefs).

(** The entities of one item: those of the body of a message and the
    message, an enum, those of a [oneof] body. *)
Definition entitiesOf (self : value -> list entity)
    (d : list (string * value)) : list entity :=
  ((if Res.haskey MSG_ID_RES d && Res.haskey MSG_BODY_RES d then
      match as_str (Res.getitem MSG_ID_RES d) with
      | Some n =>
          map (inside n) (orEmpty (Res.getitem_with self MSG_BODY_RES d))
          ++ [mkEntity [] n
                (orEmpty (Res.getitem_with directFields MSG_BODY_RES d))]
      | None => []
      end
    else [])
   ++ (if Res.haskey ENUM_ID_RES d then
         match as_str (Res.getitem ENUM_ID_RES d) with
         | Some n => [mkEntity [] n []]
         | None => []
         end
       else [])
   ++ (if Res.haskey ONEOF_BODY_RES d
       then orEmpty (Res.getitem_with self ONEOF_BODY_RES d) else []))%list.

(** The entities a tree declares, nested ones before the message that
    holds them. *)
Fixpoint entities (v : value) : list entity :=
  match v with
  | Str _ => []
  | ParseResults toklist _ =>
      flat_map (fun item =>
                  match item with
                  | Str _ => []
                  | ParseResults _ d => entitiesOf entities d
                  end) toklist
  end.

(** [a.b.] for the scope [[a; b]]. *)
Fixpoint scopePrefix (sc : list string) : string :=
  match sc with
  | [] => EmptyString
  | n :: sc' => n ++ "." ++ scopePrefix sc'
  end.

(** The id of an entity whose outermost scope starts with [pre]. *)
Definition entityId (pre : string) (e : entity) : string :=
  pre ++ scopePrefix e.(scope) ++ e.(name).

(** The fields map after the definitions [defs], in order. *)
Definition addFields (defs : list (string * string)) (m : Message.t)
  : Message.t :=
  fold_left (fun m def => Message.addField m (fst def) (snd def)) defs m.

(** The message the walk appends for an entity. *)
Definition toMessage (pre : string) (e : entity) : Message.t :=
  addFields e.(fieldDefs) (Message.new (entityId pre e)).

(** What ids start with: [baseName_] at top level, [parent.id.]
    inside a message. *)
Definition prefixOf (baseName : string) (parent : option Message.t)
  : string :=
  match parent with
  | None => baseName ++ "_"
  | Some p => p.(Message.id) ++ "."
  end.

(** The state after the extraction, in terms of the flat description. *)
Definition after (v : value) (messages : list Message.t)
    (baseName : string) (parent : option Message.t) : acc :=
  ((messages ++ map (toMessage (prefixOf baseName parent)) (entities v))%list,
   option_map (addFields (directFields v)) parent).

(** The same for one item with the named results [d]. *)
Definition afterItem (d : list (string * value))
    (messages : list Message.t) (baseName : string)
    (parent : option Message.t) : acc :=
  ((messages
    ++ map (toMessage (prefixOf baseName parent)) (entitiesOf entities d))%list,
   option_map (addFields (directFieldsOf directFields d)) parent).




(** An item that [extractCmd] takes as the container named [name]. *)
Definition isContainer (name : string) (item : value) : bool :=
  match item with
  | Str _ => false
  | ParseResults _ d =>
      Res.haskey MSG_ID_RES d && Res.haskey MSG_BODY_RES d
      && match Res.getitem MSG_ID_RES d with
         | Some (Str messageId) => String.eqb messageId name
         | _ => false
         end
  end.

(** Two commands with the same identifiers. *)
Definition sameIds (c c' : Command.t) : Prop :=
  Command.commandId c' = Command.commandId c
  /\ Command.serviceId c' = Command.serviceId c.


(** What is left to read at a position, and what the elements do to
    it: they never give text back, the ones that read a token take some,
    and with enough fuel for what is left they come to an end. *)
Definition remaining (cur : Pyparsing.cursor) : nat :=
  String.length (Pyparsing.rest cur).

Definition shrinks (e : Pyparsing.parser) : Prop :=
  forall cur cur' toklist tokdict,
    e cur = Pyparsing.Matched cur' toklist tokdict ->
    remaining cur' <= remaining cur.

Definition advances (e : Pyparsing.parser) : Prop :=
  forall cur cur' toklist tokdict,
    e cur = Pyparsing.Matched cur' toklist tokdict ->
    remaining cur' < remaining cur.

Definition finishes (n : nat) (e : Pyparsing.parser) : Prop :=
  forall cur, remaining cur <= n -> e cur <> Pyparsing.OutOfFuel.

(** The same for the operands of [And]. *)
Definition itemShrinks (i : Pyparsing.and_item) : Prop :=
  match i with
  | Pyparsing.Elt e => shrinks e
  | Pyparsing.ErrorStop => True
  end.

Definition itemAdvances (i : Pyparsing.and_item) : Prop :=
  match i with
  | Pyparsing.Elt e => advances e
  | Pyparsing.ErrorStop => False
  end.

Definition itemFinishes (n : nat) (i : Pyparsing.and_item) : Prop :=
  match i with
  | Pyparsing.Elt e => finishes n e
  | Pyparsing.ErrorStop => True
  end.

(** The parse results of a text that parses. *)
Definition parseResults (text : string) : option value :=
  match parse text with
  | Pyparsing.Matched _ toklist tokdict => Some (ParseResults toklist tokdict)
  | _ => None
  end.

(** The value is there and is a [str]. *)
Definition is_str (v : option value) : bool :=
  match v with
  | Some (Str _) => true
  | _ => false
  end.

(** The value is there and passes the test. *)
Definition holds (b : option bool) : bool :=
  match b with
  | Some true => true
  | _ => false
  end.

(** A [str] item on which no test of the loops of the extraction
    fires. *)
Definition plainStr (s : string) : bool :=
  negb (Py.contains PACKAGE_NAME_RES s)
  && negb (Py.contains MSG_ID_RES s && Py.contains MSG_BODY_RES s)
  && negb (Py.contains ENUM_ID_RES s)
  && negb (Py.contains ONEOF_BODY_RES s)
  && negb (Py.contains FIELD_ID_RES s && Py.contains FIELD_NB_RES s).

(** An item whose names, where the extraction reads them, are strings
    and whose bodies are plain. *)
Definition plainItem (self : value -> bool) (d : list (string * value))
  : bool :=
  (if Res.haskey PACKAGE_NAME_RES d
   then is_str (Res.getitem PACKAGE_NAME_RES d) else true)
  && (if Res.haskey FIELD_TYPE_RES d
      then is_str (Res.getitem FIELD_TYPE_RES d) else true)
  &&
  (if Res.haskey MSG_ID_RES d && Res.haskey MSG_BODY_RES d
   then is_str (Res.getitem MSG_ID_RES d)
        && holds (Res.getitem_with self MSG_BODY_RES d)
   else true)
  && (if Res.haskey ENUM_ID_RES d
      then is_str (Res.getitem ENUM_ID_RES d) else true)
  && (if Res.haskey ONEOF_BODY_RES d
      then holds (Res.getitem_with self ONEOF_BODY_RES d) else true)
  && (if Res.haskey FIELD_ID_RES d && Res.haskey FIELD_NB_RES d
      then is_str (Res.getitem FIELD_ID_RES d)
           && is_str (Res.getitem FIELD_NB_RES d)
      else true).

(** A tree in which the names, field names, types and numbers that the
    extraction reads are strings, as they are for the definitions of a
    schema (only the names that [Dict] derives from enum entries can be
    otherwise). *)
Fixpoint plain (v : value) : bool :=
  match v with
  | Str _ => true
  | ParseResults toklist _ =>
      forallb (fun item =>
                 match item with
                 | Str s => plainStr s
                 | ParseResults _ d => plainItem plain d
                 end) toklist
  end.


(** An item that [extractCmd] passes over: no exception, [cmd] kept. *)
Definition passedOver (name : string) (item : value) : bool :=
  match item with
  | Str s => negb (Py.contains MSG_ID_RES s && Py.contains MSG_BODY_RES s)
  | ParseResults _ _ => negb (isContainer name item)
  end.

(** A name without a dot. *)
Definition dotfree (s : string) : Prop :=
  ~ In "."%char (list_ascii_of_string s).



End Flat.

(** ** Descriptions used for the generator and for the edges of the
    parser *)

Module Shape.
Import Writer GenSwift.

(** A text of white space only (the empty text included). *)
Definition blank (text : string) : bool :=
  forallb Pyparsing.whiteChars (list_ascii_of_string text).

(** What is left of a text once the white space and the comments at
    its start are skipped. *)
Definition afterIgnorables (text : string) : string :=
  Pyparsing.rest (Pyparsing.preParse (Pyparsing.start text)).







(** The keywords that top-level statements start with. *)
Definition statementKeywords : list string :=
  ["message"; "extend"; "enum"; "service"; "import"; "option"; "syntax";
   "package"].

(** An item that is the group of a statement: a nested [ParseResults]
    whose first token is one of those keywords. *)
Definition isStatement (item : value) : Prop :=
  exists kw others names,
    item = ParseResults (Str kw :: others) names
    /\ In kw statementKeywords.

(** A name made of underscores only (the empty name included). *)
Definition onlyUnderscores (name : string) : bool :=
  forallb (Ascii.eqb "_") (list_ascii_of_string name).

(** A name that has some other character. *)
Definition nameable (name : string) : bool := negb (onlyUnderscores name).

(** The scalar type names that the grammar's [typespec] lists. *)
Definition scalarTypes : list string :=
  ["double"; "float"; "int32"; "int64"; "uint32"; "uint64";
   "sint32"; "sint64"; "fixed32"; "fixed64"; "sfixed32";
   "sfixed64"; "bool"; "string"; "bytes"].

(** The number of [%s] of a format string, when it is made of text,
    [%s] and [%%] only. *)
Fixpoint holes (fmt : string) : option nat :=
  match fmt with
  | EmptyString => Some 0
  | String c fmt' =>
      if Ascii.eqb c "%" then
        match fmt' with
        | String d fmt'' =>
            if Ascii.eqb d "s" then option_map S (holes fmt'')
            else if Ascii.eqb d "%" then holes fmt''
            else None
        | EmptyString => None
        end
      else holes fmt'
  end.

(** An outcome, with [fileobj] in the file before it. *)
Definition prepend (fileobj : string) (r : result) : result :=
  match r with
  | Written text => Written (fileobj ++ text)
  | Raised text => Raised (fileobj ++ text)
  end.

(** The text of the file at the end, however the run ended. *)
Definition content (r : result) : string :=
  match r with
  | Written text => text
  | Raised text => text
  end.

(** A statement that only appends, and appends the same whatever the
    file holds. *)
Definition framed (s : stmt) : Prop :=
  forall fileobj, s fileobj = prepend fileobj (s EmptyString).

(** The statement returns (on an empty file, which for a framed
    statement is on every file). *)
Definition returns (s : stmt) : bool :=
  match s EmptyString with
  | Written _ => true
  | Raised _ => false
  end.

(** What a statement writes on an empty file. *)
Definition textOf (s : stmt) : string := content (s EmptyString).

(** The number of a field, for a number that [int] converts. *)
Definition numberOf (field : string * string) : Z :=
  match Py.int (snd field) with
  | Some n => n
  | None => 0%Z
  end.

(** The numbers of all fields are ones that [int] converts. *)
Definition numbered (message : Message.t) : Prop :=
  Forall (fun field => Py.int (snd field) <> None)
         message.(Message.fields).

(** The names the generator turns into Swift names: the ids of the
    [oneof] entries of a command or event, the field names of the
    messages. *)
Definition oneOfNames (command : option Command.t) : list string :=
  match command with
  | Some command => map OneOf.id command.(Command.oneOf)
  | None => []
  end.

Definition fieldNames (messages : list Message.t) : list string :=
  flat_map (fun message => Py.keys message.(Message.fields)) messages.

(** The Swift names the generator derives from a name: the parts
    between underscores capitalised and joined, and the same with the
    first character lower-cased. *)
Definition upperCamel (name : string) : string :=
  Py.join EmptyString (map Py.capitalize (Py.split "_" name)).

Definition swiftName (name : string) : string :=
  match upperCamel name with
  | EmptyString => EmptyString
  | String c s => String (Py.lower_char c) s
  end.

(** The lines that [genHeader] writes. *)
Definition header : string :=
  "// Generated, do not edit !" ++ nl ++ nl
  ++ "import Foundation" ++ nl
  ++ "import GroundSdk" ++ nl
  ++ "import SwiftProtobuf" ++ nl ++ nl.

End Shape.

(** ** Induction over parse results *)

Section ValueInduction.

Variable P : value -> Prop.
Hypothesis HStr : forall s, P (Str s).
Hypothesis HRes : forall toklist tokdict,
    Forall P toklist -> Forall (fun kv => P (snd kv)) tokdict ->
    P (ParseResults toklist tokdict).

Fixpoint value_nested_ind (v : value) : P v :=
  match v with
  | Str s => HStr s
  | ParseResults toklist tokdict =>
      HRes toklist tokdict
        ((fix all (l : list value) : Forall P l :=
            match l with
            | [] => Forall_nil P
            | x :: l' => Forall_cons x (value_nested_ind x) (all l')
            end) toklist)
        ((fix all (l : list (string * value))
            : Forall (fun kv => P (snd kv)) l :=
            match l with
            | [] => Forall_nil _
            | kv :: l' =>
                Forall_cons kv (value_nested_ind (snd kv)) (all l')
            end) tokdict)
  end.

End ValueInduction.

(** ** Concrete parse trees and schema texts *)

Module Examples.

(** The body of [message A { enum E {..} int32 x = 1; message B {} }]. *)
Definition bodyA : value :=
  ParseResults
    [ParseResults [Str "enum"; Str "E"] [("enumId", Str "E")];
     ParseResults [Str "int32"; Str "x"; Str "1"]
       [("fieldType", Str "int32"); ("fieldId", Str "x");
        ("fieldNumber", Str "1")];
     ParseResults [Str "message"; Str "B"; ParseResults [] []]
       [("messageId", Str "B"); ("messageBody", ParseResults [] [])]]
    [].

Definition dictA : list (string * value) :=
  [("messageId", Str "A"); ("messageBody", bodyA)].

Definition itemA : value :=
  ParseResults [Str "message"; Str "A"; bodyA] dictA.

Definition field (type id number : string) : value :=
  ParseResults [Str type; Str id; Str number]
    [("fieldType", Str type); ("fieldId", Str id);
     ("fieldNumber", Str number)].

(** The body of
    [message D { int32 x = 1; oneof o { int32 x = 2; int32 y = 3; }
                 message N { int32 z = 4; } }]. *)
Definition oneofD : value :=
  ParseResults [field "int32" "x" "2"; field "int32" "y" "3"] [].

Definition bodyN : value := ParseResults [field "int32" "z" "4"] [].

Definition bodyD : value :=
  ParseResults
    [field "int32" "x" "1";
     ParseResults [Str "oneof"; Str "o"; oneofD] [("oneOfBody", oneofD)];
     ParseResults [Str "message"; Str "N"; bodyN]
       [("messageId", Str "N"); ("messageBody", bodyN)]]
    [].

Definition dictD : list (string * value) :=
  [("messageId", Str "D"); ("messageBody", bodyD)].

(** A top-level tree holding [message A] above. *)
Definition treeA : value := ParseResults [itemA] [].

Definition textA : string :=
  "message A { enum E { } int32 x = 1; message B { } }".

Definition textD : string :=
  "message D { int32 x = 1; oneof o { int32 x = 2; int32 y = 3; } message N { int32 z = 4; } }".


(** The items of [message Command { oneof id { Foo a = 1; } }] and of
    [message Command { oneof id { Bar b = 2; } }]. *)
Definition container (name type id number : string) : value :=
  let ob := ParseResults [field type id number] [] in
  let body :=
    ParseResults
      [ParseResults [Str "oneof"; Str "id"; ob] [("oneOfBody", ob)]] [] in
  ParseResults [Str "message"; Str name; body]
    [("messageId", Str name); ("messageBody", body)].

Definition bodyOf (item : value) : value :=
  match item with
  | ParseResults (_ :: _ :: body :: _) _ => body
  | _ => Str ""
  end.

Definition dictOf (item : value) : list (string * value) :=
  match item with
  | ParseResults _ d => d
  | _ => []
  end.

Definition command1 : value := container "Command" "Foo" "a" "1".
Definition command2 : value := container "Command" "Bar" "b" "2".

Definition twoCommands : string :=
  "package p; message Command { oneof id { Foo a = 1; } } message Command { oneof id { Bar b = 2; } }".

(** The schema of the round-trip scenario. *)
Definition roundTrip : string :=
  "package my.pkg; message Command { oneof id { Foo foo = 1; } } message Foo { int32 x = 1; }".




End Examples.

(** * Properties *)

Lemma getitem_with_getitem {A : Type} (f : value -> A) key d :
  Res.getitem_with f key d = option_map f (Res.getitem key d).
Proof.
  unfold Res.getitem.
  induction d as [|[k v] d IH]; simpl; [reflexivity|].
  rewrite IH.
  destruct (Res.getitem_with (fun v0 => v0) key d); simpl; [reflexivity|].
  destruct (String.eqb k key); reflexivity.
Qed.

Lemma getitem_In key d v :
  Res.getitem key d = Some v -> In (key, v) d.
Proof.
  unfold Res.getitem.
  induction d as [|[k w] d IH]; simpl; [discriminate|].
  destruct (Res.getitem_with (fun v0 => v0) key d) eqn:E.
  - intros H; injection H as <-. right. apply IH. reflexivity.
  - destruct (String.eqb k key) eqn:K; [|discriminate].
    intros H; injection H as <-. apply String.eqb_eq in K. subst. now left.
Qed.

Lemma haskey_getitem key d :
  Res.haskey key d = true <-> exists v, Res.getitem key d = Some v.
Proof.
  unfold Res.haskey. destruct (Res.getitem key d).
  - split; [eauto|reflexivity].
  - split; [discriminate|]. intros [v H]. discriminate.
Qed.

(** The loop of [_extractMessages] reaches the values stored under the
    names of the items: an induction that gives the property for those. *)
Section ValueDeepInduction.

Variable P : value -> Prop.
Hypothesis HStr : forall s, P (Str s).
Hypothesis HRes : forall toklist tokdict,
    (forall t d key body,
        In (ParseResults t d) toklist ->
        Res.getitem key d = Some body -> P body) ->
    P (ParseResults toklist tokdict).

Lemma value_deep_ind : forall v, P v.
Proof.
  assert (H : forall v,
             P v /\
             match v with
             | Str _ => True
             | ParseResults _ d =>
                 forall key body, Res.getitem key d = Some body -> P body
             end).
  { induction v as [s|toklist tokdict IHt IHd] using value_nested_ind.
    - split; [apply HStr|exact I].
    - split.
      + apply HRes. intros t d key body Hin Hget.
        rewrite Forall_forall in IHt.
        destruct (IHt _ Hin) as [_ Hd]. eapply Hd; eassumption.
      + intros key body Hget. apply getitem_In in Hget.
        rewrite Forall_forall in IHd.
        destruct (IHd _ Hget) as [Hb _]. exact Hb. }
  intros v. apply H.
Qed.

End ValueDeepInduction.

Module ProtoParserFacts.
Import ProtoParser Flat.

Lemma _extractMessages_results toklist tokdict messages baseName parent :
  _extractMessages (ParseResults toklist tokdict) messages baseName parent
  = Res.for_each (step baseName) toklist (messages, parent).
Proof.
  simpl. generalize (messages, parent) as st.
  induction toklist as [|item items IH]; intros st; simpl; [reflexivity|].
  destruct item; simpl.
  - destruct (extractStrItem s st); [apply IH|reflexivity].
  - destruct (extractItem _extractMessages baseName tokdict0 st);
      [apply IH|reflexivity].
Qed.

Lemma append_assoc (a b c : string) : ((a ++ b) ++ c = a ++ b ++ c)%string.
Proof. induction a as [|x a IH]; simpl; [reflexivity|now rewrite IH]. Qed.

Lemma append_nil_r (a : string) : (a ++ "" = a)%string.
Proof. induction a as [|x a IH]; simpl; [reflexivity|now rewrite IH]. Qed.

Lemma extractStrItem_same s st st' :
  extractStrItem s st = Some st' -> st' = st.
Proof.
  unfold extractStrItem. destruct st as [messages parent].
  repeat match goal with
         | |- context [if ?b then _ else _] => destruct b
         | |- context [match ?p with Some _ => _ | None => _ end] =>
             destruct p
         end; congruence.
Qed.

Lemma for_each_same {A S : Type} (body : A -> S -> option S) l st st' :
  (forall x s s', body x s = Some s' -> s' = s) ->
  Res.for_each body l st = Some st' -> st' = st.
Proof.
  intros Hb. revert st. induction l as [|x l IH]; simpl; intros st H.
  - congruence.
  - destruct (body x st) as [s1|] eqn:E; [|discriminate].
    apply Hb in E. subst s1. now apply IH.
Qed.

Lemma for_each_cons {A S : Type} (body : A -> S -> option S) x l st :
  Res.for_each body (x :: l) st
  = match body x st with
    | Some st1 => Res.for_each body l st1
    | None => None
    end.
Proof. reflexivity. Qed.

Lemma for_each_app {A S : Type} (body : A -> S -> option S) l1 l2 st :
  Res.for_each body (l1 ++ l2) st
  = match Res.for_each body l1 st with
    | Some st1 => Res.for_each body l2 st1
    | None => None
    end.
Proof.
  revert st. induction l1 as [|x l1 IH]; intros st; simpl; [reflexivity|].
  destruct (body x st); [apply IH|reflexivity].
Qed.

Lemma entities_results toklist tokdict :
  entities (ParseResults toklist tokdict)
  = flat_map (fun item =>
                match item with
                | Str _ => []
                | ParseResults _ d => entitiesOf entities d
                end) toklist.
Proof. reflexivity. Qed.

Lemma directFields_results toklist tokdict :
  directFields (ParseResults toklist tokdict)
  = flat_map (fun item =>
                match item with
                | Str _ => []
                | ParseResults _ d => directFieldsOf directFields d
                end) toklist.
Proof. reflexivity. Qed.

Lemma addFields_app defs1 defs2 m :
  addFields (defs1 ++ defs2) m = addFields defs2 (addFields defs1 m).
Proof. unfold addFields. apply fold_left_app. Qed.

Lemma toMessage_inside pre n e :
  toMessage ((pre ++ n) ++ ".") e = toMessage pre (inside n e).
Proof.
  unfold toMessage, entityId, inside; simpl.
  now rewrite !append_assoc.
Qed.

Lemma qualifiedId_prefixOf baseName parent n :
  qualifiedId baseName parent n = (prefixOf baseName parent ++ n)%string.
Proof.
  unfold qualifiedId, prefixOf. destruct parent; now rewrite append_assoc.
Qed.

Section Item.

Variable d : list (string * value).
Hypothesis IH : forall key body,
    Res.getitem key d = Some body ->
    forall messages baseName parent st',
      _extractMessages body messages baseName parent = Some st' ->
      st' = after body messages baseName parent.

Lemma ifMessage_after baseName messages parent st' :
  ifMessage _extractMessages baseName d (messages, parent) = Some st' ->
  st' =
  ((messages
    ++ map (toMessage (prefixOf baseName parent))
         (if Res.haskey MSG_ID_RES d && Res.haskey MSG_BODY_RES d then
            match as_str (Res.getitem MSG_ID_RES d) with
            | Some n =>
                map (inside n)
                    (orEmpty (option_map entities
                                (Res.getitem MSG_BODY_RES d)))
                ++ [mkEntity [] n
                      (orEmpty (option_map directFields
                                  (Res.getitem MSG_BODY_RES d)))]
            | None => []
            end
          else []))%list, parent).
Proof.
  unfold ifMessage.
  destruct (Res.haskey MSG_ID_RES d && Res.haskey MSG_BODY_RES d).
  - destruct (Res.getitem MSG_ID_RES d) as [[n|]|]; simpl as_str;
      try discriminate.
    cbv iota beta zeta. rewrite getitem_with_getitem.
    destruct (Res.getitem MSG_BODY_RES d) as [body|] eqn:Hb;
      simpl option_map; try discriminate.
    destruct (_extractMessages body messages
                (qualifiedId baseName parent n)
                (Some (Message.new (qualifiedId baseName parent n))))
      as [st1|] eqn:Hrec; try discriminate.
    apply (IH _ _ Hb) in Hrec. subst st1. unfold after.
    simpl option_map. cbv iota beta. simpl orEmpty. simpl prefixOf.
    rewrite qualifiedId_prefixOf.
    intros H; injection H as <-. f_equal.
    rewrite <- app_assoc. f_equal. rewrite map_app, map_map. simpl.
    f_equal. apply map_ext. intros e. apply toMessage_inside.
  - intros H; injection H as <-. simpl. now rewrite app_nil_r.
Qed.

Lemma ifEnum_after baseName messages parent st' :
  ifEnum baseName d (messages, parent) = Some st' ->
  st' =
  ((messages
    ++ map (toMessage (prefixOf baseName parent))
         (if Res.haskey ENUM_ID_RES d then
            match as_str (Res.getitem ENUM_ID_RES d) with
            | Some n => [mkEntity [] n []]
            | None => []
            end
          else []))%list, parent).
Proof.
  unfold ifEnum. destruct (Res.haskey ENUM_ID_RES d).
  - destruct (as_str (Res.getitem ENUM_ID_RES d)) as [n|];
      try discriminate.
    cbv zeta. rewrite qualifiedId_prefixOf.
    intros H; injection H as <-. reflexivity.
  - intros H; injection H as <-. simpl. now rewrite app_nil_r.
Qed.

Lemma ifOneOf_after baseName messages parent st' :
  ifOneOf _extractMessages baseName d (messages, parent) = Some st' ->
  st' =
  ((messages
    ++ map (toMessage (prefixOf baseName parent))
         (if Res.haskey ONEOF_BODY_RES d
          then orEmpty (option_map entities
                          (Res.getitem ONEOF_BODY_RES d))
          else []))%list,
   option_map
     (addFields
        (if Res.haskey ONEOF_BODY_RES d
         then orEmpty (option_map directFields
                         (Res.getitem ONEOF_BODY_RES d))
         else []))
     parent).
Proof.
  unfold ifOneOf. destruct (Res.haskey ONEOF_BODY_RES d).
  - rewrite getitem_with_getitem.
    destruct (Res.getitem ONEOF_BODY_RES d) as [body|] eqn:Hb;
      simpl option_map; try discriminate.
    destruct (_extractMessages body messages baseName parent)
      as [st1|] eqn:Hrec; try discriminate.
    apply (IH _ _ Hb) in Hrec. subst st1.
    intros H; injection H as <-. reflexivity.
  - intros H; injection H as <-. simpl. rewrite app_nil_r.
    now destruct parent.
Qed.

Lemma ifField_after messages parent st' :
  ifField d (messages, parent) = Some st' ->
  st' = (messages, option_map (addFields (fieldOf d)) parent).
Proof.
  unfold ifField, fieldOf.
  destruct (Res.haskey FIELD_ID_RES d && Res.haskey FIELD_NB_RES d).
  - destruct parent as [p|]; [|intros H; now injection H as <-].
    destruct (as_str (Res.getitem FIELD_ID_RES d)) as [i|];
      try discriminate.
    destruct (as_str (Res.getitem FIELD_NB_RES d)) as [n|];
      try discriminate.
    intros H; now injection H as <-.
  - intros H; injection H as <-. now destruct parent.
Qed.

Lemma extractItem_after baseName messages parent st' :
  extractItem _extractMessages baseName d (messages, parent) = Some st' ->
  st' = afterItem d messages baseName parent.
Proof.
  unfold extractItem.
  destruct (ifMessage _extractMessages baseName d (messages, parent))
    as [st1|] eqn:H1; try discriminate.
  apply ifMessage_after in H1. subst st1.
  match goal with
  | |- context [ifEnum baseName d (?m, ?p)] =>
      destruct (ifEnum baseName d (m, p)) as [st2|] eqn:H2;
      try discriminate; apply ifEnum_after in H2; subst st2
  end.
  match goal with
  | |- context [ifOneOf _ baseName d (?m, ?p)] =>
      destruct (ifOneOf _extractMessages baseName d (m, p))
        as [st3|] eqn:H3;
      try discriminate; apply ifOneOf_after in H3; subst st3
  end.
  intros H4. apply ifField_after in H4. subst st'.
  unfold afterItem, entitiesOf, directFieldsOf.
  rewrite !getitem_with_getitem. f_equal.
  - rewrite <- !app_assoc. f_equal. now rewrite !map_app.
  - destruct parent; simpl; [|reflexivity].
    now rewrite addFields_app.
Qed.

End Item.

Lemma addFields_id defs m :
  Message.id (addFields defs m) = Message.id m.
Proof.
  unfold addFields. revert m.
  induction defs as [|def defs IH]; intros m; simpl; [reflexivity|].
  now rewrite IH.
Qed.

Lemma prefixOf_addFields baseName defs parent :
  prefixOf baseName (option_map (addFields defs) parent)
  = prefixOf baseName parent.
Proof.
  destruct parent; simpl; [|reflexivity]. now rewrite addFields_id.
Qed.

Lemma option_map_addFields_nil (parent : option Message.t) :
  option_map (addFields []) parent = parent.
Proof. now destruct parent. Qed.

Lemma option_map_addFields_app defs1 defs2 (parent : option Message.t) :
  option_map (addFields (defs1 ++ defs2)) parent
  = option_map (addFields defs2) (option_map (addFields defs1) parent).
Proof. destruct parent; simpl; [|reflexivity]. now rewrite addFields_app. Qed.

Lemma for_each_step_after items :
  (forall t d key body,
      In (ParseResults t d) items ->
      Res.getitem key d = Some body ->
      forall messages baseName parent st',
        _extractMessages body messages baseName parent = Some st' ->
        st' = after body messages baseName parent) ->
  forall baseName messages parent st',
    Res.for_each (step baseName) items (messages, parent) = Some st' ->
    st' =
    ((messages
      ++ map (toMessage (prefixOf baseName parent))
           (flat_map (fun item =>
                        match item with
                        | Str _ => []
                        | ParseResults _ d => entitiesOf entities d
                        end) items))%list,
     option_map
       (addFields
          (flat_map (fun item =>
                       match item with
                       | Str _ => []
                       | ParseResults _ d => directFieldsOf directFields d
                       end) items)) parent).
Proof.
  induction items as [|item items IHl]; intros IH baseName messages parent st' H.
  - simpl in H. injection H as <-. simpl.
    now rewrite app_nil_r, option_map_addFields_nil.
  - simpl in H.
    destruct (step baseName item (messages, parent)) as [st1|] eqn:Hs;
      [|discriminate].
    assert (IH' : forall t d key body,
               In (ParseResults t d) items ->
               Res.getitem key d = Some body ->
               forall messages baseName parent st',
                 _extractMessages body messages baseName parent = Some st' ->
                 st' = after body messages baseName parent).
    { intros t d key body Hin. eapply IH. right. exact Hin. }
    destruct item as [s|t d]; unfold step in Hs.
    + apply extractStrItem_same in Hs. subst st1.
      apply (IHl IH') in H. exact H.
    + apply extractItem_after in Hs.
      2:{ intros key body Hget. eapply IH; [left; reflexivity|exact Hget]. }
      subst st1. unfold afterItem in H. apply (IHl IH') in H. subst st'.
      rewrite prefixOf_addFields. simpl flat_map.
      now rewrite map_app, app_assoc, option_map_addFields_app.
Qed.

(** The extraction appends to the list the messages of the entities the
    tree declares, in order, and adds to the enclosing message the
    field definitions directly in the tree. *)
Lemma _extractMessages_after v :
  forall messages baseName parent st',
    _extractMessages v messages baseName parent = Some st' ->
    st' = after v messages baseName parent.
Proof.
  induction v as [s|toklist tokdict IH] using value_deep_ind;
    intros messages baseName parent st' H.
  - simpl in H. apply for_each_same in H; [|apply extractStrItem_same].
    subst st'. unfold after. simpl.
    now rewrite app_nil_r, option_map_addFields_nil.
  - rewrite _extractMessages_results in H. unfold after.
    rewrite entities_results, directFields_results.
    now apply for_each_step_after.
Qed.



Lemma prefix_append (a b : string) : String.prefix a (a ++ b) = true.
Proof.
  induction a as [|x a IH]; simpl; [now destruct b|].
  destruct (ascii_dec x x) as [_|N]; [exact IH|now elim N].
Qed.

Lemma entityId_prefix pre e : String.prefix pre (entityId pre e) = true.
Proof. unfold entityId. apply prefix_append. Qed.

(** *** The walk returns on plain trees *)








(** *** The fields map *)

Lemma get_setitem d k v k' :
  Py.get (Py.setitem d k v) k'
  = if String.eqb k k' then Some v else Py.get d k'.
Proof.
  induction d as [|[k0 v0] d IH]; simpl.
  - reflexivity.
  - destruct (String.eqb k0 k) eqn:E0; simpl.
    + apply String.eqb_eq in E0. subst k0.
      now destruct (String.eqb k k').
    + destruct (String.eqb k0 k') eqn:E1; [|exact IH].
      apply String.eqb_eq in E1. subst k'.
      rewrite String.eqb_sym in E0. now rewrite E0.
Qed.











(** *** Ids from names *)







Lemma extractMessages_entities v baseName messages :
  extractMessages v baseName = Some messages ->
  messages = map (toMessage (baseName ++ "_")) (entities v).
Proof.
  unfold extractMessages.
  destruct (_extractMessages v [] baseName None) as [[ms p]|] eqn:H;
    [|discriminate].
  apply _extractMessages_after in H. unfold after in H.
  injection H as -> _. intros E. now injection E as <-.
Qed.


(** *** Type resolution *)

Lemma length_append (a b : string) :
  String.length (a ++ b) = String.length a + String.length b.
Proof. induction a as [|c a IH]; simpl; [reflexivity|now rewrite IH]. Qed.








(** *** Containers *)

Lemma extractCmdItem_passedOver name packageName baseName messages item cmd :
  passedOver name item = true ->
  extractCmdItem name packageName baseName messages item cmd = Some cmd.
Proof.
  destruct item as [s|t d]; simpl.
  - intros H. apply negb_true_iff in H. now rewrite H.
  - intros H. apply negb_true_iff in H.
    destruct (Res.haskey MSG_ID_RES d && Res.haskey MSG_BODY_RES d);
      simpl in H; [|reflexivity].
    destruct (Res.getitem MSG_ID_RES d) as [[messageId|]|]; try reflexivity.
    now rewrite H.
Qed.

(** C3. When several top-level items define a message with the role
    name, [extractCmd] returns the command built from the last of them,
    by overwriting: the items before it (other containers of that name
    included) only decide whether an exception was raised on the way,
    they leave no trace in the result, and the duplicate is no error. *)
Theorem extractCmd_last_container_wins
    name before t d rest d0 body packageName baseName messages :
  Res.getitem MSG_ID_RES d = Some (Str name) ->
  Res.getitem MSG_BODY_RES d = Some body ->
  Forall (fun item => passedOver name item = true) rest ->
  extractCmd name (ParseResults (before ++ ParseResults t d :: rest) d0)
             packageName baseName messages
  = match extractCmd name (ParseResults before d0)
                     packageName baseName messages with
    | Some _ =>
        option_map Some
          (extractCmdContent body
             (Command.new (baseName ++ "_" ++ name)
                          (packageName ++ "." ++ name)) messages)
    | None => None
    end.
Proof.
  intros Hid Hbody Hrest. unfold extractCmd. simpl Res.iter.
  rewrite for_each_app.
  destruct (Res.for_each _ before None) as [c0|]; [|reflexivity].
  rewrite for_each_cons. unfold extractCmdItem at 1.
  assert (Hk : Res.haskey MSG_ID_RES d && Res.haskey MSG_BODY_RES d = true).
  { unfold Res.haskey. now rewrite Hid, Hbody. }
  rewrite Hk, Hid, Hbody, String.eqb_refl.
  destruct (extractCmdContent body _ messages) as [cmd|]; [|reflexivity].
  simpl option_map. generalize (Some cmd) as c.
  induction Hrest as [|item rest Hi _ IH]; intros c.
  - reflexivity.
  - rewrite for_each_cons, extractCmdItem_passedOver by exact Hi. apply IH.
Qed.

Lemma extractCmd_last_container_wins_witness :
  extractCmd "Command"
    (ParseResults ([Examples.command1] ++ Examples.command2 :: []) [])
    "p" "P" []
  = Some (Some (Command.mk "P_Command" "p.Command" [OneOf.mk "b" "Bar" "2"])).
Proof.
  exact (extractCmd_last_container_wins
           "Command" [Examples.command1]
           [Str "message"; Str "Command"; Examples.bodyOf Examples.command2]
           (Examples.dictOf Examples.command2) [] []
           (Examples.bodyOf Examples.command2) "p" "P" []
           eq_refl eq_refl (Forall_nil _)).
Defined.

(** The same on a schema text: the second [Command] is the one
    returned. *)
Example parseFile_two_commands :
  parseFile Examples.twoCommands
  = Returned
      [Message.mk "P_Command" [("a", "1")];
       Message.mk "P_Command" [("b", "2")]]
      (Some (Command.mk "P_Command" "p.Command" [OneOf.mk "b" "Bar" "2"]))
      None.
Proof. vm_compute. reflexivity. Qed.

(** *** The identifiers of a container *)

Lemma for_each_preserves {A S : Type} (body : A -> S -> option S)
    (P : S -> Prop) l :
  (forall x s s', body x s = Some s' -> P s -> P s') ->
  forall st st', P st -> Res.for_each body l st = Some st' -> P st'.
Proof.
  intros Hb. induction l as [|x l IH]; intros st st' Hst H.
  - simpl in H. congruence.
  - rewrite for_each_cons in H.
    destruct (body x st) as [s1|] eqn:E; [|discriminate].
    eapply IH; [|exact H]. eapply Hb; eassumption.
Qed.

Lemma extractCmdContent_ids body cmd messages cmd' :
  extractCmdContent body cmd messages = Some cmd' -> sameIds cmd cmd'.
Proof.
  unfold extractCmdContent.
  apply for_each_preserves with (P := sameIds cmd); [|now split].
  intros item c c' H Hc. destruct item as [s|t d]; simpl in H.
  - destruct (Py.contains ONEOF_BODY_RES s); congruence.
  - destruct (Res.haskey ONEOF_BODY_RES d); [|congruence].
    destruct (Res.getitem ONEOF_BODY_RES d) as [ob|]; [|discriminate].
    revert H. apply for_each_preserves; [|exact Hc].
    clear. intros item c1 c2 H Hc. destruct item as [s|t d]; simpl in H.
    + destruct (_ && _); congruence.
    + destruct (_ && _); [|congruence].
      destruct (match Res.getitem FIELD_TYPE_RES d with
                | Some (Str s) => Some s
                | Some (ParseResults (Str first :: _) _) => Some first
                | _ => None
                end); [|discriminate].
      destruct (as_str (Res.getitem FIELD_ID_RES d)); [|discriminate].
      destruct (as_str (Res.getitem FIELD_NB_RES d)); [|discriminate].
      injection H as <-. exact Hc.
Qed.

Lemma extractCmd_ids name v packageName baseName messages cmd :
  extractCmd name v packageName baseName messages = Some (Some cmd) ->
  Command.commandId cmd = baseName ++ "_" ++ name
  /\ Command.serviceId cmd = packageName ++ "." ++ name.
Proof.
  unfold extractCmd. intros H.
  refine (for_each_preserves _
            (fun c => forall cmd, c = Some cmd ->
               Command.commandId cmd = baseName ++ "_" ++ name
               /\ Command.serviceId cmd = packageName ++ "." ++ name)
            _ _ None (Some cmd) _ H cmd eq_refl); [|discriminate].
  clear. intros item c c' H Hc.
  assert (Hkeep : Some c = Some c' ->
                  forall cmd, c' = Some cmd ->
                    Command.commandId cmd = baseName ++ "_" ++ name
                    /\ Command.serviceId cmd = packageName ++ "." ++ name).
  { intros E. injection E as <-. exact Hc. }
  destruct item as [s|t d]; simpl in H.
  - destruct (_ && _); [discriminate|exact (Hkeep H)].
  - destruct (_ && _); [|exact (Hkeep H)].
    destruct (Res.getitem MSG_ID_RES d) as [[messageId|]|];
      try exact (Hkeep H).
    destruct (String.eqb messageId name) eqn:E; [|exact (Hkeep H)].
    apply String.eqb_eq in E. subst messageId.
    destruct (Res.getitem MSG_BODY_RES d) as [body|]; [|discriminate].
    destruct (extractCmdContent body _ messages) as [cmd1|] eqn:C;
      [|discriminate].
    injection H as <-. intros cmd E. injection E as <-.
    apply extractCmdContent_ids in C. destruct C as [C1 C2].
    simpl in C1, C2. now split.
Qed.


(** *** The extraction returns on plain trees *)










(** The example trees are plain. *)
Example examples_are_plain :
  plain Examples.treeA = true
  /\ plain (ParseResults
              [ParseResults [Str "message"; Str "D"; Examples.bodyD]
                 Examples.dictD] []) = true
  /\ plain (ParseResults
              [Examples.command1; Examples.container "Event" "Foo" "e" "1"]
              []) = true.
Proof. repeat split; vm_compute; reflexivity. Qed.

(** *** The messages of a message definition *)







(** What the example above comes to: [x] is defined twice, the second
    number stays, and two entries are left of three definitions. *)
Example duplicate_field_on_text :
  parseFile Examples.textD
  = Returned [Message.mk "_D.N" [("z", "4")];
              Message.mk "_D" [("x", "2"); ("y", "3")]] None None
  /\ directFields Examples.bodyD = [("x", "1"); ("x", "2"); ("y", "3")].
Proof. split; vm_compute; reflexivity. Qed.

(** *** Ids are distinct for distinct names *)



(** *** The root name without a package *)



(** The same on a schema text without a package directive. *)
Example parseFile_no_package :
  parseFile "message Command { oneof id { Foo a = 1; } } message Foo { }"
  = Returned [Message.mk "_Command" [("a", "1")]; Message.mk "_Foo" []]
      (Some (Command.mk "_Command" ".Command" [OneOf.mk "a" "_Foo" "1"]))
      None.
Proof. vm_compute. reflexivity. Qed.

(** *** The parse comes to an end

    The fuel that [parse] hands to the grammar is enough for every text:
    [parseFile] returns a model, raises the parse error or raises in the
    extraction, and never stops for lack of fuel. *)

Lemma span_length f s :
  String.length (fst (Pyparsing.span f s))
  + String.length (snd (Pyparsing.span f s))
  = String.length s.
Proof.
  induction s as [|c s IH]; simpl; [reflexivity|].
  destruct (f c); simpl; [|reflexivity].
  destruct (Pyparsing.span f s) as [m r]. simpl in *. lia.
Qed.

Lemma strip_prefix_length p s r :
  Pyparsing.strip_prefix p s = Some r ->
  String.length s = String.length p + String.length r.
Proof.
  revert s. induction p as [|a p IH]; intros s H; simpl in H.
  - injection H as <-. reflexivity.
  - destruct s as [|b s]; [discriminate|].
    destruct (Ascii.eqb a b); [|discriminate].
    apply IH in H. simpl. lia.
Qed.

Lemma block_comment_end_length s m r :
  Pyparsing.block_comment_end s = Some (m, r) ->
  String.length r <= String.length s.
Proof.
  revert m. induction s as [|c s IH]; intros m H; [discriminate|].
  cbn [Pyparsing.block_comment_end] in H.
  destruct (Pyparsing.strip_prefix "*/" (String c s)) as [r0|] eqn:E.
  - injection H as _ <-. apply strip_prefix_length in E. lia.
  - destruct (Pyparsing.block_comment_end s) as [[m1 r1]|]; [|discriminate].
    injection H as _ <-. specialize (IH m1 eq_refl). simpl. lia.
Qed.

Lemma line_comment_body_length escaped s :
  String.length (snd (Pyparsing.line_comment_body escaped s))
  <= String.length s.
Proof.
  revert escaped. induction s as [|c s IH]; intros escaped; simpl; [lia|].
  destruct (Ascii.eqb c Pyparsing.newline && negb escaped); simpl; [lia|].
  specialize (IH (Ascii.eqb c Pyparsing.backslash)).
  destruct (Pyparsing.line_comment_body _ s) as [m r]. simpl in *. lia.
Qed.

Lemma javaStyleComment_length s m r :
  Pyparsing.javaStyleComment s = Some (m, r) ->
  String.length r < String.length s.
Proof.
  unfold Pyparsing.javaStyleComment.
  destruct (Pyparsing.strip_prefix "/*" s) as [s1|] eqn:E1.
  - destruct (Pyparsing.block_comment_end s1) as [[m1 r1]|] eqn:E2;
      [|discriminate].
    intros H. injection H as _ <-.
    apply strip_prefix_length in E1. apply block_comment_end_length in E2.
    simpl in E1. lia.
  - destruct (Pyparsing.strip_prefix "//" s) as [s2|] eqn:E2; [|discriminate].
    pose proof (line_comment_body_length false s2) as L.
    destruct (Pyparsing.line_comment_body false s2) as [m2 r2].
    intros H. injection H as _ <-.
    apply strip_prefix_length in E2. simpl in *. lia.
Qed.

Lemma skipWhitespace_remaining cur :
  remaining (Pyparsing.skipWhitespace cur) <= remaining cur.
Proof.
  unfold Pyparsing.skipWhitespace, remaining.
  pose proof (span_length Pyparsing.whiteChars (Pyparsing.rest cur)) as L.
  destruct (Pyparsing.span _ _) as [m r]. simpl in *. lia.
Qed.

Lemma skipIgnorables_remaining fuel cur :
  remaining (Pyparsing.skipIgnorables fuel cur) <= remaining cur.
Proof.
  revert cur. induction fuel as [|fuel IH]; intros cur; simpl.
  - apply skipWhitespace_remaining.
  - pose proof (skipWhitespace_remaining cur) as W.
    destruct (Pyparsing.javaStyleComment _) as [[m r]|] eqn:E; [|exact W].
    apply javaStyleComment_length in E.
    specialize (IH (Pyparsing.consume (Pyparsing.skipWhitespace cur) m r)).
    unfold remaining in *. simpl in *. lia.
Qed.

Lemma span_stops f s :
  match snd (Pyparsing.span f s) with
  | String a _ => f a = false
  | EmptyString => True
  end.
Proof.
  induction s as [|c s IH]; simpl; [exact I|].
  destruct (f c) eqn:E; simpl; [|exact E].
  destruct (Pyparsing.span f s). exact IH.
Qed.

(** [preParse] leaves no white space and no comment to skip: the fuel
    it takes, the length of the text, is enough. *)
Lemma preParse_done cur :
  Pyparsing.javaStyleComment (Pyparsing.rest (Pyparsing.preParse cur)) = None
  /\ match Pyparsing.rest (Pyparsing.preParse cur) with
     | String a _ => Pyparsing.whiteChars a = false
     | EmptyString => True
     end.
Proof.
  unfold Pyparsing.preParse.
  assert (H : forall fuel cur,
             remaining cur <= fuel ->
             Pyparsing.javaStyleComment
               (Pyparsing.rest (Pyparsing.skipIgnorables fuel cur)) = None
             /\ match Pyparsing.rest (Pyparsing.skipIgnorables fuel cur) with
                | String a _ => Pyparsing.whiteChars a = false
                | EmptyString => True
                end).
  { clear cur. induction fuel as [|fuel IH]; intros cur Hc.
    - simpl. pose proof (skipWhitespace_remaining cur) as W.
      unfold remaining in *.
      destruct (Pyparsing.rest (Pyparsing.skipWhitespace cur));
        [now split|simpl in W; lia].
    - cbn [Pyparsing.skipIgnorables].
      pose proof (skipWhitespace_remaining cur) as W.
      destruct (Pyparsing.javaStyleComment
                  (Pyparsing.rest (Pyparsing.skipWhitespace cur)))
        as [[m r]|] eqn:E.
      + apply IH. apply javaStyleComment_length in E.
        unfold remaining in *. simpl. lia.
      + split; [exact E|].
        unfold Pyparsing.skipWhitespace.
        pose proof (span_stops Pyparsing.whiteChars (Pyparsing.rest cur)) as S.
        destruct (Pyparsing.span _ _) as [m r]. exact S. }
  apply H. unfold remaining. lia.
Qed.

Lemma preParse_remaining cur :
  remaining (Pyparsing.preParse cur) <= remaining cur.
Proof. apply skipIgnorables_remaining. Qed.

(** A token that takes at least one character advances. *)
Lemma token_advances scan :
  (forall cur m r, scan cur = Some (m, r) ->
     String.length r < String.length (Pyparsing.rest cur)) ->
  advances (Pyparsing.token scan).
Proof.
  intros Hs cur cur' toklist tokdict. unfold Pyparsing.token.
  pose proof (preParse_remaining cur) as P.
  destruct (scan (Pyparsing.preParse cur)) as [[m r]|] eqn:E; [|discriminate].
  apply Hs in E. intros H. injection H as <- _ _.
  unfold remaining in *. simpl. lia.
Qed.

Lemma token_finishes n scan : finishes n (Pyparsing.token scan).
Proof.
  intros cur _. unfold Pyparsing.token.
  destruct (scan (Pyparsing.preParse cur)) as [[m r]|]; discriminate.
Qed.

Lemma Word_advances initChars bodyChars :
  advances (Pyparsing.Word initChars bodyChars).
Proof.
  apply token_advances. intros cur m r.
  destruct (Pyparsing.rest cur) as [|c s]; [discriminate|].
  destruct (initChars c); [|discriminate].
  pose proof (span_length bodyChars s) as L.
  destruct (Pyparsing.span bodyChars s) as [m1 r1].
  intros H. injection H as _ <-. simpl in *. lia.
Qed.

Lemma Regex_integer_advances : advances Pyparsing.Regex_integer.
Proof.
  apply token_advances. intros cur m r.
  set (sign_s := match Pyparsing.rest cur with
                 | String c s' =>
                     if Pyparsing.in_chars "+-" c
                     then (String c EmptyString, s')
                     else (EmptyString, Pyparsing.rest cur)
                 | EmptyString => (EmptyString, EmptyString)
                 end).
  assert (Hl : String.length (snd sign_s)
               <= String.length (Pyparsing.rest cur)).
  { unfold sign_s. destruct (Pyparsing.rest cur) as [|c s']; simpl; [lia|].
    destruct (Pyparsing.in_chars "+-" c); simpl; lia. }
  destruct sign_s as [sign s]. simpl in Hl.
  pose proof (span_length Pyparsing.nums s) as L.
  destruct (Pyparsing.span Pyparsing.nums s) as [[|d digits] r1];
    [discriminate|].
  intros H. injection H as _ <-. simpl in *. lia.
Qed.

Lemma Literal_advances lit :
  lit <> EmptyString -> advances (Pyparsing.Literal lit).
Proof.
  intros Hne. apply token_advances. intros cur m r.
  destruct (Pyparsing.strip_prefix lit (Pyparsing.rest cur)) as [r1|] eqn:E;
    [|discriminate].
  intros H. injection H as _ <-. apply strip_prefix_length in E.
  destruct lit; [now elim Hne|]. simpl in E. lia.
Qed.

Lemma Keyword_advances kw :
  kw <> EmptyString -> advances (Pyparsing.Keyword kw).
Proof.
  intros Hne. apply token_advances. intros cur m r.
  destruct (Pyparsing.strip_prefix kw (Pyparsing.rest cur)) as [r1|] eqn:E;
    [|discriminate].
  cbv zeta.
  match goal with
  | |- context [if ?b then _ else _] => destruct b; [|discriminate]
  end.
  intros H. injection H as _ <-. apply strip_prefix_length in E.
  destruct kw; [now elim Hne|]. simpl in E. lia.
Qed.

Lemma oneOf_advances literals :
  Forall (fun lit => lit <> EmptyString) literals ->
  advances (Pyparsing.oneOf literals).
Proof.
  intros Hne. apply token_advances. intros cur m r.
  induction Hne as [|lit literals Hl _ IH]; [discriminate|].
  destruct (Pyparsing.strip_prefix lit (Pyparsing.rest cur)) as [r1|] eqn:E;
    [|exact IH].
  intros H. injection H as _ <-. apply strip_prefix_length in E.
  destruct lit; [now elim Hl|]. simpl in E. lia.
Qed.

Lemma quoted_body_length fuel q s :
  String.length (snd (Pyparsing.quoted_body fuel q s)) <= String.length s.
Proof.
  revert s. induction fuel as [|fuel IH]; intros s; [simpl; lia|].
  destruct s as [|c s1]; [simpl; lia|].
  cbn [Pyparsing.quoted_body].
  destruct (Ascii.eqb c q).
  - destruct s1 as [|c2 s2]; [simpl; lia|].
    destruct (Ascii.eqb c2 q); [|simpl; lia].
    specialize (IH s2). destruct (Pyparsing.quoted_body fuel q s2).
    simpl in *. lia.
  - destruct (Ascii.eqb c Pyparsing.backslash).
    + destruct s1 as [|d s2]; [simpl; lia|].
      destruct (Ascii.eqb d "x").
      * pose proof (span_length Pyparsing.hexnums s2) as L.
        destruct (Pyparsing.span Pyparsing.hexnums s2) as [[|h hs] r0];
          [simpl; lia|].
        specialize (IH r0). destruct (Pyparsing.quoted_body fuel q r0).
        simpl in *. lia.
      * specialize (IH s2). destruct (Pyparsing.quoted_body fuel q s2).
        simpl in *. lia.
    + destruct (Pyparsing.in_chars _ c); [simpl; lia|].
      specialize (IH s1). destruct (Pyparsing.quoted_body fuel q s1).
      simpl in *. lia.
Qed.

(** The fuel [quoted] takes, the length of the text, is enough: more
    fuel reads the same. *)
Lemma quoted_body_fuel q fuel1 :
  forall fuel2 s,
    String.length s <= fuel1 -> String.length s <= fuel2 ->
    Pyparsing.quoted_body fuel1 q s = Pyparsing.quoted_body fuel2 q s.
Proof.
  induction fuel1 as [|fuel1 IH]; intros fuel2 s H1 H2.
  - destruct s; [|simpl in H1; lia]. now destruct fuel2.
  - destruct s as [|c s1]; [now destruct fuel2|].
    destruct fuel2 as [|fuel2]; [simpl in H2; lia|].
    simpl in H1, H2. cbn [Pyparsing.quoted_body].
    destruct (Ascii.eqb c q).
    + destruct s1 as [|c2 s2]; [reflexivity|].
      destruct (Ascii.eqb c2 q); [|reflexivity].
      rewrite (IH fuel2 s2) by (simpl in *; lia). reflexivity.
    + destruct (Ascii.eqb c Pyparsing.backslash).
      * destruct s1 as [|d s2]; [reflexivity|].
        destruct (Ascii.eqb d "x").
        -- pose proof (span_length Pyparsing.hexnums s2) as L.
           destruct (Pyparsing.span Pyparsing.hexnums s2) as [[|h hs] r0];
             [reflexivity|].
           rewrite (IH fuel2 r0) by (simpl in *; lia). reflexivity.
        -- rewrite (IH fuel2 s2) by (simpl in *; lia). reflexivity.
      * destruct (Pyparsing.in_chars _ c); [reflexivity|].
        rewrite (IH fuel2 s1) by lia. reflexivity.
Qed.

Lemma quoted_length q s m r :
  Pyparsing.quoted q s = Some (m, r) -> String.length r < String.length s.
Proof.
  unfold Pyparsing.quoted. destruct s as [|c s1]; [discriminate|].
  destruct (Ascii.eqb c q); [|discriminate].
  pose proof (quoted_body_length (String.length s1) q s1) as L.
  destruct (Pyparsing.quoted_body (String.length s1) q s1) as [m1 r1].
  destruct r1 as [|c' r']; [discriminate|].
  destruct (Ascii.eqb c' q); [|discriminate].
  intros H. injection H as _ <-. simpl in *. lia.
Qed.

Lemma quotedString_advances : advances Pyparsing.quotedString.
Proof.
  apply token_advances. intros cur m r.
  destruct (Pyparsing.quoted Pyparsing.dquote (Pyparsing.rest cur))
    as [[m1 r1]|] eqn:E.
  - intros H. injection H as _ <-. now apply quoted_length in E.
  - apply quoted_length.
Qed.

Lemma advances_shrinks e : advances e -> shrinks e.
Proof.
  intros H cur cur' toklist tokdict E. apply H in E. lia.
Qed.

Lemma finishes_le n n' e : finishes n e -> n' <= n -> finishes n' e.
Proof. intros H Hle cur Hc. apply H. lia. Qed.

(** Elements that only reshape the result of another one. *)
Ltac reshaping e :=
  let cur := fresh "cur" in
  let E := fresh "E" in
  intros cur ? ? ? E;
  cbv beta delta [Pyparsing.Suppress Pyparsing.named Pyparsing.Group
                  Pyparsing.Dict] in E;
  destruct (e cur) eqn:?; try discriminate;
  injection E as <- _ _; eauto.

Lemma Suppress_shrinks e : shrinks e -> shrinks (Pyparsing.Suppress e).
Proof. intros H. reshaping e. Qed.
Lemma Suppress_advances e : advances e -> advances (Pyparsing.Suppress e).
Proof. intros H. reshaping e. Qed.
Lemma Suppress_finishes n e :
  finishes n e -> finishes n (Pyparsing.Suppress e).
Proof.
  intros H cur Hc. unfold Pyparsing.Suppress.
  specialize (H cur Hc). destruct (e cur); congruence.
Qed.

Lemma named_shrinks e name : shrinks e -> shrinks (Pyparsing.named e name).
Proof. intros H. reshaping e. Qed.
Lemma named_advances e name :
  advances e -> advances (Pyparsing.named e name).
Proof. intros H. reshaping e. Qed.
Lemma named_finishes n e name :
  finishes n e -> finishes n (Pyparsing.named e name).
Proof.
  intros H cur Hc. unfold Pyparsing.named.
  specialize (H cur Hc). destruct (e cur); congruence.
Qed.

Lemma Group_shrinks e : shrinks e -> shrinks (Pyparsing.Group e).
Proof. intros H. reshaping e. Qed.
Lemma Group_advances e : advances e -> advances (Pyparsing.Group e).
Proof. intros H. reshaping e. Qed.
Lemma Group_finishes n e : finishes n e -> finishes n (Pyparsing.Group e).
Proof.
  intros H cur Hc. unfold Pyparsing.Group.
  specialize (H cur Hc). destruct (e cur); congruence.
Qed.

Lemma Dict_shrinks e : shrinks e -> shrinks (Pyparsing.Dict e).
Proof. intros H. reshaping e. Qed.
Lemma Dict_finishes n e : finishes n e -> finishes n (Pyparsing.Dict e).
Proof.
  intros H cur Hc. unfold Pyparsing.Dict.
  specialize (H cur Hc). destruct (e cur); congruence.
Qed.

Lemma Optional_shrinks e : shrinks e -> shrinks (Pyparsing.Optional e).
Proof.
  intros H cur cur' toklist tokdict E. unfold Pyparsing.Optional in E.
  destruct (e cur) eqn:Ee; try discriminate.
  - injection E as <- _ _. eauto.
  - injection E as <- _ _. lia.
Qed.

Lemma Optional_finishes n e :
  finishes n e -> finishes n (Pyparsing.Optional e).
Proof.
  intros H cur Hc. unfold Pyparsing.Optional.
  specialize (H cur Hc). destruct (e cur); congruence.
Qed.

Lemma MatchFirst_from_matched (P : Pyparsing.cursor -> Pyparsing.cursor -> Prop)
    exprs :
  Forall (fun e => forall cur cur' toklist tokdict,
            e cur = Pyparsing.Matched cur' toklist tokdict -> P cur cur')
         exprs ->
  forall cur best cur' toklist tokdict,
    Pyparsing.MatchFirst_from exprs cur best
    = Pyparsing.Matched cur' toklist tokdict ->
    P cur cur'.
Proof.
  induction 1 as [|e exprs He _ IH]; intros cur best cur' toklist tokdict E;
    simpl in E.
  - destruct best; discriminate.
  - destruct (e cur) eqn:Ee; try discriminate.
    + injection E as <- _ _. eauto.
    + eapply IH. exact E.
Qed.

Lemma MatchFirst_shrinks exprs :
  Forall shrinks exprs -> shrinks (Pyparsing.MatchFirst exprs).
Proof.
  intros H cur cur' toklist tokdict E.
  exact (MatchFirst_from_matched (fun c c' => remaining c' <= remaining c)
           exprs H cur None cur' toklist tokdict E).
Qed.

Lemma MatchFirst_advances exprs :
  Forall advances exprs -> advances (Pyparsing.MatchFirst exprs).
Proof.
  intros H cur cur' toklist tokdict E.
  exact (MatchFirst_from_matched (fun c c' => remaining c' < remaining c)
           exprs H cur None cur' toklist tokdict E).
Qed.

Lemma MatchFirst_finishes n exprs :
  Forall (finishes n) exprs -> finishes n (Pyparsing.MatchFirst exprs).
Proof.
  intros H cur Hc. unfold Pyparsing.MatchFirst. generalize (@None nat).
  induction H as [|e exprs He _ IH]; intros best; simpl.
  - destruct best; discriminate.
  - specialize (He cur Hc). destruct (e cur); solve [congruence | apply IH].
Qed.

Lemma And_from_shrinks exprs :
  Forall itemShrinks exprs ->
  forall errorStop cur toklist tokdict cur' toklist' tokdict',
    Pyparsing.And_from errorStop exprs cur toklist tokdict
    = Pyparsing.Matched cur' toklist' tokdict' ->
    remaining cur' <= remaining cur.
Proof.
  induction 1 as [|i exprs Hi _ IH];
    intros errorStop cur toklist tokdict cur' toklist' tokdict' E;
    simpl in E.
  - injection E as <- _ _. lia.
  - destruct i as [e|]; [|eapply IH; exact E].
    destruct (e cur) as [cur1 t1 n1| | |] eqn:Ee; try discriminate.
    + apply Hi in Ee. apply IH in E. lia.
    + destruct errorStop; discriminate.
Qed.

Lemma And_from_advances exprs :
  Forall itemShrinks exprs -> Exists itemAdvances exprs ->
  forall errorStop cur toklist tokdict cur' toklist' tokdict',
    Pyparsing.And_from errorStop exprs cur toklist tokdict
    = Pyparsing.Matched cur' toklist' tokdict' ->
    remaining cur' < remaining cur.
Proof.
  intros Hs Ha. induction Ha as [i exprs Hi|i exprs _ IH];
    intros errorStop cur toklist tokdict cur' toklist' tokdict' E;
    simpl in E; inversion Hs as [|? ? Hsi Hse]; subst.
  - destruct i as [e|]; [|now elim Hi].
    destruct (e cur) as [cur1 t1 n1| | |] eqn:Ee; try discriminate.
    + apply Hi in Ee. apply (And_from_shrinks _ Hse) in E. lia.
    + destruct errorStop; discriminate.
  - destruct i as [e|]; [|eapply IH; [exact Hse|exact E]].
    destruct (e cur) as [cur1 t1 n1| | |] eqn:Ee; try discriminate.
    + apply Hsi in Ee. apply (IH Hse) in E. lia.
    + destruct errorStop; discriminate.
Qed.

Lemma And_shrinks exprs :
  Forall itemShrinks exprs -> shrinks (Pyparsing.And exprs).
Proof.
  intros H cur cur' toklist tokdict E.
  eapply And_from_shrinks; [exact H|exact E].
Qed.

Lemma And_advances exprs :
  Forall itemShrinks exprs -> Exists itemAdvances exprs ->
  advances (Pyparsing.And exprs).
Proof.
  intros H Ha cur cur' toklist tokdict E.
  eapply And_from_advances; [exact H|exact Ha|exact E].
Qed.

Lemma And_from_finishes n exprs :
  Forall itemShrinks exprs -> Forall (itemFinishes n) exprs ->
  forall errorStop cur toklist tokdict,
    remaining cur <= n ->
    Pyparsing.And_from errorStop exprs cur toklist tokdict
    <> Pyparsing.OutOfFuel.
Proof.
  intros Hs. induction Hs as [|i exprs Hi _ IH]; intros Hf
    errorStop cur toklist tokdict Hc; simpl; [discriminate|].
  inversion Hf as [|? ? Hfi Hfe]; subst.
  destruct i as [e|]; [|now apply IH].
  specialize (Hfi cur Hc).
  destruct (e cur) as [cur1 t1 n1| | |] eqn:Ee; try congruence.
  - apply Hi in Ee. apply IH; [exact Hfe|lia].
  - destruct errorStop; discriminate.
Qed.

Lemma And_finishes n exprs :
  Forall itemShrinks exprs -> Forall (itemFinishes n) exprs ->
  finishes n (Pyparsing.And exprs).
Proof.
  intros Hs Hf cur Hc. now apply And_from_finishes with (n := n).
Qed.

(** An [And] whose first element advances needs the others to finish
    on less text only: this is what lets the message body, which is
    reached after the keyword, go one level down. *)
Lemma And_finishes_after n e exprs :
  advances e -> finishes n e ->
  Forall itemShrinks exprs ->
  (forall n', n' < n -> Forall (itemFinishes n') exprs) ->
  finishes n (Pyparsing.And (Pyparsing.Elt e :: exprs)).
Proof.
  intros Ha Hf Hs Hrest cur Hc. unfold Pyparsing.And. simpl.
  specialize (Hf cur Hc).
  destruct (e cur) as [cur1 t1 n1| | |] eqn:Ee; try congruence.
  apply Ha in Ee.
  apply And_from_finishes with (n := remaining cur1);
    [exact Hs|apply Hrest; lia|lia].
Qed.

Lemma ZeroOrMore_shrinks fuel e :
  shrinks e -> shrinks (Pyparsing.ZeroOrMore fuel e).
Proof.
  intros H cur cur' toklist tokdict. unfold Pyparsing.ZeroOrMore.
  generalize (@nil value) as t0, (@nil (string * value)) as n0.
  revert cur. induction fuel as [|fuel IH]; intros cur t0 n0 E; simpl in E.
  - destruct (e cur) eqn:Ee; try discriminate. injection E as <- _ _. lia.
  - destruct (e cur) as [cur1 t1 n1| | |] eqn:Ee; try discriminate.
    + apply H in Ee. apply IH in E. lia.
    + injection E as <- _ _. lia.
Qed.

Lemma ZeroOrMore_finishes n fuel e :
  advances e -> finishes n e -> n <= fuel ->
  finishes n (Pyparsing.ZeroOrMore fuel e).
Proof.
  intros Ha Hf Hle cur Hc. unfold Pyparsing.ZeroOrMore.
  generalize (@nil value) as t0, (@nil (string * value)) as n0.
  assert (Hcf : remaining cur <= fuel) by lia. clear Hle.
  revert cur Hc Hcf.
  induction fuel as [|fuel IH]; intros cur Hc Hcf t0 n0; simpl.
  - specialize (Hf cur Hc).
    destruct (e cur) as [cur1 t1 n1| | |] eqn:Ee; try congruence.
    apply Ha in Ee. lia.
  - specialize (Hf cur Hc).
    destruct (e cur) as [cur1 t1 n1| | |] eqn:Ee; try congruence.
    apply Ha in Ee. apply IH; lia.
Qed.

(** The rules of the grammar are built from the elements above; the
    three properties follow the way a rule is built. *)
Ltac grammar :=
  lazymatch goal with
  | |- Forall _ (_ :: _) => apply Forall_cons; grammar
  | |- Forall _ [] => apply Forall_nil
  | |- Exists itemAdvances (Pyparsing.ErrorStop :: _) =>
      apply Exists_cons_tl; grammar
  | |- Exists itemAdvances (Pyparsing.Elt _ :: _) =>
      first [apply Exists_cons_hd; solve [grammar]
            |apply Exists_cons_tl; grammar]
  | |- itemShrinks Pyparsing.ErrorStop => exact I
  | |- itemFinishes _ Pyparsing.ErrorStop => exact I
  | |- itemShrinks (Pyparsing.Elt ?e) => change (shrinks e); grammar
  | |- itemAdvances (Pyparsing.Elt ?e) => change (advances e); grammar
  | |- itemFinishes ?n (Pyparsing.Elt ?e) => change (finishes n e); grammar
  | |- shrinks (Pyparsing.And _) => apply And_shrinks; grammar
  | |- advances (Pyparsing.And _) => apply And_advances; grammar
  | |- finishes _ (Pyparsing.And _) =>
      first [apply And_finishes; solve [grammar]
            |apply And_finishes_after; [| | |intros ? ?]; grammar]
  | |- shrinks (Pyparsing.MatchFirst _) => apply MatchFirst_shrinks; grammar
  | |- advances (Pyparsing.MatchFirst _) => apply MatchFirst_advances; grammar
  | |- finishes _ (Pyparsing.MatchFirst _) =>
      apply MatchFirst_finishes; grammar
  | |- shrinks (Pyparsing.Suppress _) => apply Suppress_shrinks; grammar
  | |- advances (Pyparsing.Suppress _) => apply Suppress_advances; grammar
  | |- finishes _ (Pyparsing.Suppress _) => apply Suppress_finishes; grammar
  | |- shrinks (Pyparsing.named _ _) => apply named_shrinks; grammar
  | |- advances (Pyparsing.named _ _) => apply named_advances; grammar
  | |- finishes _ (Pyparsing.named _ _) => apply named_finishes; grammar
  | |- shrinks (Pyparsing.Group _) => apply Group_shrinks; grammar
  | |- advances (Pyparsing.Group _) => apply Group_advances; grammar
  | |- finishes _ (Pyparsing.Group _) => apply Group_finishes; grammar
  | |- shrinks (Pyparsing.Dict _) => apply Dict_shrinks; grammar
  | |- finishes _ (Pyparsing.Dict _) => apply Dict_finishes; grammar
  | |- shrinks (Pyparsing.Optional _) => apply Optional_shrinks; grammar
  | |- finishes _ (Pyparsing.Optional _) => apply Optional_finishes; grammar
  | |- shrinks (Pyparsing.ZeroOrMore _ _) => apply ZeroOrMore_shrinks; grammar
  | |- finishes _ (Pyparsing.ZeroOrMore _ _) =>
      apply ZeroOrMore_finishes; [grammar|grammar|lia]
  | |- advances (Pyparsing.Word _ _) => apply Word_advances
  | |- advances Pyparsing.Regex_integer => apply Regex_integer_advances
  | |- advances Pyparsing.quotedString => apply quotedString_advances
  | |- advances (Pyparsing.Literal _) => apply Literal_advances; discriminate
  | |- advances (Pyparsing.Keyword _) => apply Keyword_advances; discriminate
  | |- advances (Pyparsing.oneOf _) =>
      apply oneOf_advances; repeat constructor; discriminate
  | |- finishes _ (Pyparsing.Word _ _) => apply token_finishes
  | |- finishes _ Pyparsing.Regex_integer => apply token_finishes
  | |- finishes _ Pyparsing.quotedString => apply token_finishes
  | |- finishes _ (Pyparsing.Literal _) => apply token_finishes
  | |- finishes _ (Pyparsing.Keyword _) => apply token_finishes
  | |- finishes _ (Pyparsing.oneOf _) => apply token_finishes
  | |- shrinks _ => first [assumption|apply advances_shrinks; grammar]
  | |- finishes _ _ =>
      first [assumption
            |match goal with
             | IH : forall n, _ -> _ -> finishes n _ |- _ => apply IH; lia
             end]
  | |- advances _ => assumption
  end.

Ltac open_grammar :=
  unfold topLevelStatement, messageDefn, messageExtension, messageDefn_over,
    messageExtension_over, serviceDefn, methodDefn, syntaxDefn,
    packageDirective, importDirective, enumDefn, extensionsDefn, oneOfDefn,
    oneOfBody, reservedDefn, optionDirective, fieldDefn, fieldDefnPrefix,
    fieldDirective, rvalue, typespec, mapDefn, ident, integer,
    LBRACE, RBRACE, LBRACK, RBRACK, LPAR, RPAR, EQ, SEMI, COMMA, LESSER,
    GREATER, MESSAGE_, REQUIRED_, OPTIONAL_, REPEATED_, ENUM_, EXTENSIONS_,
    EXTENDS_, EXTEND_, TO_, PACKAGE_, SERVICE_, RPC_, RETURNS_, TRUE_,
    FALSE_, OPTION_, IMPORT_, SYNTAX_, RESERVED_, ONEOF_, MAP_.

Lemma messageBody_shrinks fuel depth : shrinks (messageBody fuel depth).
Proof.
  induction depth as [|depth IH]; intros cur cur' toklist tokdict E.
  - discriminate.
  - cbn [messageBody] in E. revert cur cur' toklist tokdict E.
    match goal with
    | |- forall cur cur' toklist tokdict, ?e cur = _ -> _ =>
        change (shrinks e)
    end.
    open_grammar. grammar.
Qed.

Lemma messageBody_finishes fuel depth :
  forall n, n < depth -> n <= fuel -> finishes n (messageBody fuel depth).
Proof.
  induction depth as [|depth IH]; intros n Hd Hf cur Hc; [lia|].
  cbn [messageBody]. revert cur Hc.
  match goal with
  | |- forall cur, _ -> ?e cur <> _ => change (finishes n e)
  end.
  pose proof (messageBody_shrinks fuel depth) as Hs.
  assert (Hle : n <= depth) by lia. clear Hd.
  open_grammar. grammar.
Qed.

Lemma topLevelStatement_advances fuel : advances (topLevelStatement fuel).
Proof.
  pose proof (messageBody_shrinks fuel fuel) as Hs.
  open_grammar. grammar.
Qed.

Lemma topLevelStatement_finishes fuel n :
  n < fuel -> finishes n (topLevelStatement fuel).
Proof.
  intros Hn.
  pose proof (messageBody_shrinks fuel fuel) as Hs.
  pose proof (messageBody_finishes fuel fuel n Hn (Nat.lt_le_incl _ _ Hn))
    as Hf.
  open_grammar. grammar.
Qed.

(** The parser of [parseFile] never stops for lack of fuel. *)
Lemma parse_finishes text : parse text <> Pyparsing.OutOfFuel.
Proof.
  unfold parse.
  apply (ZeroOrMore_finishes (String.length text)).
  - apply topLevelStatement_advances.
  - apply topLevelStatement_finishes. lia.
  - lia.
  - unfold remaining. simpl. lia.
Qed.

(** [parseFile] returns a model or raises: the model's own fourth
    outcome never occurs. *)
Lemma parseFile_finishes text : parseFile text <> Unfinished.
Proof.
  unfold parseFile. pose proof (parse_finishes text) as H.
  destruct (parse text) as [cur toklist tokdict| | |]; try discriminate.
  - destruct (extractModel _) as [[[ms c] e]|]; discriminate.
  - now elim H.
Qed.

(** *** The parser on schema texts *)

(** The trees used as examples are what the grammar gives for their
    texts. *)
Example parseResults_textA :
  parseResults Examples.textA = Some Examples.treeA.
Proof. vm_compute. reflexivity. Qed.

Example parseResults_textD :
  parseResults Examples.textD
  = Some (ParseResults
            [ParseResults [Str "message"; Str "D"; Examples.bodyD]
               Examples.dictD] []).
Proof. vm_compute. reflexivity. Qed.

Example parseResults_twoCommands :
  parseResults Examples.twoCommands
  = Some (ParseResults
            [ParseResults [Str "package"; Str "p"] [("packageName", Str "p")];
             Examples.command1; Examples.command2] []).
Proof. vm_compute. reflexivity. Qed.

(** C1, as the code has it.  The round-trip schema gives the two
    messages, the command and no event; the message of the container
    holds the field of its [oneof] (its fields map is not empty). *)
Theorem parseFile_round_trip :
  parseFile Examples.roundTrip
  = Returned
      [Message.mk "My_Pkg_Command" [("foo", "1")];
       Message.mk "My_Pkg_Foo" [("x", "1")]]
      (Some (Command.mk "My_Pkg_Command" "my.pkg.Command"
               [OneOf.mk "foo" "My_Pkg_Foo" "1"]))
      None.
Proof. vm_compute. reflexivity. Qed.

(** C1 as stated fails: the first message is not [Message] with no
    fields. *)
Lemma parseFile_round_trip_not_as_stated :
  parseFile Examples.roundTrip
  <> Returned
       [Message.new "My_Pkg_Command";
        Message.mk "My_Pkg_Foo" [("x", "1")]]
       (Some (Command.mk "My_Pkg_Command" "my.pkg.Command"
                [OneOf.mk "foo" "My_Pkg_Foo" "1"]))
       None.
Proof. vm_compute. discriminate. Qed.










End ProtoParserFacts.


(** * Further properties of the extraction *)

Module ExtractionFacts.
Import ProtoParser Flat ProtoParserFacts.

(** ** The package name and the base name *)

Lemma getBaseName_loop_getPackageName_loop items :
  getBaseName_loop items
  = option_map (fun packageName =>
                  Py.replace "." "_" (Py.capwords packageName "."))
               (getPackageName_loop items).
Proof.
  induction items as [|item items IH]; [reflexivity|].
  destruct item as [s|t d]; simpl.
  - destruct (Py.contains PACKAGE_NAME_RES s); [reflexivity|exact IH].
  - destruct (Res.haskey PACKAGE_NAME_RES d); [|exact IH].
    destruct (as_str (Res.getitem PACKAGE_NAME_RES d)); reflexivity.
Qed.


Lemma getPackageName_loop_first before t d rest packageName :
  Forall (fun item => Res.contains PACKAGE_NAME_RES item = false) before ->
  Res.getitem PACKAGE_NAME_RES d = Some (Str packageName) ->
  getPackageName_loop (before ++ ParseResults t d :: rest)
  = Some packageName.
Proof.
  intros Hb Hd. induction Hb as [|item before Hi _ IH]; simpl.
  - unfold Res.haskey. now rewrite Hd.
  - destruct item as [s|t' d']; simpl in Hi; now rewrite Hi.
Qed.

(** X2. The first package directive wins.  When the first item that
    carries a package name carries [packageName], that is the package
    name and the source of the base name, whatever follows it: a later
    package directive is not looked at (unlike a later [Command]
    message, which replaces the earlier one). *)
Theorem first_package_directive_wins
    before t d rest d0 packageName :
  Forall (fun item => Res.contains PACKAGE_NAME_RES item = false) before ->
  Res.getitem PACKAGE_NAME_RES d = Some (Str packageName) ->
  getPackageName (ParseResults (before ++ ParseResults t d :: rest) d0)
  = Some packageName
  /\ getBaseName (ParseResults (before ++ ParseResults t d :: rest) d0)
     = Some (Py.replace "." "_" (Py.capwords packageName ".")).
Proof.
  intros Hb Hd. unfold getBaseName, getPackageName. simpl Res.iter.
  rewrite getBaseName_loop_getPackageName_loop.
  now rewrite (getPackageName_loop_first before t d rest packageName Hb Hd).
Qed.

Lemma first_package_directive_wins_witness :
  getPackageName
    (ParseResults
       ([ParseResults [Str "syntax"; Str "'proto3'"] []]
        ++ ParseResults [Str "package"; Str "my.pkg"]
             [("packageName", Str "my.pkg")]
        :: [ParseResults [Str "package"; Str "other"]
              [("packageName", Str "other")]]) [])
  = Some "my.pkg"
  /\ getBaseName
       (ParseResults
          ([ParseResults [Str "syntax"; Str "'proto3'"] []]
           ++ ParseResults [Str "package"; Str "my.pkg"]
                [("packageName", Str "my.pkg")]
           :: [ParseResults [Str "package"; Str "other"]
                 [("packageName", Str "other")]]) [])
     = Some (Py.replace "." "_" (Py.capwords "my.pkg" ".")).
Proof.
  apply (first_package_directive_wins
           [ParseResults [Str "syntax"; Str "'proto3'"] []]
           [Str "package"; Str "my.pkg"]
           [("packageName", Str "my.pkg")]
           [ParseResults [Str "package"; Str "other"]
              [("packageName", Str "other")]] [] "my.pkg").
  - repeat constructor.
  - reflexivity.
Defined.

(** The same on a schema text. *)
Example parseFile_two_packages :
  parseFile "package my.pkg; package other; message M { }"
  = Returned [Message.mk "My_Pkg_M" []] None None.
Proof. vm_compute. reflexivity. Qed.

Lemma length_lower s : String.length (Py.lower s) = String.length s.
Proof. induction s as [|c s IH]; simpl; [reflexivity|now rewrite IH]. Qed.

Lemma length_capitalize s :
  String.length (Py.capitalize s) = String.length s.
Proof. destruct s; simpl; [reflexivity|now rewrite length_lower]. Qed.

Lemma split_not_nil sep s : Py.split sep s <> [].
Proof.
  destruct s as [|c s]; simpl; [discriminate|].
  destruct (Ascii.eqb c sep); [discriminate|].
  destruct (Py.split sep s); discriminate.
Qed.

Lemma join_cons sep w ws :
  ws <> [] ->
  Py.join sep (w :: ws) = (w ++ sep ++ Py.join sep ws)%string.
Proof. destruct ws; [intros H; now elim H|reflexivity]. Qed.

Lemma join_split sep s :
  Py.join (String sep "") (Py.split sep s) = s.
Proof.
  induction s as [|c s IH]; [reflexivity|].
  cbn [Py.split]. pose proof (split_not_nil sep s) as Hn.
  destruct (Ascii.eqb c sep) eqn:E.
  - apply Ascii.eqb_eq in E. subst c.
    rewrite join_cons by exact Hn. simpl. now rewrite IH.
  - destruct (Py.split sep s) as [|w ws]; [now elim Hn|].
    destruct ws as [|w' ws].
    + simpl in IH |- *. now rewrite IH.
    + rewrite join_cons by discriminate.
      rewrite join_cons in IH by discriminate.
      rewrite <- IH. reflexivity.
Qed.

Lemma length_join_map (f : string -> string) sep ws :
  (forall w, String.length (f w) = String.length w) ->
  String.length (Py.join sep (map f ws)) = String.length (Py.join sep ws).
Proof.
  intros Hf. induction ws as [|w ws IH]; [reflexivity|].
  destruct ws as [|w' ws]; [apply Hf|].
  change (map f (w :: w' :: ws)) with (f w :: map f (w' :: ws)).
  rewrite !join_cons by discriminate.
  rewrite !length_append, Hf. now rewrite IH.
Qed.

Lemma length_capwords s sep :
  String.length (Py.capwords s sep) = String.length s.
Proof.
  unfold Py.capwords.
  rewrite (length_join_map Py.capitalize) by apply length_capitalize.
  now rewrite join_split.
Qed.

Lemma length_replace old new s :
  String.length (Py.replace old new s) = String.length s.
Proof. induction s as [|c s IH]; simpl; [reflexivity|now rewrite IH]. Qed.

Lemma replace_without_old old new s :
  old <> new -> ~ In old (list_ascii_of_string (Py.replace old new s)).
Proof.
  intros Hn. induction s as [|c s IH]; simpl; [tauto|].
  intros [H|H]; [|now apply IH].
  destruct (Ascii.eqb c old) eqn:E; [congruence|].
  apply Ascii.eqb_neq in E. congruence.
Qed.

(** X3. The base name is as long as the package name and has no dot in
    it: since ids are built as [baseName_name], the part of a top-level
    id before the declared name never holds a dot. *)
Theorem base_name_has_no_dot v packageName :
  getPackageName v = Some packageName ->
  exists baseName,
    getBaseName v = Some baseName
    /\ dotfree baseName
    /\ String.length baseName = String.length packageName.
Proof.
  intros H. unfold getBaseName, getPackageName in *.
  rewrite getBaseName_loop_getPackageName_loop, H. simpl.
  eexists. split; [reflexivity|]. split.
  - apply replace_without_old. discriminate.
  - now rewrite length_replace, length_capwords.
Qed.

Lemma base_name_has_no_dot_witness :
  exists baseName,
    getBaseName
      (ParseResults
         [ParseResults [Str "package"; Str "arsdk.camera.v2"]
            [("packageName", Str "arsdk.camera.v2")]] [])
    = Some baseName
    /\ dotfree baseName
    /\ String.length baseName = String.length "arsdk.camera.v2".
Proof.
  apply (base_name_has_no_dot
           (ParseResults
              [ParseResults [Str "package"; Str "arsdk.camera.v2"]
                 [("packageName", Str "arsdk.camera.v2")]] [])
           "arsdk.camera.v2").
  reflexivity.
Defined.

(** X4. Every message of the list that [extractMessages] returns,
    nested ones included, has an id that starts with the base name and
    an underscore. *)
Theorem ids_start_with_base_name v baseName messages :
  extractMessages v baseName = Some messages ->
  Forall (fun message =>
            String.prefix (baseName ++ "_") (Message.id message) = true)
         messages.
Proof.
  intros H. apply extractMessages_entities in H. subst messages.
  apply Forall_forall. intros m Hm. apply in_map_iff in Hm.
  destruct Hm as [e [<- _]]. unfold toMessage.
  rewrite addFields_id. simpl. apply entityId_prefix.
Qed.

Lemma ids_start_with_base_name_witness :
  Forall (fun message =>
            String.prefix ("P" ++ "_") (Message.id message) = true)
         [Message.mk "P_A.E" []; Message.mk "P_A.B" [];
          Message.mk "P_A" [("x", "1")]].
Proof.
  apply (ids_start_with_base_name Examples.treeA "P").
  vm_compute. reflexivity.
Defined.

(** ** Type resolution: which message is found *)

(** X5. A type declared inside the container wins: when some message
    has the id [parentType.messageType], that id is the result, even if
    a message listed before it has an id ending with [_messageType]. *)
Theorem normalizeType_prefers_nested_type messageType parentType messages :
  In (parentType ++ "." ++ messageType) (map Message.id messages) ->
  normalizeType messageType parentType messages
  = parentType ++ "." ++ messageType.
Proof.
  intros Hin. unfold normalizeType.
  destruct (find _ messages) as [m|] eqn:F.
  - apply find_some in F. destruct F as [_ E]. now apply String.eqb_eq in E.
  - exfalso. apply in_map_iff in Hin. destruct Hin as [m [E I]].
    pose proof (find_none _ _ F m I) as N. simpl in N.
    rewrite E, String.eqb_refl in N. discriminate.
Qed.

Lemma normalizeType_prefers_nested_type_witness :
  normalizeType "Foo" "P_Command"
    [Message.new "P_Foo"; Message.new "P_Command.Foo"]
  = "P_Command" ++ "." ++ "Foo".
Proof.
  apply (normalizeType_prefers_nested_type "Foo" "P_Command"
           [Message.new "P_Foo"; Message.new "P_Command.Foo"]).
  simpl. tauto.
Defined.

Lemma find_first {A : Type} (f : A -> bool) before x rest :
  Forall (fun y => f y = false) before -> f x = true ->
  find f (before ++ x :: rest) = Some x.
Proof.
  intros Hb Hx. induction Hb as [|y before Hy _ IH]; simpl.
  - now rewrite Hx.
  - now rewrite Hy.
Qed.

(** X6. Without a nested type of that name, the result is the id of
    the first message, in the order of the list, whose id ends with
    [_messageType]: the message need not be named [messageType], a
    name that merely ends with it after an underscore is taken. *)
Theorem normalizeType_takes_first_suffix_match
    messageType parentType before m rest :
  (forall m', In m' (before ++ m :: rest) ->
     Message.id m' <> parentType ++ "." ++ messageType) ->
  Forall (fun m' =>
            Py.endswith (Message.id m') ("_" ++ messageType) = false)
         before ->
  Py.endswith (Message.id m) ("_" ++ messageType) = true ->
  normalizeType messageType parentType (before ++ m :: rest)
  = Message.id m.
Proof.
  intros Hno Hb Hm. unfold normalizeType.
  destruct (find _ (before ++ m :: rest)) as [m1|] eqn:F.
  - apply find_some in F. destruct F as [I E].
    apply String.eqb_eq in E. now elim (Hno m1 I).
  - now rewrite (find_first _ before m rest Hb Hm).
Qed.

Lemma normalizeType_takes_first_suffix_match_witness :
  normalizeType "Foo" "P_Command"
    ([Message.new "P_Bar"] ++ Message.new "P_Other_Foo"
     :: [Message.new "P_Foo"])
  = Message.id (Message.new "P_Other_Foo").
Proof.
  apply (normalizeType_takes_first_suffix_match "Foo" "P_Command"
           [Message.new "P_Bar"] (Message.new "P_Other_Foo")
           [Message.new "P_Foo"]).
  - intros m' H. simpl in H.
    destruct H as [<-|[<-|[<-|[]]]]; discriminate.
  - repeat constructor.
  - reflexivity.
Defined.

(** ** Containers: when there is none, and what the content adds *)

Lemma extractCmdItem_keeps_command
    name packageName baseName messages item c r :
  extractCmdItem name packageName baseName messages item c = Some r ->
  c <> None -> r <> None.
Proof.
  intros H Hc. destruct item as [s|t d]; simpl in H.
  - destruct (_ && _); congruence.
  - destruct (_ && _); [|congruence].
    destruct (Res.getitem MSG_ID_RES d) as [[messageId|]|]; try congruence.
    destruct (String.eqb messageId name); [|congruence].
    destruct (Res.getitem MSG_BODY_RES d) as [body|]; [|discriminate].
    destruct (extractCmdContent body _ messages); [|discriminate].
    injection H as <-. discriminate.
Qed.

Lemma extractCmdItem_none_passedOver
    name packageName baseName messages item :
  extractCmdItem name packageName baseName messages item None = Some None ->
  passedOver name item = true.
Proof.
  intros H. destruct item as [s|t d]; simpl in H |- *.
  - destruct (_ && _); [discriminate|reflexivity].
  - destruct (Res.haskey MSG_ID_RES d && Res.haskey MSG_BODY_RES d);
      [|reflexivity]. simpl.
    destruct (Res.getitem MSG_ID_RES d) as [[messageId|]|]; try reflexivity.
    destruct (String.eqb messageId name); [|reflexivity].
    destruct (Res.getitem MSG_BODY_RES d) as [body|]; [|discriminate].
    destruct (extractCmdContent body _ messages); discriminate.
Qed.

(** X7. [extractCmd] returns [None] as the command exactly when no
    top-level item is a message named [name] (and no item makes the
    loop raise): one container is enough for a command to be returned
    or an exception raised, whatever stands before or after it. *)
Theorem extractCmd_none_iff_no_container
    name v packageName baseName messages :
  extractCmd name v packageName baseName messages = Some None
  <-> Forall (fun item => passedOver name item = true) (Res.iter v).
Proof.
  unfold extractCmd. split.
  - induction (Res.iter v) as [|item items IH]; intros H; constructor.
    + rewrite for_each_cons in H.
      destruct (extractCmdItem name packageName baseName messages item None)
        as [[c|]|] eqn:E; [| |discriminate].
      * exfalso.
        refine (for_each_preserves _ (fun c => c <> None) items _
                  (Some c) None _ H eq_refl); [|discriminate].
        intros x s s' Hx Hs. eapply extractCmdItem_keeps_command; eassumption.
      * eapply extractCmdItem_none_passedOver; eassumption.
    + apply IH. rewrite for_each_cons in H.
      destruct (extractCmdItem name packageName baseName messages item None)
        as [[c|]|] eqn:E; [| exact H |discriminate].
      exfalso.
      refine (for_each_preserves _ (fun c => c <> None) items _
                (Some c) None _ H eq_refl); [|discriminate].
      intros x s s' Hx Hs. eapply extractCmdItem_keeps_command; eassumption.
  - induction 1 as [|item items Hi _ IH]; [reflexivity|].
    rewrite for_each_cons, extractCmdItem_passedOver by exact Hi. exact IH.
Qed.

Lemma for_each_commute {A S : Type} (body : A -> S -> option S)
    (g : S -> S) l :
  (forall x s, body x (g s) = option_map g (body x s)) ->
  forall s, Res.for_each body l (g s) = option_map g (Res.for_each body l s).
Proof.
  intros Hb. induction l as [|x l IH]; intros s; [reflexivity|].
  rewrite !for_each_cons, Hb.
  destruct (body x s) as [s1|]; simpl; [apply IH|reflexivity].
Qed.

Lemma addOneOfItem_commute messages serviceId oneOf item cmd :
  addOneOfItem messages item
    (Command.mk (Command.commandId cmd) serviceId
                (oneOf ++ Command.oneOf cmd))
  = option_map (fun cmd => Command.mk (Command.commandId cmd) serviceId
                                      (oneOf ++ Command.oneOf cmd))
      (addOneOfItem messages item cmd).
Proof.
  destruct item as [s|t d]; simpl.
  - now destruct (_ && _).
  - destruct (_ && _); [|reflexivity].
    destruct (match Res.getitem FIELD_TYPE_RES d with
              | Some (Str s) => Some s
              | Some (ParseResults (Str first :: _) _) => Some first
              | _ => None
              end); [|reflexivity].
    destruct (as_str (Res.getitem FIELD_ID_RES d)); [|reflexivity].
    destruct (as_str (Res.getitem FIELD_NB_RES d)); [|reflexivity].
    simpl. unfold Command.addOneOf. simpl. now rewrite app_assoc.
Qed.

(** X8. [extractCmdContent] only appends to the entries the command
    already has, and what it appends depends on the body, on the
    command id and on the messages alone: not on the service id and not
    on the entries that are there. *)
Theorem extractCmdContent_appends body commandId serviceId oneOf messages :
  extractCmdContent body (Command.mk commandId serviceId oneOf) messages
  = option_map
      (fun cmd => Command.mk (Command.commandId cmd) serviceId
                             (oneOf ++ Command.oneOf cmd))
      (extractCmdContent body (Command.new commandId "") messages)
  /\ forall cmd,
       extractCmdContent body (Command.new commandId "") messages = Some cmd ->
       Command.commandId cmd = commandId.
Proof.
  split.
  - unfold extractCmdContent.
    rewrite <- (for_each_commute (extractCmdContentItem messages)
                  (fun cmd => Command.mk (Command.commandId cmd) serviceId
                                         (oneOf ++ Command.oneOf cmd))).
    + simpl. now rewrite app_nil_r.
    + intros item cmd. destruct item as [s|t d]; simpl.
      * now destruct (Py.contains ONEOF_BODY_RES s).
      * destruct (Res.haskey ONEOF_BODY_RES d); [|reflexivity].
        destruct (Res.getitem ONEOF_BODY_RES d) as [ob|]; [|reflexivity].
        apply (for_each_commute (addOneOfItem messages)
                 (fun cmd => Command.mk (Command.commandId cmd) serviceId
                                        (oneOf ++ Command.oneOf cmd))).
        intros x s. apply addOneOfItem_commute.
  - intros cmd H. apply extractCmdContent_ids in H. now destruct H as [H _].
Qed.




(** ** The fields map *)

Lemma keys_setitem d k v :
  Py.keys (Py.setitem d k v)
  = if Py.mem k d then Py.keys d else (Py.keys d ++ [k])%list.
Proof.
  unfold Py.keys, Py.mem.
  induction d as [|[k0 v0] d IH]; simpl; [reflexivity|].
  destruct (String.eqb k0 k); simpl; [reflexivity|].
  rewrite IH. now destruct (Py.get d k).
Qed.

(** X9. [addField] writes and overwrites in place: afterwards the name
    maps to the number given, every other name maps to what it did, the
    id is unchanged, and the order of the names is the old one, with
    the name at the end only if it is new. *)
Theorem addField_then_lookup message id number :
  Message.id (Message.addField message id number) = Message.id message
  /\ (forall k,
        Py.get (Message.fields (Message.addField message id number)) k
        = if String.eqb id k then Some number
          else Py.get (Message.fields message) k)
  /\ Py.keys (Message.fields (Message.addField message id number))
     = if Py.mem id (Message.fields message)
       then Py.keys (Message.fields message)
       else (Py.keys (Message.fields message) ++ [id])%list.
Proof.
  split; [reflexivity|]. split.
  - intros k. apply get_setitem.
  - apply keys_setitem.
Qed.

Lemma mem_false_not_in k d :
  Py.mem k d = false -> ~ In k (Py.keys d).
Proof.
  unfold Py.mem, Py.keys.
  induction d as [|[k0 v0] d IH]; simpl; [tauto|].
  destruct (String.eqb k0 k) eqn:E; [discriminate|].
  intros H [H0|H0]; [|now apply IH].
  subst k0. now rewrite String.eqb_refl in E.
Qed.

Lemma NoDup_keys_setitem d k v :
  NoDup (Py.keys d) -> NoDup (Py.keys (Py.setitem d k v)).
Proof.
  intros H. rewrite keys_setitem.
  destruct (Py.mem k d) eqn:E; [exact H|].
  apply mem_false_not_in in E.
  apply NoDup_rev in H. rewrite <- (rev_involutive (Py.keys d ++ [k])).
  apply NoDup_rev. rewrite rev_app_distr. simpl.
  constructor; [|exact H]. now rewrite <- in_rev.
Qed.

Lemma NoDup_keys_addFields defs m :
  NoDup (Py.keys (Message.fields m)) ->
  NoDup (Py.keys (Message.fields (addFields defs m))).
Proof.
  unfold addFields. revert m.
  induction defs as [|[k v] defs IH]; intros m H; [exact H|].
  simpl. apply IH. simpl. now apply NoDup_keys_setitem.
Qed.

(** X25. In every message that [extractMessages] returns the field
    names are pairwise distinct, whatever the schema declares: a name
    declared twice is one entry of the fields map. *)
Theorem extracted_field_names_are_distinct v baseName messages :
  extractMessages v baseName = Some messages ->
  Forall (fun message => NoDup (Py.keys (Message.fields message))) messages.
Proof.
  intros H. apply extractMessages_entities in H. subst messages.
  apply Forall_forall. intros m Hm. apply in_map_iff in Hm.
  destruct Hm as [e [<- _]]. unfold toMessage.
  apply NoDup_keys_addFields. simpl. constructor.
Qed.

Lemma extracted_field_names_are_distinct_witness :
  Forall (fun message => NoDup (Py.keys (Message.fields message)))
    [Message.mk "P_D.N" [("z", "4")];
     Message.mk "P_D" [("x", "2"); ("y", "3")]].
Proof.
  apply (extracted_field_names_are_distinct
           (ParseResults
              [ParseResults [Str "message"; Str "D"; Examples.bodyD]
                 Examples.dictD] []) "P").
  vm_compute. reflexivity.
Defined.

(** ** The command and the messages *)

Lemma extractCmd_some_container name v packageName baseName messages cmd :
  extractCmd name v packageName baseName messages = Some (Some cmd) ->
  Exists (fun item => isContainer name item = true) (Res.iter v).
Proof.
  unfold extractCmd.
  assert (G : forall items c,
             Res.for_each (extractCmdItem name packageName baseName messages)
                          items None = Some (Some c) ->
             Exists (fun item => isContainer name item = true) items).
  { induction items as [|item items IH]; intros c H; [discriminate|].
    rewrite for_each_cons in H.
    destruct (extractCmdItem name packageName baseName messages item None)
      as [[c1|]|] eqn:E; [| |discriminate].
    - apply Exists_cons_hd.
      destruct item as [s|t d]; simpl in E |- *.
      + destruct (_ && _); discriminate.
      + destruct (Res.haskey MSG_ID_RES d && Res.haskey MSG_BODY_RES d);
          [|discriminate]. simpl.
        destruct (Res.getitem MSG_ID_RES d) as [[messageId|]|];
          try discriminate.
        now destruct (String.eqb messageId name).
    - apply Exists_cons_tl. eapply IH. exact H. }
  apply G.
Qed.

Lemma container_among_entities name items :
  Exists (fun item => isContainer name item = true) items ->
  exists e,
    In e (flat_map (fun item =>
                      match item with
                      | Str _ => []
                      | ParseResults _ d => entitiesOf entities d
                      end) items)
    /\ scope e = [] /\ Flat.name e = name.
Proof.
  induction 1 as [item items Hi|item items _ [e [He Hn]]].
  - destruct item as [s|t d]; [discriminate|]. simpl in Hi.
    destruct (Res.haskey MSG_ID_RES d && Res.haskey MSG_BODY_RES d) eqn:K;
      [|discriminate]. simpl in Hi.
    destruct (Res.getitem MSG_ID_RES d) as [[messageId|]|] eqn:G;
      try discriminate.
    apply String.eqb_eq in Hi. subst messageId.
    eexists. split.
    + cbn [flat_map]. apply in_or_app. left.
      unfold entitiesOf. rewrite K, G. simpl as_str. cbv iota.
      apply in_or_app. left. apply in_or_app. right. now left.
    + now split.
  - exists e. split; [|exact Hn].
    cbn [flat_map]. apply in_or_app. now right.
Qed.

(** X26. The command and the event that [parseFile] returns are named
    after a message of the list it returns: the command id, which the
    generator uses as the name of a Swift message type, is the id of
    one of the messages. *)
Theorem command_id_names_a_message v messages command event cmd :
  extractModel v = Some (messages, command, event) ->
  command = Some cmd \/ event = Some cmd ->
  In (Command.commandId cmd) (map Message.id messages).
Proof.
  unfold extractModel, getPackageName, getBaseName.
  destruct (getPackageName_loop (Res.iter v)) as [pkg|]; [|discriminate].
  destruct (getBaseName_loop (Res.iter v)) as [base|]; [|discriminate].
  destruct (extractMessages v base) as [ms|] eqn:M; [|discriminate].
  destruct (extractCmd "Command" v pkg base ms) as [c|] eqn:C;
    [|discriminate].
  destruct (extractCmd "Event" v pkg base ms) as [e|] eqn:E;
    [|discriminate].
  intros H. injection H as <- <- <-. intros Hc.
  assert (G : forall name,
             extractCmd name v pkg base ms = Some (Some cmd) ->
             In (Command.commandId cmd) (map Message.id ms)).
  { intros name Hn.
    destruct (extractCmd_ids _ _ _ _ _ _ Hn) as [-> _].
    apply extractCmd_some_container in Hn.
    apply extractMessages_entities in M. subst ms.
    destruct v as [s|toklist d0].
    - simpl in Hn. exfalso. clear -Hn.
      induction (Res.chars s) as [|c l IH]; simpl in Hn;
        inversion Hn; subst; [discriminate|now apply IH].
    - simpl in Hn. apply container_among_entities in Hn.
      destruct Hn as [en [He [Hs Hname]]].
      rewrite map_map. apply in_map_iff. exists en. split; [|exact He].
      unfold toMessage. rewrite addFields_id. simpl.
      unfold entityId. rewrite Hs, Hname. simpl.
      now rewrite append_assoc. }
  destruct Hc as [->| ->]; [exact (G _ C)|exact (G _ E)].
Qed.

Lemma command_id_names_a_message_witness :
  In (Command.commandId
        (Command.mk "_Command" ".Command" [OneOf.mk "a" "Foo" "1"]))
     (map Message.id [Message.mk "_Command" [("a", "1")]]).
Proof.
  apply (command_id_names_a_message
           (ParseResults [Examples.command1] [])
           [Message.mk "_Command" [("a", "1")]]
           (Some (Command.mk "_Command" ".Command" [OneOf.mk "a" "Foo" "1"]))
           None
           (Command.mk "_Command" ".Command" [OneOf.mk "a" "Foo" "1"])).
  - vm_compute. reflexivity.
  - left. reflexivity.
Defined.

(** ** Blank input *)

Lemma span_all f s :
  forallb f (list_ascii_of_string s) = true ->
  Pyparsing.span f s = (s, EmptyString).
Proof.
  induction s as [|c s IH]; simpl; [reflexivity|]. intros H.
  apply andb_true_iff in H. destruct H as [Hc Hs].
  now rewrite Hc, (IH Hs).
Qed.

Lemma preParse_blank p text l :
  Shape.blank text = true ->
  Pyparsing.rest (Pyparsing.preParse (Pyparsing.mkCursor p text l))
  = EmptyString.
Proof.
  intros H. unfold Pyparsing.preParse. cbn [Pyparsing.rest].
  assert (E : Pyparsing.skipWhitespace (Pyparsing.mkCursor p text l)
              = Pyparsing.consume (Pyparsing.mkCursor p text l) text "").
  { unfold Pyparsing.skipWhitespace. cbn [Pyparsing.rest].
    now rewrite (span_all _ _ H). }
  destruct (String.length text); cbn [Pyparsing.skipIgnorables];
    rewrite E; reflexivity.
Qed.

Lemma Keyword_at_end c kw cur :
  Pyparsing.rest (Pyparsing.preParse cur) = EmptyString ->
  Pyparsing.Keyword (String c kw) cur
  = Pyparsing.ParseException (Pyparsing.loc (Pyparsing.preParse cur)).
Proof.
  intros H. unfold Pyparsing.Keyword, Pyparsing.token. now rewrite H.
Qed.

Lemma And_first_fails e exprs cur l :
  e cur = Pyparsing.ParseException l ->
  Pyparsing.And (Pyparsing.Elt e :: exprs) cur = Pyparsing.ParseException l.
Proof.
  intros H. unfold Pyparsing.And. cbn [Pyparsing.And_from]. now rewrite H.
Qed.

Lemma MatchFirst_from_all_fail exprs cur l :
  Forall (fun e => e cur = Pyparsing.ParseException l) exprs ->
  Pyparsing.MatchFirst_from exprs cur (Some l) = Pyparsing.ParseException l.
Proof.
  induction 1 as [|e exprs He _ IH]; [reflexivity|].
  cbn [Pyparsing.MatchFirst_from]. rewrite He, Nat.ltb_irrefl. exact IH.
Qed.

Lemma MatchFirst_all_fail e exprs cur l :
  Forall (fun e => e cur = Pyparsing.ParseException l) (e :: exprs) ->
  Pyparsing.MatchFirst (e :: exprs) cur = Pyparsing.ParseException l.
Proof.
  intros H. inversion H as [|? ? He Hr]; subst.
  unfold Pyparsing.MatchFirst. cbn [Pyparsing.MatchFirst_from].
  rewrite He. now apply MatchFirst_from_all_fail.
Qed.

(** White space alone leaves nothing to read. *)
Lemma blank_afterIgnorables text :
  Shape.blank text = true -> Shape.afterIgnorables text = EmptyString.
Proof.
  intros H. unfold Shape.afterIgnorables, Pyparsing.start.
  now apply preParse_blank.
Qed.

(** X10. A text that holds nothing but white space and comments, the
    empty text included, is a schema without statements: [parseFile]
    returns no message, no command and no event, and raises nothing. *)
Theorem text_without_statements_gives_empty_model text :
  Shape.afterIgnorables text = EmptyString ->
  parseFile text = Returned [] None None.
Proof.
  unfold Shape.afterIgnorables. intros R. unfold parseFile, parse.
  set (fuel := S (String.length text)).
  set (cur := Pyparsing.start text) in *.
  assert (T : topLevelStatement fuel cur
              = Pyparsing.ParseException
                  (Pyparsing.loc (Pyparsing.preParse cur))).
  { unfold topLevelStatement, Pyparsing.Group.
    rewrite (MatchFirst_all_fail _ _ cur
               (Pyparsing.loc (Pyparsing.preParse cur))); [reflexivity|].
    unfold messageDefn, messageDefn_over, messageExtension,
      messageExtension_over, enumDefn, serviceDefn, importDirective,
      optionDirective, syntaxDefn, packageDirective.
    repeat constructor;
      (apply And_first_fails; apply Keyword_at_end; exact R). }
  unfold fuel in *. unfold Pyparsing.ZeroOrMore.
  cbn [Pyparsing.ZeroOrMore_from]. now rewrite T.
Qed.

Lemma text_without_statements_gives_empty_model_witness :
  parseFile " /* no statement */ // here" = Returned [] None None.
Proof.
  apply (text_without_statements_gives_empty_model
           " /* no statement */ // here").
  reflexivity.
Defined.

(** ** The shape of the parse results *)

Lemma Keyword_tokens kw cur cur' toklist tokdict :
  Pyparsing.Keyword kw cur = Pyparsing.Matched cur' toklist tokdict ->
  toklist = [Str kw] /\ tokdict = [].
Proof.
  unfold Pyparsing.Keyword, Pyparsing.token.
  destruct (Pyparsing.strip_prefix kw _) as [r|]; [|discriminate].
  cbv zeta. destruct (_ && _); [|discriminate].
  intros H. injection H as _ <- <-. now split.
Qed.

Lemma And_from_prefix exprs :
  forall errorStop cur t0 d0 cur' toklist tokdict,
    Pyparsing.And_from errorStop exprs cur t0 d0
    = Pyparsing.Matched cur' toklist tokdict ->
    exists t1, toklist = (t0 ++ t1)%list.
Proof.
  induction exprs as [|[e|] exprs IH];
    intros errorStop cur t0 d0 cur' toklist tokdict H; simpl in H.
  - injection H as _ <- _. exists []. now rewrite app_nil_r.
  - destruct (e cur) as [cur1 toks names|l|l|]; try discriminate.
    + apply IH in H. destruct H as [t1 ->]. exists (toks ++ t1)%list.
      now rewrite app_assoc.
    + destruct errorStop; discriminate.
  - eapply IH. exact H.
Qed.

Lemma And_keyword_first kw exprs cur cur' toklist tokdict :
  Pyparsing.And (Pyparsing.Elt (Pyparsing.Keyword kw) :: exprs) cur
  = Pyparsing.Matched cur' toklist tokdict ->
  exists others, toklist = Str kw :: others.
Proof.
  unfold Pyparsing.And. cbn [Pyparsing.And_from].
  destruct (Pyparsing.Keyword kw cur) as [cur1 toks names|l|l|] eqn:K;
    try discriminate.
  apply Keyword_tokens in K. destruct K as [-> ->].
  intros H. apply And_from_prefix in H. destruct H as [t1 ->].
  now exists t1.
Qed.

Lemma MatchFirst_from_tokens (P : list value -> Prop) exprs :
  Forall (fun e => forall cur cur' toklist tokdict,
            e cur = Pyparsing.Matched cur' toklist tokdict -> P toklist)
         exprs ->
  forall cur best cur' toklist tokdict,
    Pyparsing.MatchFirst_from exprs cur best
    = Pyparsing.Matched cur' toklist tokdict ->
    P toklist.
Proof.
  induction 1 as [|e exprs He _ IH]; intros cur best cur' toklist tokdict E;
    simpl in E.
  - destruct best; discriminate.
  - destruct (e cur) eqn:Ee; try discriminate.
    + injection E as _ <- _. eauto.
    + eapply IH. exact E.
Qed.

Lemma topLevelStatement_tokens fuel cur cur' toklist tokdict :
  topLevelStatement fuel cur = Pyparsing.Matched cur' toklist tokdict ->
  tokdict = [] /\ exists item, toklist = [item] /\ Shape.isStatement item.
Proof.
  unfold topLevelStatement, Pyparsing.Group, Pyparsing.MatchFirst.
  destruct (Pyparsing.MatchFirst_from _ cur None)
    as [cur1 toks names|l|l|] eqn:M; try discriminate.
  intros H. injection H as _ <- <-. split; [reflexivity|].
  eexists. split; [reflexivity|].
  refine (MatchFirst_from_tokens
            (fun toks => forall names,
               Shape.isStatement (ParseResults toks names))
            _ _ _ _ _ _ _ M names).
  unfold messageDefn, messageDefn_over, messageExtension,
    messageExtension_over, enumDefn, serviceDefn, importDirective,
    optionDirective, syntaxDefn, packageDirective.
  repeat constructor;
    (intros c c' t d H names0; apply And_keyword_first in H;
     destruct H as [others ->]; eexists; exists others, names0;
     split; [reflexivity|]; unfold Shape.statementKeywords; simpl; tauto).
Qed.

Lemma ZeroOrMore_from_statements fuel0 fuel :
  forall cur t0 d0 cur' toklist tokdict,
    Pyparsing.ZeroOrMore_from fuel (topLevelStatement fuel0) cur t0 d0
    = Pyparsing.Matched cur' toklist tokdict ->
    tokdict = d0
    /\ exists items,
         toklist = (t0 ++ items)%list /\ Forall Shape.isStatement items.
Proof.
  induction fuel as [|fuel IH]; intros cur t0 d0 cur' toklist tokdict H;
    simpl in H;
    destruct (topLevelStatement fuel0 cur) as [cur1 toks names|l|l|] eqn:T;
    try discriminate;
    try (injection H as _ <- <-; split; [reflexivity|];
         exists []; split; [now rewrite app_nil_r|constructor]).
  apply topLevelStatement_tokens in T.
  destruct T as [-> [item [-> Hi]]].
  apply IH in H. destruct H as [-> [items [-> Hs]]].
  split; [now rewrite app_nil_r|].
  exists (item :: items). split; [now rewrite <- app_assoc|].
  now constructor.
Qed.

(** X22. What the parser hands to the extraction is a list of groups,
    one for each top-level statement read, each starting with the
    keyword of its statement, and no name is set at top level: the
    loops of [getPackageName], [extractMessages] and [extractCmd] over
    the parse results never meet a bare string. *)
Theorem parse_results_are_statements text cur toklist tokdict :
  parse text = Pyparsing.Matched cur toklist tokdict ->
  tokdict = [] /\ Forall Shape.isStatement toklist.
Proof.
  unfold parse, Pyparsing.ZeroOrMore. intros H.
  apply ZeroOrMore_from_statements in H.
  destruct H as [-> [items [-> Hs]]]. now split.
Qed.

Lemma parse_results_are_statements_witness :
  @nil (string * value) = []
  /\ Forall Shape.isStatement
       [ParseResults [Str "package"; Str "p"] [("packageName", Str "p")]].
Proof.
  apply (parse_results_are_statements "package p; }"
           (Pyparsing.mkCursor (Some ";"%char) " }" 10)
           [ParseResults [Str "package"; Str "p"] [("packageName", Str "p")]]
           []).
  reflexivity.
Defined.

End ExtractionFacts.

(** * Properties of the generator *)

Module GenSwiftFacts.
Import Writer GenSwift Shape.

(** ** Statements that write *)

Lemma prepend_prepend a b r :
  prepend a (prepend b r) = prepend (a ++ b) r.
Proof.
  destruct r; simpl; now rewrite ProtoParserFacts.append_assoc.
Qed.

Lemma write_framed fmt args : framed (write fmt args).
Proof.
  intros f. unfold write. destruct (Py.format fmt args); simpl;
    [reflexivity|now rewrite ProtoParserFacts.append_nil_r].
Qed.

Lemma pass_framed : framed pass.
Proof.
  intros f. unfold pass. simpl. now rewrite ProtoParserFacts.append_nil_r.
Qed.

Lemma raise_framed : framed raise.
Proof.
  intros f. unfold raise. simpl. now rewrite ProtoParserFacts.append_nil_r.
Qed.

Lemma seq_framed a b : framed a -> framed b -> framed (seq a b).
Proof.
  intros Ha Hb f. unfold seq. rewrite (Ha f).
  destruct (a EmptyString) as [t|t]; simpl; [|reflexivity].
  now rewrite (Hb (f ++ t)), (Hb t), prepend_prepend.
Qed.

Lemma block_framed l : Forall framed l -> framed (block l).
Proof.
  induction 1 as [|s l Hs _ IH]; [apply pass_framed|].
  now apply seq_framed.
Qed.

Lemma for_framed {A : Type} (l : list A) body :
  (forall x, framed (body x)) -> framed (for_ l body).
Proof.
  intros H. apply block_framed. apply Forall_forall. intros s Hs.
  apply in_map_iff in Hs. destruct Hs as [x [<- _]]. apply H.
Qed.

Lemma try_framed {A : Type} (e : option A) k :
  (forall x, framed (k x)) -> framed (try_ e k).
Proof. intros H. destruct e; [apply H|apply raise_framed]. Qed.

Lemma returns_seq a b :
  framed b -> returns (seq a b) = returns a && returns b.
Proof.
  intros Hb. unfold returns, seq.
  destruct (a EmptyString) as [t|t]; [|reflexivity].
  rewrite (Hb t). now destruct (b EmptyString).
Qed.

Lemma returns_block l :
  Forall framed l -> returns (block l) = forallb returns l.
Proof.
  induction 1 as [|s l Hs Hl IH]; [reflexivity|].
  cbn [block forallb]. rewrite returns_seq by now apply block_framed.
  now rewrite IH.
Qed.

Lemma returns_for {A : Type} (l : list A) body :
  (forall x, framed (body x)) ->
  returns (for_ l body) = forallb (fun x => returns (body x)) l.
Proof.
  intros H. unfold for_. rewrite returns_block.
  - induction l as [|x l IH]; [reflexivity|]. simpl. now rewrite IH.
  - apply Forall_forall. intros s Hs.
    apply in_map_iff in Hs. destruct Hs as [x [<- _]]. apply H.
Qed.

Lemma framed_written s fileobj :
  framed s -> returns s = true -> s fileobj = Written (fileobj ++ textOf s).
Proof.
  intros Hs Hr. rewrite (Hs fileobj). unfold returns, textOf in *.
  now destruct (s EmptyString).
Qed.

Lemma framed_raised s fileobj :
  framed s -> returns s = false -> s fileobj = Raised (fileobj ++ textOf s).
Proof.
  intros Hs Hr. rewrite (Hs fileobj). unfold returns, textOf in *.
  now destruct (s EmptyString).
Qed.

Lemma framed_returns_iff s fileobj :
  framed s ->
  (exists fileobj', s fileobj = Written fileobj') <-> returns s = true.
Proof.
  intros Hs. split.
  - intros [f' H]. rewrite (Hs fileobj) in H. unfold returns.
    now destruct (s EmptyString).
  - intros Hr. eexists. now apply framed_written.
Qed.

(** ** Format strings *)

Lemma format_holes_le n :
  forall fmt args,
    String.length fmt <= n ->
    holes fmt = Some (length args) -> Py.format fmt args <> None.
Proof.
  induction n as [|n IH]; intros fmt args Hl H.
  - destruct fmt; [|simpl in Hl; lia].
    destruct args; simpl in *; discriminate.
  - destruct fmt as [|c fmt]; [destruct args; simpl in *; discriminate|].
    simpl in Hl. cbn [Py.format holes] in *.
    destruct (Ascii.eqb c "%").
    + destruct fmt as [|d fmt]; [discriminate|]. simpl in Hl.
      destruct (Ascii.eqb d "s").
      * destruct (holes fmt) as [h|] eqn:E; [|discriminate].
        destruct args as [|a args]; [discriminate|].
        simpl in H. injection H as H. subst h.
        assert (Hf : Py.format fmt args <> None).
        { apply IH; [lia|exact E]. }
        destruct (Py.format fmt args); [discriminate|now elim Hf].
      * destruct (Ascii.eqb d "%"); [|discriminate].
        assert (Hf : Py.format fmt args <> None).
        { apply IH; [lia|exact H]. }
        destruct (Py.format fmt args); [discriminate|now elim Hf].
    + assert (Hf : Py.format fmt args <> None).
      { apply IH; [lia|exact H]. }
      destruct (Py.format fmt args); [discriminate|now elim Hf].
Qed.

Lemma returns_write fmt args :
  holes fmt = Some (length args) -> returns (write fmt args) = true.
Proof.
  intros H. unfold returns, write.
  pose proof (format_holes_le (String.length fmt) fmt args (le_n _) H) as Hf.
  destruct (Py.format fmt args); [reflexivity|now elim Hf].
Qed.

(** ** Swift names *)

Lemma upper_char_not_underscore c :
  c <> "_"%char -> Py.upper_char c <> "_"%char.
Proof.
  destruct c as [[] [] [] [] [] [] [] []]; vm_compute; congruence.
Qed.

Lemma lower_char_not_underscore c :
  c <> "_"%char -> Py.lower_char c <> "_"%char.
Proof.
  destruct c as [[] [] [] [] [] [] [] []]; vm_compute; congruence.
Qed.

Lemma lower_no_underscore w :
  ~ In "_"%char (list_ascii_of_string w) ->
  ~ In "_"%char (list_ascii_of_string (Py.lower w)).
Proof.
  induction w as [|c w IH]; simpl; [tauto|]. intros H [E|E].
  - apply (lower_char_not_underscore c); [|exact E].
    intros ->. apply H. now left.
  - apply IH; [|exact E]. intros I. apply H. now right.
Qed.

Lemma capitalize_no_underscore w :
  ~ In "_"%char (list_ascii_of_string w) ->
  ~ In "_"%char (list_ascii_of_string (Py.capitalize w)).
Proof.
  destruct w as [|c w]; simpl; [tauto|]. intros H [E|E].
  - apply (upper_char_not_underscore c); [|exact E].
    intros ->. apply H. now left.
  - apply (lower_no_underscore w); [|exact E]. intros I. apply H. now right.
Qed.

Lemma split_no_sep sep s :
  Forall (fun w => ~ In sep (list_ascii_of_string w)) (Py.split sep s).
Proof.
  induction s as [|c s IH]; simpl.
  - constructor; [simpl; tauto|constructor].
  - destruct (Ascii.eqb c sep) eqn:E.
    + constructor; [simpl; tauto|exact IH].
    + apply Ascii.eqb_neq in E.
      destruct (Py.split sep s) as [|w ws].
      * constructor; [|constructor]. simpl. intros [H|[]]. congruence.
      * inversion IH as [|? ? Hw Hws]; subst. constructor; [|exact Hws].
        simpl. intros [H|H]; [congruence|now apply Hw].
Qed.

Lemma replace_by_app old new a b :
  Py.replace_by old new (a ++ b)
  = (Py.replace_by old new a ++ Py.replace_by old new b)%string.
Proof.
  induction a as [|c a IH]; simpl; [reflexivity|].
  now rewrite IH, ProtoParserFacts.append_assoc.
Qed.

Lemma replace_by_absent old new w :
  ~ In old (list_ascii_of_string w) -> Py.replace_by old new w = w.
Proof.
  induction w as [|c w IH]; simpl; [reflexivity|]. intros H.
  destruct (Ascii.eqb c old) eqn:E.
  - apply Ascii.eqb_eq in E. subst c. elim H. now left.
  - simpl. rewrite IH; [reflexivity|]. intros I. apply H. now right.
Qed.

Lemma remove_sep_join sep ws :
  Forall (fun w => ~ In sep (list_ascii_of_string w)) ws ->
  Py.replace_by sep "" (Py.join (String sep "") ws) = Py.join "" ws.
Proof.
  induction ws as [|w ws IH]; intros H; [reflexivity|].
  inversion H as [|? ? Hw Hws]; subst.
  destruct ws as [|w' ws].
  - simpl. now apply replace_by_absent.
  - rewrite !ExtractionFacts.join_cons by discriminate.
    rewrite !replace_by_app, replace_by_absent by exact Hw.
    rewrite IH by exact Hws. simpl. now rewrite Ascii.eqb_refl.
Qed.

(** The name with its underscores gone, as the five functions that
    derive a Swift name compute it. *)
Lemma capwords_without_underscores name :
  Py.replace_by "_" "" (Py.capwords name "_") = upperCamel name.
Proof.
  unfold Py.capwords, upperCamel. apply remove_sep_join.
  apply Forall_forall. intros w Hw. apply in_map_iff in Hw.
  destruct Hw as [w0 [<- Hw0]]. apply capitalize_no_underscore.
  pose proof (split_no_sep "_" name) as Hs.
  rewrite Forall_forall in Hs. now apply Hs.
Qed.

Lemma upperCamel_empty_iff name :
  upperCamel name = EmptyString <-> onlyUnderscores name = true.
Proof.
  unfold upperCamel, onlyUnderscores.
  induction name as [|c name IH]; [simpl; tauto|].
  cbn [Py.split list_ascii_of_string forallb].
  pose proof (ExtractionFacts.split_not_nil "_" name) as Hn.
  destruct (Ascii.eqb c "_") eqn:E.
  - apply Ascii.eqb_eq in E. subst c. rewrite Ascii.eqb_refl.
    cbn [map andb]. rewrite ExtractionFacts.join_cons.
    + exact IH.
    + destruct (Py.split "_" name); [now elim Hn|discriminate].
  - rewrite Ascii.eqb_sym, E. simpl andb.
    destruct (Py.split "_" name) as [|w ws]; [now elim Hn|].
    split; [|discriminate]. destruct ws; simpl; discriminate.
Qed.

Lemma getitem0_upperCamel name :
  Py.getitem0 (upperCamel name)
  = if onlyUnderscores name then None
    else option_map (fun c => String c EmptyString)
                    (match upperCamel name with
                     | String c _ => Some c
                     | EmptyString => None
                     end).
Proof.
  destruct (onlyUnderscores name) eqn:E.
  - apply upperCamel_empty_iff in E. now rewrite E.
  - destruct (upperCamel name); reflexivity.
Qed.

Lemma name_cases name :
  onlyUnderscores name = true /\ upperCamel name = EmptyString
  \/ onlyUnderscores name = false
     /\ exists c s, upperCamel name = String c s.
Proof.
  destruct (onlyUnderscores name) eqn:E.
  - left. split; [reflexivity|]. now apply upperCamel_empty_iff.
  - right. split; [reflexivity|].
    destruct (upperCamel name) as [|c s] eqn:U; [|now exists c, s].
    apply upperCamel_empty_iff in U. congruence.
Qed.

(** ** The functions only append *)

Ltac framing_step :=
  match goal with
  | |- framed (write _ _) => apply write_framed
  | |- framed pass => apply pass_framed
  | |- framed raise => apply raise_framed
  | |- framed (for_ _ _) => apply for_framed; intros
  | |- framed (try_ _ _) => apply try_framed; intros
  | |- framed (block _) => apply block_framed
  | |- Forall framed (_ :: _) => apply Forall_cons
  | |- Forall framed [] => apply Forall_nil
  | |- framed (if ?b then _ else _) => destruct b
  | |- framed (let '(_, _) := ?p in _) => destruct p
  end.

Lemma genDecoderListenerProtocolFunc_framed name type :
  framed (genDecoderListenerProtocolFunc name type).
Proof.
  unfold genDecoderListenerProtocolFunc. cbv zeta. repeat framing_step.
Qed.

Lemma genDecoderCase_framed name : framed (genDecoderCase name).
Proof. unfold genDecoderCase. cbv zeta. repeat framing_step. Qed.

Lemma genCommandNumber_framed name number :
  framed (genCommandNumber name number).
Proof. unfold genCommandNumber. cbv zeta. repeat framing_step. Qed.

Lemma genFieldNumber_framed name number :
  framed (genFieldNumber name number).
Proof. unfold genFieldNumber. cbv zeta. repeat framing_step. Qed.

Lemma genFieldVar_framed name number : framed (genFieldVar name number).
Proof. unfold genFieldVar. cbv zeta. repeat framing_step. Qed.

Ltac framing :=
  repeat first
    [ framing_step
    | match goal with
      | |- framed (genDecoderListenerProtocolFunc _ _) =>
          apply genDecoderListenerProtocolFunc_framed
      | |- framed (genDecoderCase _) => apply genDecoderCase_framed
      | |- framed (genCommandNumber _ _) => apply genCommandNumber_framed
      | |- framed (genFieldNumber _ _) => apply genFieldNumber_framed
      | |- framed (genFieldVar _ _) => apply genFieldVar_framed
      end ].

Lemma genDecoderListenerProtocol_framed event :
  framed (genDecoderListenerProtocol event).
Proof. unfold genDecoderListenerProtocol. cbv zeta. framing. Qed.

Lemma genDecoder_framed event : framed (genDecoder event).
Proof. unfold genDecoder. cbv zeta. framing. Qed.

Lemma genEncoder_framed command : framed (genEncoder command).
Proof. unfold genEncoder. cbv zeta. framing. Qed.

Lemma genCommandNumberExtension_framed command :
  framed (genCommandNumberExtension command).
Proof. unfold genCommandNumberExtension. framing. Qed.

Lemma genMessageExtension_framed message :
  framed (genMessageExtension message).
Proof.
  unfold genMessageExtension. apply try_framed. intros fields.
  destruct fields as [|field fields]; [apply pass_framed|].
  cbv zeta. framing.
Qed.

Lemma genMessagesExtensions_framed messages :
  framed (genMessagesExtensions messages).
Proof. apply for_framed. apply genMessageExtension_framed. Qed.

Lemma genHeader_framed : framed genHeader.
Proof. unfold genHeader. framing. Qed.

Lemma genMessagesExtensionsFile_body_parts_framed messages command event :
  Forall framed
    [genHeader;
     match event with
     | Some event =>
         block [genDecoderListenerProtocol event;
                genDecoder event;
                genCommandNumberExtension event]
     | None => pass
     end;
     match command with
     | Some command =>
         block [genEncoder command;
                genCommandNumberExtension command]
     | None => pass
     end;
     genMessagesExtensions messages].
Proof.
  repeat first [apply Forall_nil | apply Forall_cons].
  - apply genHeader_framed.
  - destruct event as [event|]; [|apply pass_framed].
    apply block_framed.
    repeat first [apply Forall_nil | apply Forall_cons].
    + apply genDecoderListenerProtocol_framed.
    + apply genDecoder_framed.
    + apply genCommandNumberExtension_framed.
  - destruct command as [command|]; [|apply pass_framed].
    apply block_framed.
    repeat first [apply Forall_nil | apply Forall_cons].
    + apply genEncoder_framed.
    + apply genCommandNumberExtension_framed.
  - apply genMessagesExtensions_framed.
Qed.

Lemma genMessagesExtensionsFile_body_framed messages command event :
  framed (genMessagesExtensionsFile_body messages command event).
Proof.
  unfold genMessagesExtensionsFile_body. apply block_framed.
  apply genMessagesExtensionsFile_body_parts_framed.
Qed.

(** ** Sorting by field number *)

Lemma insert_by_perm {A : Type} k (x : A) l :
  Permutation (Py.insert_by k x l) ((k, x) :: l).
Proof.
  induction l as [|[k' y] l IH]; simpl; [apply Permutation_refl|].
  destruct (k <=? k')%Z; [apply Permutation_refl|].
  eapply Permutation_trans; [apply perm_skip, IH|apply perm_swap].
Qed.

Lemma insert_by_sorted {A : Type} k (x : A) l :
  StronglySorted (fun a b => (fst a <= fst b)%Z) l ->
  StronglySorted (fun a b => (fst a <= fst b)%Z) (Py.insert_by k x l).
Proof.
  induction 1 as [|[k' y] l Hs IH Hle]; simpl.
  - constructor; constructor.
  - destruct (k <=? k')%Z eqn:E.
    + apply Z.leb_le in E. constructor; [now constructor|].
      constructor; [exact E|].
      revert Hle. apply Forall_impl. intros [k2 z]. simpl. lia.
    + apply Z.leb_gt in E. constructor; [exact IH|].
      apply (Permutation_Forall (Permutation_sym (insert_by_perm k x l))).
      constructor; [simpl; lia|exact Hle].
Qed.

Lemma insert_by_filter {A : Type} n k (x : A) l :
  filter (fun kx => (fst kx =? n)%Z) (Py.insert_by k x l)
  = if (k =? n)%Z
    then (k, x) :: filter (fun kx => (fst kx =? n)%Z) l
    else filter (fun kx => (fst kx =? n)%Z) l.
Proof.
  induction l as [|[k' y] l IH]; simpl; [reflexivity|].
  destruct (k <=? k')%Z eqn:E; simpl; [reflexivity|].
  rewrite IH. apply Z.leb_gt in E.
  destruct (k =? n)%Z eqn:Ek; [|reflexivity].
  apply Z.eqb_eq in Ek. subst n.
  assert (N : (k' =? k)%Z = false) by (apply Z.eqb_neq; lia).
  now rewrite N.
Qed.

Lemma keyed_numbered l :
  Forall (fun field : string * string => Py.int (snd field) <> None) l ->
  Py.keyed (fun field => Py.int (snd field)) l
  = Some (map (fun field => (numberOf field, field)) l).
Proof.
  induction 1 as [|field l Hf _ IH]; [reflexivity|].
  simpl. rewrite IH. unfold numberOf.
  destruct (Py.int (snd field)); [reflexivity|now elim Hf].
Qed.

Lemma sorted_numbered l :
  Forall (fun field : string * string => Py.int (snd field) <> None) l ->
  exists fields,
    Py.sorted (fun field => Py.int (snd field)) l = Some fields
    /\ Permutation fields l
    /\ StronglySorted (fun f g => (numberOf f <= numberOf g)%Z) fields
    /\ forall n,
         filter (fun f => (numberOf f =? n)%Z) fields
         = filter (fun f => (numberOf f =? n)%Z) l.
Proof.
  intros Hl. unfold Py.sorted. rewrite (keyed_numbered l Hl).
  eexists. split; [reflexivity|]. clear Hl.
  induction l as [|field l [Hp [Hs Hf]]]; simpl.
  - split; [constructor|]. split; [constructor|reflexivity].
  - set (rest := fold_right
                   (fun kx acc => Py.insert_by (fst kx) (snd kx) acc) []
                   (map (fun field => (numberOf field, field)) l)) in *.
    assert (Ht : Forall (fun kx => fst kx = numberOf (snd kx)) rest).
    { subst rest. clear. induction l as [|f l IH]; simpl; [constructor|].
      apply (Permutation_Forall
               (Permutation_sym (insert_by_perm (numberOf f) f _))).
      now constructor. }
    assert (Hr : StronglySorted (fun a b => (fst a <= fst b)%Z) rest).
    { subst rest. clear. induction l as [|f l IH]; simpl; [constructor|].
      now apply insert_by_sorted. }
    assert (Hi : Forall (fun kx => fst kx = numberOf (snd kx))
                        (Py.insert_by (numberOf field) field rest)).
    { apply (Permutation_Forall
               (Permutation_sym (insert_by_perm (numberOf field) field _))).
      now constructor. }
    split; [|split].
    + eapply Permutation_trans;
        [apply Permutation_map, insert_by_perm|]. simpl.
      now apply perm_skip.
    + pose proof (insert_by_sorted (numberOf field) field rest Hr) as Hs'.
      revert Hi. induction Hs' as [|a L _ IH' Hle]; intros Hi;
        simpl; constructor.
      * apply IH'. now inversion Hi.
      * inversion Hi as [|? ? Ha HL]; subst.
        apply Forall_map. rewrite Forall_forall in *.
        intros b Hb. rewrite <- Ha, <- (HL b Hb). now apply Hle.
    + intros n.
      assert (E : forall L,
                 Forall (fun kx => fst kx = numberOf (snd kx)) L ->
                 filter (fun f => (numberOf f =? n)%Z) (map snd L)
                 = map snd (filter (fun kx => (fst kx =? n)%Z) L)).
      { clear. induction 1 as [|a L Ha _ IH]; simpl; [reflexivity|].
        rewrite <- Ha. destruct (fst a =? n)%Z; simpl; now rewrite IH. }
      rewrite (E _ Hi), insert_by_filter, <- (Hf n), (E _ Ht).
      now destruct (numberOf field =? n)%Z.
Qed.

(** ** When the functions return *)

Lemma forallb_eq_in {A : Type} (f g : A -> bool) l :
  (forall x, In x l -> f x = g x) -> forallb f l = forallb g l.
Proof.
  induction l as [|x l IH]; intros H; [reflexivity|]. simpl.
  rewrite (H x (or_introl eq_refl)), IH; [reflexivity|].
  intros y Hy. apply H. now right.
Qed.

Lemma forallb_eq {A : Type} (f g : A -> bool) l :
  (forall x, f x = g x) -> forallb f l = forallb g l.
Proof. intros H. apply forallb_eq_in. intros x _. apply H. Qed.

Lemma forallb_of_map {A B : Type} (f : B -> bool) (g : A -> B) l :
  forallb f (map g l) = forallb (fun x => f (g x)) l.
Proof. induction l as [|x l IH]; simpl; [reflexivity|now rewrite IH]. Qed.

Lemma forallb_of_flat_map {A B : Type} (f : B -> bool) (g : A -> list B) l :
  forallb f (flat_map g l) = forallb (fun x => forallb f (g x)) l.
Proof.
  induction l as [|x l IH]; simpl; [reflexivity|].
  now rewrite forallb_app, IH.
Qed.

Lemma forallb_perm {A : Type} (f : A -> bool) l l' :
  Permutation l l' -> forallb f l = forallb f l'.
Proof.
  induction 1 as [|x l l' _ IH|x y l|l l1 l2 _ IH1 _ IH2]; simpl.
  - reflexivity.
  - now rewrite IH.
  - now rewrite !andb_assoc, (andb_comm (f y)).
  - now rewrite IH1.
Qed.

Ltac returning :=
  rewrite returns_block by framing; cbn [forallb];
  rewrite !returns_write by reflexivity.

Lemma returns_genDecoderListenerProtocolFunc name type :
  returns (genDecoderListenerProtocolFunc name type) = nameable name.
Proof.
  unfold genDecoderListenerProtocolFunc, nameable. cbv zeta.
  rewrite !capwords_without_underscores.
  destruct (name_cases name) as [[-> ->]|[-> [c [s ->]]]]; [reflexivity|].
  cbn [Py.getitem0 try_]. returning. reflexivity.
Qed.

Lemma returns_genDecoderCase name :
  returns (genDecoderCase name) = nameable name.
Proof.
  unfold genDecoderCase, nameable. cbv zeta.
  rewrite !capwords_without_underscores.
  destruct (name_cases name) as [[-> ->]|[-> [c [s ->]]]]; [reflexivity|].
  cbn [Py.getitem0 try_]. returning. reflexivity.
Qed.

Lemma returns_genCommandNumber name number :
  returns (genCommandNumber name number) = nameable name.
Proof.
  unfold genCommandNumber, nameable. cbv zeta.
  rewrite !capwords_without_underscores.
  destruct (name_cases name) as [[-> ->]|[-> [c [s ->]]]]; [reflexivity|].
  cbn [Py.getitem0 try_]. now rewrite returns_write.
Qed.

Lemma returns_genFieldNumber name number :
  returns (genFieldNumber name number) = nameable name.
Proof.
  unfold genFieldNumber, nameable. cbv zeta.
  rewrite !capwords_without_underscores.
  destruct (name_cases name) as [[-> ->]|[-> [c [s ->]]]]; [reflexivity|].
  cbn [Py.getitem0 try_]. now rewrite returns_write.
Qed.

Lemma returns_genFieldVar name number :
  returns (genFieldVar name number) = nameable name.
Proof.
  unfold genFieldVar, nameable. cbv zeta.
  rewrite !capwords_without_underscores.
  destruct (name_cases name) as [[-> ->]|[-> [c [s ->]]]]; [reflexivity|].
  cbn [Py.getitem0 try_]. returning. reflexivity.
Qed.

Lemma returns_genDecoderListenerProtocol event :
  returns (genDecoderListenerProtocol event)
  = forallb nameable (oneOfNames (Some event)).
Proof.
  unfold genDecoderListenerProtocol. cbv zeta. returning.
  rewrite returns_for
    by (intros; apply genDecoderListenerProtocolFunc_framed).
  rewrite (forallb_eq _ (fun msg => nameable (OneOf.id msg)))
    by (intros; apply returns_genDecoderListenerProtocolFunc).
  cbn [andb]. rewrite andb_true_r. simpl oneOfNames.
  now rewrite forallb_of_map.
Qed.

Lemma returns_genDecoder event :
  returns (genDecoder event) = forallb nameable (oneOfNames (Some event)).
Proof.
  unfold genDecoder. cbv zeta. returning.
  rewrite returns_for by (intros; apply genDecoderCase_framed).
  rewrite (forallb_eq _ (fun msg => nameable (OneOf.id msg)))
    by (intros; apply returns_genDecoderCase).
  cbn [andb]. rewrite andb_true_r. simpl oneOfNames.
  now rewrite forallb_of_map.
Qed.

Lemma returns_genEncoder command : returns (genEncoder command) = true.
Proof. unfold genEncoder. cbv zeta. returning. reflexivity. Qed.

Lemma returns_genCommandNumberExtension command :
  returns (genCommandNumberExtension command)
  = forallb nameable (oneOfNames (Some command)).
Proof.
  unfold genCommandNumberExtension. returning.
  rewrite returns_for by (intros; apply genCommandNumber_framed).
  rewrite (forallb_eq _ (fun msg => nameable (OneOf.id msg)))
    by (intros; apply returns_genCommandNumber).
  cbn [andb]. rewrite andb_true_r. simpl oneOfNames.
  now rewrite forallb_of_map.
Qed.

Lemma returns_genHeader : returns genHeader = true.
Proof. reflexivity. Qed.

Lemma returns_genMessageExtension message :
  numbered message ->
  returns (genMessageExtension message)
  = forallb nameable (Py.keys (Message.fields message)).
Proof.
  intros Hn. destruct (sorted_numbered _ Hn) as [fields [Hs [Hp _]]].
  unfold genMessageExtension. rewrite Hs. cbn [try_].
  unfold Py.keys. rewrite forallb_of_map, <- (forallb_perm _ _ _ Hp).
  destruct fields as [|field fields]; [reflexivity|].
  cbv zeta. generalize (field :: fields) as l. intros l.
  returning. rewrite !returns_for by (intros; framing).
  rewrite (forallb_eq _ (fun field => nameable (fst field)))
    by (intros [fieldName number]; apply returns_genFieldNumber).
  cbn [andb]. rewrite andb_true_r.
  destruct (Py.mem "selected_fields" (Message.fields message)).
  - rewrite (forallb_eq (fun x => returns (let '(fieldName, number) := x in _))
               (fun field => nameable (fst field)))
      by (intros [fieldName number]; apply returns_genFieldVar).
    apply andb_diag.
  - rewrite (forallb_eq (fun x => returns (let '(fieldName, number) := x in _))
               (fun _ => true))
      by (intros [fieldName number]; reflexivity).
    rewrite andb_comm.
    assert (T : forallb (fun _ : string * string => true) l = true).
    { clear. induction l; [reflexivity|exact IHl]. }
    now rewrite T.
Qed.

Lemma returns_genMessagesExtensions messages :
  Forall numbered messages ->
  returns (genMessagesExtensions messages)
  = forallb nameable (fieldNames messages).
Proof.
  intros Hn. unfold genMessagesExtensions, fieldNames.
  rewrite returns_for by apply genMessageExtension_framed.
  rewrite forallb_of_flat_map. apply forallb_eq_in.
  intros message Hm. apply returns_genMessageExtension.
  rewrite Forall_forall in Hn. now apply Hn.
Qed.

Lemma returns_genMessagesExtensionsFile_body messages command event :
  Forall numbered messages ->
  returns (genMessagesExtensionsFile_body messages command event)
  = forallb nameable
      (oneOfNames event ++ oneOfNames command ++ fieldNames messages).
Proof.
  intros Hn. unfold genMessagesExtensionsFile_body.
  rewrite returns_block
    by apply genMessagesExtensionsFile_body_parts_framed.
  cbn [forallb]. rewrite returns_genHeader, !forallb_app.
  rewrite (returns_genMessagesExtensions messages Hn).
  cbn [andb]. rewrite andb_true_r. f_equal; [|f_equal].
  - destruct event as [event|]; [|reflexivity].
    rewrite returns_block.
    + cbn [forallb].
      rewrite returns_genDecoderListenerProtocol, returns_genDecoder,
        returns_genCommandNumberExtension.
      rewrite andb_true_r, !andb_diag. reflexivity.
    + repeat first [apply Forall_nil | apply Forall_cons].
      * apply genDecoderListenerProtocol_framed.
      * apply genDecoder_framed.
      * apply genCommandNumberExtension_framed.
  - destruct command as [command'|]; [|reflexivity].
    rewrite returns_block.
    + cbn [forallb].
      rewrite returns_genEncoder, returns_genCommandNumberExtension.
      cbn [andb]. now rewrite andb_true_r.
    + repeat first [apply Forall_nil | apply Forall_cons].
      * apply genEncoder_framed.
      * apply genCommandNumberExtension_framed.
Qed.

(** ** Type conversion *)

Lemma get_in d k v : Py.get d k = Some v -> In (k, v) d.
Proof.
  induction d as [|[k0 v0] d IH]; simpl; [discriminate|].
  destruct (String.eqb k0 k) eqn:E.
  - apply String.eqb_eq in E. subst k0. intros H. injection H as ->.
    now left.
  - intros H. right. now apply IH.
Qed.

(** X11. [convertType] is idempotent, and it changes exactly the types
    that [mapper] lists: no Swift type it gives is itself a key, and no
    key is mapped to itself. *)
Theorem convertType_idempotent type :
  convertType (convertType type) = convertType type
  /\ (convertType type = type <-> Py.mem type mapper = false).
Proof.
  unfold convertType, Py.mem.
  destruct (Py.get mapper type) as [t|] eqn:G; cbn iota.
  - apply get_in in G. simpl in G.
    repeat (destruct G as [G|G];
            [injection G as <- <-;
             split; [reflexivity|split; discriminate]|]).
    destruct G.
  - rewrite G. split; [reflexivity|]. split; reflexivity.
Qed.

(** X12. Of the scalar types that the grammar's [typespec] lists,
    [convertType] turns every one into a Swift type except [int64],
    which [mapper] does not have and which comes back unchanged. *)
Theorem convertType_leaves_int64 type :
  In type scalarTypes ->
  ProtoParser.typespec
  = Pyparsing.MatchFirst
      [Pyparsing.oneOf scalarTypes; ProtoParser.mapDefn;
       ProtoParser.ident]
  /\ (convertType type = type <-> type = "int64").
Proof.
  intros H. split; [reflexivity|].
  unfold scalarTypes in H. simpl in H.
  repeat (destruct H as [<-|H];
          [split; intros E;
           first [reflexivity|discriminate E
                 |vm_compute in E; discriminate E]|]).
  destruct H.
Qed.

Lemma convertType_leaves_int64_witness :
  ProtoParser.typespec
  = Pyparsing.MatchFirst
      [Pyparsing.oneOf scalarTypes; ProtoParser.mapDefn;
       ProtoParser.ident]
  /\ (convertType "int64" = "int64" <-> "int64" = "int64").
Proof.
  apply (convertType_leaves_int64 "int64").
  unfold scalarTypes. simpl. tauto.
Defined.

(** ** Names *)

Lemma raises_iff s name fileobj :
  framed s -> returns s = nameable name ->
  (upperCamel name = EmptyString -> s fileobj = Raised fileobj) ->
  s fileobj = Raised fileobj <-> onlyUnderscores name = true.
Proof.
  intros Hf Hr Hu. split.
  - intros H. destruct (onlyUnderscores name) eqn:E; [reflexivity|].
    unfold nameable in Hr. rewrite E in Hr.
    rewrite (framed_written s fileobj Hf Hr) in H. discriminate.
  - intros E. apply Hu. now apply upperCamel_empty_iff.
Qed.

(** X13. The five functions that derive a Swift name from a field or
    entry name raise, with nothing written, exactly when the name is
    made of underscores only (or is empty): the first character of what
    is left of the name without its underscores is taken, and there is
    none.  The grammar's identifiers include such names. *)
Theorem underscore_names_raise name type number fileobj :
  (genDecoderListenerProtocolFunc name type fileobj = Raised fileobj
   <-> onlyUnderscores name = true)
  /\ (genDecoderCase name fileobj = Raised fileobj
      <-> onlyUnderscores name = true)
  /\ (genCommandNumber name number fileobj = Raised fileobj
      <-> onlyUnderscores name = true)
  /\ (genFieldNumber name number fileobj = Raised fileobj
      <-> onlyUnderscores name = true)
  /\ (genFieldVar name number fileobj = Raised fileobj
      <-> onlyUnderscores name = true).
Proof.
  repeat split;
    first
      [ apply (raises_iff _ name fileobj
                 (genDecoderListenerProtocolFunc_framed name type)
                 (returns_genDecoderListenerProtocolFunc name type))
      | apply (raises_iff _ name fileobj (genDecoderCase_framed name)
                 (returns_genDecoderCase name))
      | apply (raises_iff _ name fileobj
                 (genCommandNumber_framed name number)
                 (returns_genCommandNumber name number))
      | apply (raises_iff _ name fileobj
                 (genFieldNumber_framed name number)
                 (returns_genFieldNumber name number))
      | apply (raises_iff _ name fileobj (genFieldVar_framed name number)
                 (returns_genFieldVar name number)) ];
    intros U;
    unfold genDecoderListenerProtocolFunc, genDecoderCase,
      genCommandNumber, genFieldNumber, genFieldVar; cbv zeta;
    rewrite !capwords_without_underscores, U; reflexivity.
Qed.

(** An identifier of the grammar that makes the generator raise. *)
Example underscore_is_an_identifier :
  ProtoParser.parseFile "message Event { oneof id { Foo _ = 1; } }"
  = ProtoParser.Returned
      [Message.mk "_Event" [("_", "1")]] None
      (Some (Command.mk "_Event" ".Event" [OneOf.mk "_" "Foo" "1"])).
Proof. vm_compute. reflexivity. Qed.

Lemma join_no_char c ws :
  Forall (fun w => ~ In c (list_ascii_of_string w)) ws ->
  ~ In c (list_ascii_of_string (Py.join "" ws)).
Proof.
  assert (A : forall a b,
             In c (list_ascii_of_string (a ++ b)) ->
             In c (list_ascii_of_string a) \/ In c (list_ascii_of_string b)).
  { induction a as [|x a IH]; simpl; intros b H; [now right|].
    destruct H as [H|H]; [left; now left|].
    destruct (IH b H); [left; now right|now right]. }
  induction 1 as [|w ws Hw Hws IH]; simpl; [tauto|].
  destruct ws as [|w' ws]; [exact Hw|].
  intros H. apply A in H. destruct H as [H|H]; [now apply Hw|].
  simpl append in H. now apply IH.
Qed.

Lemma upperCamel_no_underscore name :
  ~ In "_"%char (list_ascii_of_string (upperCamel name)).
Proof.
  unfold upperCamel. apply join_no_char.
  apply Forall_forall. intros w Hw. apply in_map_iff in Hw.
  destruct Hw as [w0 [<- Hw0]]. apply capitalize_no_underscore.
  pose proof (split_no_sep "_" name) as Hs.
  rewrite Forall_forall in Hs. now apply Hs.
Qed.

Lemma lower_char_not_upper c : Py.is_upper (Py.lower_char c) = false.
Proof. destruct c as [[] [] [] [] [] [] [] []]; reflexivity. Qed.

(** X14. For a name with some character besides underscores,
    [genFieldNumber] and [genCommandNumber] write one line each, with
    the Swift name of the field: the parts of the name between
    underscores, capitalised and joined, with the first character in
    lower case.  That name is not empty, has no underscore and does not
    start with an upper-case letter. *)
Theorem field_number_line_has_swift_name name number fileobj :
  nameable name = true ->
  genFieldNumber name number fileobj
  = Written (fileobj ++ "    static var " ++ swiftName name
             ++ "FieldNumber: Int32 { " ++ number ++ " }" ++ nl)
  /\ genCommandNumber name number fileobj
     = Written (fileobj ++ "        case ." ++ swiftName name
                ++ ": return " ++ number ++ nl)
  /\ ~ In "_"%char (list_ascii_of_string (swiftName name))
  /\ exists c s, swiftName name = String c s /\ Py.is_upper c = false.
Proof.
  intros Hn. unfold nameable in Hn. apply negb_true_iff in Hn.
  pose proof (upperCamel_no_underscore name) as Hu.
  unfold genFieldNumber, genCommandNumber, swiftName in *. cbv zeta.
  rewrite !capwords_without_underscores.
  destruct (name_cases name) as [[E _]|[_ [c [s U]]]]; [congruence|].
  rewrite U in *. cbn [Py.getitem0 try_].
  split; [reflexivity|]. split; [reflexivity|]. split.
  - simpl in Hu |- *. intros [H|H]; [|apply Hu; now right].
    apply (lower_char_not_underscore c); [|exact H].
    intros ->. apply Hu. now left.
  - exists (Py.lower_char c), s. split; [reflexivity|].
    apply lower_char_not_upper.
Qed.

Lemma field_number_line_has_swift_name_witness :
  genFieldNumber "selected_fields" "3" ""
  = Written ("" ++ "    static var " ++ swiftName "selected_fields"
             ++ "FieldNumber: Int32 { " ++ "3" ++ " }" ++ nl)
  /\ genCommandNumber "selected_fields" "3" ""
     = Written ("" ++ "        case ." ++ swiftName "selected_fields"
                ++ ": return " ++ "3" ++ nl)
  /\ ~ In "_"%char (list_ascii_of_string (swiftName "selected_fields"))
  /\ exists c s,
       swiftName "selected_fields" = String c s /\ Py.is_upper c = false.
Proof.
  apply (field_number_line_has_swift_name "selected_fields" "3" "").
  reflexivity.
Defined.

Example swiftName_selected_fields :
  swiftName "selected_fields" = "selectedFields"
  /\ swiftName "FOO_bar" = "fooBar"
  /\ swiftName "fooBar" = "foobar".
Proof. repeat split; reflexivity. Qed.

Lemma lower_char_underscore c :
  Ascii.eqb (Py.lower_char c) "_" = Ascii.eqb c "_".
Proof. destruct c as [[] [] [] [] [] [] [] []]; reflexivity. Qed.

Lemma upper_lower_char c :
  Py.upper_char (Py.lower_char c) = Py.upper_char c.
Proof. destruct c as [[] [] [] [] [] [] [] []]; reflexivity. Qed.

Lemma lower_lower_char c :
  Py.lower_char (Py.lower_char c) = Py.lower_char c.
Proof. destruct c as [[] [] [] [] [] [] [] []]; reflexivity. Qed.

Lemma lower_lower s : Py.lower (Py.lower s) = Py.lower s.
Proof.
  induction s as [|c s IH]; simpl; [reflexivity|].
  now rewrite lower_lower_char, IH.
Qed.

Lemma capitalize_lower w : Py.capitalize (Py.lower w) = Py.capitalize w.
Proof.
  destruct w as [|c w]; simpl; [reflexivity|].
  now rewrite upper_lower_char, lower_lower.
Qed.

Lemma split_lower s :
  Py.split "_" (Py.lower s) = map Py.lower (Py.split "_" s).
Proof.
  induction s as [|c s IH]; [reflexivity|].
  cbn [Py.lower Py.split]. rewrite lower_char_underscore, IH.
  destruct (Ascii.eqb c "_"); [reflexivity|].
  now destruct (Py.split "_" s).
Qed.

Lemma upperCamel_lower name : upperCamel (Py.lower name) = upperCamel name.
Proof.
  unfold upperCamel. rewrite split_lower, map_map.
  f_equal. apply map_ext. apply capitalize_lower.
Qed.

Lemma upperCamel_leading_underscore name :
  upperCamel ("_" ++ name) = upperCamel name.
Proof.
  unfold upperCamel. simpl append. cbn [Py.split]. simpl Ascii.eqb.
  cbn iota. cbn [map]. rewrite ExtractionFacts.join_cons; [reflexivity|].
  pose proof (ExtractionFacts.split_not_nil "_" name) as Hn.
  destruct (Py.split "_" name); [now elim Hn|discriminate].
Qed.

(** X15. What the five functions write for a name does not change when
    an underscore is put before the name or when the name is put in
    lower case: two fields, or two entries, whose names differ in that
    way only get the same Swift declarations. *)
Theorem names_alike_write_alike name name' type number fileobj :
  name' = "_" ++ name \/ name' = Py.lower name ->
  genDecoderListenerProtocolFunc name' type fileobj
  = genDecoderListenerProtocolFunc name type fileobj
  /\ genDecoderCase name' fileobj = genDecoderCase name fileobj
  /\ genCommandNumber name' number fileobj
     = genCommandNumber name number fileobj
  /\ genFieldNumber name' number fileobj
     = genFieldNumber name number fileobj
  /\ genFieldVar name' number fileobj = genFieldVar name number fileobj.
Proof.
  intros H.
  assert (U : upperCamel name' = upperCamel name).
  { destruct H as [-> | ->];
      [apply upperCamel_leading_underscore|apply upperCamel_lower]. }
  unfold genDecoderListenerProtocolFunc, genDecoderCase,
    genCommandNumber, genFieldNumber, genFieldVar. cbv zeta.
  rewrite !capwords_without_underscores, U. repeat split.
Qed.

Lemma names_alike_write_alike_witness :
  genDecoderListenerProtocolFunc "_state" "State" ""
  = genDecoderListenerProtocolFunc "state" "State" ""
  /\ genDecoderCase "_state" "" = genDecoderCase "state" ""
  /\ genCommandNumber "_state" "1" "" = genCommandNumber "state" "1" ""
  /\ genFieldNumber "_state" "1" "" = genFieldNumber "state" "1" ""
  /\ genFieldVar "_state" "1" "" = genFieldVar "state" "1" "".
Proof.
  apply (names_alike_write_alike "state" "_state" "State" "1" "").
  left. reflexivity.
Defined.

(** ** Message extensions *)

(** X16. [genMessageExtension] goes through the fields of the message
    by increasing field number, whatever the order they were declared
    in, each field once, and fields of equal number in the order of
    declaration; a message without fields gets no extension at all. *)
Theorem genMessageExtension_by_field_number message fileobj :
  numbered message ->
  exists fields,
    Permutation fields (Message.fields message)
    /\ StronglySorted (fun f g => (numberOf f <= numberOf g)%Z) fields
    /\ (forall n,
          filter (fun f => (numberOf f =? n)%Z) fields
          = filter (fun f => (numberOf f =? n)%Z) (Message.fields message))
    /\ genMessageExtension message fileobj
       = match fields with
         | [] => Written fileobj
         | _ :: _ =>
             block
               [write ("extension %s {" ++ nl) [Message.id message];
                for_ fields (fun '(fieldName, number) =>
                  genFieldNumber fieldName number);
                for_ fields (fun '(fieldName, number) =>
                  if Py.mem "selected_fields" (Message.fields message)
                  then genFieldVar fieldName number else pass);
                write ("}" ++ nl) []] fileobj
         end.
Proof.
  intros Hn. destruct (sorted_numbered _ Hn) as [fields [Hs [Hp [Hss Hf]]]].
  exists fields. repeat split; try assumption.
  unfold genMessageExtension. rewrite Hs. cbn [try_].
  now destruct fields.
Qed.

Lemma genMessageExtension_by_field_number_witness :
  exists fields,
    Permutation fields
      (Message.fields (Message.mk "P_M" [("b", "2"); ("a", "1")]))
    /\ StronglySorted (fun f g => (numberOf f <= numberOf g)%Z) fields
    /\ (forall n,
          filter (fun f => (numberOf f =? n)%Z) fields
          = filter (fun f => (numberOf f =? n)%Z)
              (Message.fields (Message.mk "P_M" [("b", "2"); ("a", "1")])))
    /\ genMessageExtension (Message.mk "P_M" [("b", "2"); ("a", "1")]) ""
       = match fields with
         | [] => Written ""
         | _ :: _ =>
             block
               [write ("extension %s {" ++ nl)
                  [Message.id (Message.mk "P_M" [("b", "2"); ("a", "1")])];
                for_ fields (fun '(fieldName, number) =>
                  genFieldNumber fieldName number);
                for_ fields (fun '(fieldName, number) =>
                  if Py.mem "selected_fields"
                       (Message.fields
                          (Message.mk "P_M" [("b", "2"); ("a", "1")]))
                  then genFieldVar fieldName number else pass);
                write ("}" ++ nl) []] ""
         end.
Proof.
  apply (genMessageExtension_by_field_number
           (Message.mk "P_M" [("b", "2"); ("a", "1")]) "").
  unfold numbered. simpl. repeat constructor; discriminate.
Defined.

(** The text for that message: the field declared second comes
    first. *)
Example genMessageExtension_text :
  genMessageExtension (Message.mk "P_M" [("b", "2"); ("a", "1")]) ""
  = Written ("extension P_M {" ++ nl
             ++ "    static var aFieldNumber: Int32 { 1 }" ++ nl
             ++ "    static var bFieldNumber: Int32 { 2 }" ++ nl
             ++ "}" ++ nl).
Proof. vm_compute. reflexivity. Qed.

Lemma genMessageExtension_no_fields message fileobj :
  Message.fields message = [] ->
  genMessageExtension message fileobj = Written fileobj.
Proof. intros H. unfold genMessageExtension. now rewrite H. Qed.

(** X17. Messages without fields leave no trace in the output: the
    extensions generated for a list of messages are those generated for
    the messages of the list that have a field.  (The message that the
    extraction makes for an enum never has one.) *)
Theorem messages_without_fields_are_skipped messages fileobj :
  genMessagesExtensions messages fileobj
  = genMessagesExtensions
      (filter (fun message =>
                 match Message.fields message with
                 | [] => false
                 | _ :: _ => true
                 end) messages) fileobj.
Proof.
  unfold genMessagesExtensions, for_. revert fileobj.
  induction messages as [|message messages IH]; intros fileobj;
    [reflexivity|].
  cbn [map filter block].
  destruct (Message.fields message) eqn:E.
  - unfold seq at 1. rewrite (genMessageExtension_no_fields _ _ E).
    apply IH.
  - cbn [map block]. unfold seq.
    destruct (genMessageExtension message fileobj); [apply IH|reflexivity].
Qed.

(** ** The whole output *)

(** X18. The generator returns for every model whose field numbers are
    integers, unless a name is made of underscores only: the entry
    names of the event and of the command and the field names of the
    messages are the only things that can make it raise. *)
Theorem generation_returns_iff_names_are_nameable
    messages command event fileobj :
  Forall numbered messages ->
  (exists fileobj',
     genMessagesExtensionsFile_body messages command event fileobj
     = Written fileobj')
  <-> forallb nameable
        (oneOfNames event ++ oneOfNames command ++ fieldNames messages)
      = true.
Proof.
  intros Hn.
  rewrite <- (returns_genMessagesExtensionsFile_body _ command event Hn).
  apply framed_returns_iff. apply genMessagesExtensionsFile_body_framed.
Qed.

Lemma generation_returns_iff_names_are_nameable_witness :
  (exists fileobj',
     genMessagesExtensionsFile_body
       [Message.mk "P_Event" [("state", "1")]; Message.mk "P_State" []]
       None (Some (Command.mk "P_Event" "p.Event"
                     [OneOf.mk "state" "P_State" "1"])) ""
     = Written fileobj')
  <-> forallb nameable
        (oneOfNames (Some (Command.mk "P_Event" "p.Event"
                             [OneOf.mk "state" "P_State" "1"]))
         ++ oneOfNames None
         ++ fieldNames
              [Message.mk "P_Event" [("state", "1")];
               Message.mk "P_State" []])
      = true.
Proof.
  apply (generation_returns_iff_names_are_nameable
           [Message.mk "P_Event" [("state", "1")]; Message.mk "P_State" []]
           None (Some (Command.mk "P_Event" "p.Event"
                         [OneOf.mk "state" "P_State" "1"])) "").
  unfold numbered. simpl. repeat constructor; discriminate.
Defined.

(** X19. The generator only appends: what is in the file stays, and
    what is written after it, and whether the run returns or raises, do
    not depend on it. *)
Theorem generator_only_appends messages command event fileobj :
  genMessagesExtensionsFile_body messages command event fileobj
  = prepend fileobj
      (genMessagesExtensionsFile_body messages command event EmptyString).
Proof. apply genMessagesExtensionsFile_body_framed. Qed.

Lemma genHeader_writes_header : genHeader EmptyString = Written header.
Proof. reflexivity. Qed.

(** X20. The output file is opened only once [parseFile] has returned:
    when it raises, for a parse error or in the extraction, nothing is
    written.  Once the file is opened the header is written in full
    before anything else, so a run that raises while generating leaves
    a file that starts with the header. *)
Theorem output_file_opened_after_parse infile :
  match genMessagesExtensionsFile infile with
  | NotOpened raised =>
      ProtoParser.parseFile infile = raised
      /\ forall messages command event,
           raised <> ProtoParser.Returned messages command event
  | Closed written =>
      (exists messages command event,
          ProtoParser.parseFile infile
          = ProtoParser.Returned messages command event)
      /\ exists rest, content written = header ++ rest
  end.
Proof.
  unfold genMessagesExtensionsFile, extractMessagesFromProto.
  destruct (ProtoParser.parseFile infile) as [messages command event|l| |];
    try (split; [reflexivity|discriminate]).
  split; [now exists messages, command, event|].
  unfold genMessagesExtensionsFile_body. cbn [block].
  unfold seq at 1. rewrite genHeader_writes_header.
  match goal with
  | |- exists rest, content (?r header) = _ =>
      assert (F : framed r)
  end.
  { pose proof (genMessagesExtensionsFile_body_parts_framed
                  messages command event) as H.
    inversion H as [|? ? _ H']; subst.
    exact (block_framed _ H'). }
  rewrite (F header).
  match goal with
  | |- exists rest, content (prepend header ?x) = _ =>
      exists (content x); now destruct x
  end.
Qed.

(** ** Field numbers, from the grammar to the generator *)

Lemma span_fst_all f s :
  forallb f (list_ascii_of_string (fst (Pyparsing.span f s))) = true.
Proof.
  induction s as [|c s IH]; simpl; [reflexivity|].
  destruct (f c) eqn:E; [|reflexivity].
  destruct (Pyparsing.span f s) as [m r]. simpl in *. now rewrite E.
Qed.

Lemma digits_value_some digits :
  forallb Py.is_digit (list_ascii_of_string digits) = true ->
  forall acc, Py.digits_value acc digits <> None.
Proof.
  induction digits as [|c digits IH]; simpl; intros H acc; [discriminate|].
  apply andb_true_iff in H. destruct H as [Hc Hd]. rewrite Hc.
  now apply IH.
Qed.

Lemma digit_not_sign c :
  Py.is_digit c = true ->
  Ascii.eqb c "-" = false /\ Ascii.eqb c "+" = false.
Proof.
  destruct c as [[] [] [] [] [] [] [] []]; vm_compute;
    intros H; try discriminate H; now split.
Qed.

Lemma int_of_digits sign c digits :
  sign = EmptyString \/ sign = "+" \/ sign = "-" ->
  forallb Py.is_digit (list_ascii_of_string (String c digits)) = true ->
  String.length (sign ++ String c digits) <= 4300 ->
  Py.int (sign ++ String c digits) <> None.
Proof.
  intros Hs Hd Hl.
  assert (Hv : forall negative : bool,
             (if (4300 <? Z.of_nat (String.length (String c digits)))%Z
              then None
              else option_map (fun n : Z => if negative then (- n)%Z else n)
                              (Py.digits_value 0 (String c digits)))
             <> None).
  { intros negative.
    assert (L : (4300 <? Z.of_nat (String.length (String c digits)))%Z
                = false).
    { apply Z.ltb_ge. rewrite ProtoParserFacts.length_append in Hl. lia. }
    rewrite L. pose proof (digits_value_some _ Hd 0%Z) as Hn.
    destruct (Py.digits_value 0 (String c digits));
      [discriminate|now elim Hn]. }
  destruct Hs as [-> | [-> | ->]]; unfold Py.int.
  - simpl append. simpl in Hd. apply andb_true_iff in Hd.
    destruct Hd as [Hc _]. destruct (digit_not_sign c Hc) as [E1 E2].
    rewrite E1, E2. exact (Hv false).
  - simpl append. simpl Ascii.eqb. cbn iota. exact (Hv false).
  - simpl append. simpl Ascii.eqb. cbn iota. exact (Hv true).
Qed.

(** X21. Every token that the grammar's [integer] matches, which is
    what the number of a field definition is, is a string that [int]
    converts (up to the interpreter's limit on the number of digits):
    the key by which [genMessageExtension] sorts does not raise on
    it. *)
Theorem integer_tokens_convert cur cur' toklist tokdict :
  ProtoParser.integer cur = Pyparsing.Matched cur' toklist tokdict ->
  exists number,
    toklist = [Str number] /\ tokdict = []
    /\ (String.length number <= 4300 -> Py.int number <> None).
Proof.
  unfold ProtoParser.integer, Pyparsing.Regex_integer, Pyparsing.token.
  set (cur0 := Pyparsing.preParse cur).
  destruct (Pyparsing.rest cur0) as [|c s] eqn:R; [discriminate|].
  destruct (Pyparsing.in_chars "+-" c) eqn:S.
  - pose proof (span_fst_all Pyparsing.nums s) as Hd.
    destruct (Pyparsing.span Pyparsing.nums s) as [digits r].
    destruct digits as [|d digits]; [discriminate|].
    intros H. injection H as _ <- <-.
    eexists. split; [reflexivity|]. split; [reflexivity|].
    intros Hl.
    apply (int_of_digits (String c "") d digits); [|exact Hd|exact Hl].
    unfold Pyparsing.in_chars in S. simpl in S.
    rewrite orb_false_r in S. apply orb_true_iff in S.
    destruct S as [S|S]; apply Ascii.eqb_eq in S; subst c; tauto.
  - pose proof (span_fst_all Pyparsing.nums (String c s)) as Hd.
    destruct (Pyparsing.span Pyparsing.nums (String c s)) as [digits r].
    destruct digits as [|d digits]; [discriminate|].
    intros H. injection H as _ <- <-.
    eexists. split; [reflexivity|]. split; [reflexivity|].
    intros Hl.
    apply (int_of_digits "" d digits); [now left|exact Hd|exact Hl].
Qed.

Lemma integer_tokens_convert_witness :
  exists number,
    [Str "-42"] = [Str number] /\ @nil (string * value) = []
    /\ (String.length number <= 4300 -> Py.int number <> None).
Proof.
  apply (integer_tokens_convert
           (Pyparsing.start " -42;")
           (Pyparsing.mkCursor (Some "2"%char) ";" 4)
           [Str "-42"] []).
  reflexivity.
Defined.

End GenSwiftFacts.

(** * The positions of the parser *)

Module PositionFacts.
Import ProtoParser Flat Shape ProtoParserFacts.































End PositionFacts.
